(** * The Topography of Care: the contour engine (contour.js) and its surroundings

    A shallow embedding of [ContourModule]: the Gaussian energy field
    ([generateScalarField]), the threshold split ([generateContours]), the
    two coordinate transforms and the [process] pipeline.

    Numbers.  A JavaScript number is modelled by [num]: a finite value,
    carried exactly as a rational, or one of the three IEEE 754 specials
    +Infinity, -Infinity, NaN.  Arithmetic on finite values is exact (no
    rounding, no overflow, one unsigned zero, no Float32 narrowing on
    store); the specials propagate as IEEE 754 and ECMAScript prescribe
    them (x/0, Infinity - Infinity, 0 * Infinity, comparisons with NaN,
    Math.max/min/floor/ceil on specials).

    Rounding.  The statements on thresholds, cell ranges, transforms,
    colours and the bounding box test are made so as not to rest on the
    exactness of this arithmetic: an order is stated as non-strict where
    rounding can merge two values; a quotient that is floored or ceiled
    comes with a margin of at least half a cell, the far side of a
    rectangle with a margin of a pixel or of 10^-9 degree, a threshold of
    the bounding box test with a gap around it; and where the margin
    depends on the size of the numbers, the size is a hypothesis:
    degrees, pixels, the values of a Float32Array, the initial
    configuration.

    State.  The module keeps one mutable object, [CONFIG]; [process] also
    reads the clock and writes to the console.  The five functions of the
    public interface are computations in a state monad [JS] over a [World]
    made of the three.

    Objects.  [typeParams] is a finite map of its own properties, looked up
    the way a property read is: own properties first, then the names every
    object inherits.  The Float32Array is a list of fixed length updated by
    index.  A contour is a record whose late properties are optional.

    Libraries the source calls are parameters: [Mexp] is Math.exp on
    finite arguments, [isorings] is the marching-squares geometry of
    d3-contour, of which only the shape of the result matters here: one
    contour per threshold, in order, carrying the threshold as [value].

    Around the engine.  The development goes on to what feeds the engine
    and what consumes its result: the parser and the client of the Overpass
    module (overpass.js), the colour interpolation and the drawing of one
    contour (renderer.js), and the filters, counters and the bounding box
    test of the application (app.js).  Each comes with its own definitions,
    introduced where they start, and with the same numbers; [parseInt] and
    the cache key are parameters, the clock and the network are oracles. *)

From Stdlib Require Import QArith Qround Qabs ZArith Lia Lqa.
From stdpp Require Import base list gmap strings.

Local Open Scope Z_scope.

(** ** JavaScript numbers *)

Inductive num : Type :=
| Fin (q : Q)
| PInf
| NInf
| NaN.

Definition num_of_Z (z : Z) : num := Fin (inject_Z z).

(** Sign of a finite value against (unsigned) zero. *)
Definition Qsign (q : Q) : comparison := (q ?= 0)%Q.

(** [nlt a b] is JavaScript's [a < b]; any comparison with NaN is false. *)
Definition nlt (a b : num) : bool :=
  match a, b with
  | NaN, _ | _, NaN => false
  | Fin x, Fin y => negb (Qle_bool y x)
  | Fin _, PInf => true
  | NInf, Fin _ => true
  | NInf, PInf => true
  | _, _ => false
  end.

Definition nneg (a : num) : num :=
  match a with
  | Fin x => Fin (- x)
  | PInf => NInf
  | NInf => PInf
  | NaN => NaN
  end.

Definition nadd (a b : num) : num :=
  match a, b with
  | NaN, _ | _, NaN => NaN
  | Fin x, Fin y => Fin (x + y)
  | PInf, NInf | NInf, PInf => NaN
  | PInf, _ | _, PInf => PInf
  | NInf, _ | _, NInf => NInf
  end.

Definition nsub (a b : num) : num := nadd a (nneg b).

(** An infinity of sign [pos] scaled by a finite factor [x]. *)
Definition inf_times (pos : bool) (x : Q) : num :=
  match Qsign x with
  | Eq => NaN
  | Gt => if pos then PInf else NInf
  | Lt => if pos then NInf else PInf
  end.

Definition nmul (a b : num) : num :=
  match a, b with
  | NaN, _ | _, NaN => NaN
  | Fin x, Fin y => Fin (x * y)
  | PInf, Fin y => inf_times true y
  | NInf, Fin y => inf_times false y
  | Fin x, PInf => inf_times true x
  | Fin x, NInf => inf_times false x
  | PInf, PInf | NInf, NInf => PInf
  | PInf, NInf | NInf, PInf => NInf
  end.

(** Division.  A zero divisor is +0 (the only zero the engine divides by is
    [(b - a) / n] with [a = b]): a positive dividend gives +Infinity, a
    negative one -Infinity, and 0/0 is NaN. *)
Definition ndiv (a b : num) : num :=
  match a, b with
  | NaN, _ | _, NaN => NaN
  | Fin x, Fin y =>
      match Qsign y with
      | Eq => match Qsign x with Eq => NaN | Gt => PInf | Lt => NInf end
      | _ => Fin (x / y)
      end
  | Fin _, PInf | Fin _, NInf => Fin 0
  | PInf, Fin y => match Qsign y with Lt => NInf | _ => PInf end
  | NInf, Fin y => match Qsign y with Lt => PInf | _ => NInf end
  | _, _ => NaN
  end.

Definition Math_floor (a : num) : num :=
  match a with Fin x => num_of_Z (Qfloor x) | _ => a end.

Definition Math_ceil (a : num) : num :=
  match a with Fin x => num_of_Z (Qceiling x) | _ => a end.

(** Math.max and Math.min return NaN as soon as one argument is NaN. *)
Definition Math_max (a b : num) : num :=
  match a, b with
  | NaN, _ | _, NaN => NaN
  | _, _ => if nlt a b then b else a
  end.

Definition Math_min (a b : num) : num :=
  match a, b with
  | NaN, _ | _, NaN => NaN
  | _, _ => if nlt b a then b else a
  end.

(** Equality of numbers up to the representation of a rational. *)
Definition num_eq (a b : num) : Prop :=
  match a, b with
  | Fin x, Fin y => (x == y)%Q
  | PInf, PInf | NInf, NInf | NaN, NaN => True
  | _, _ => False
  end.

Definition is_finite (a : num) : Prop :=
  match a with Fin _ => True | _ => False end.

(** [lo; lo+1; ...; hi], empty when [hi < lo]. *)
Definition zrange (lo hi : Z) : list Z :=
  map (fun k => lo + Z.of_nat k) (seq 0 (Z.to_nat (hi - lo + 1))).

(** The values taken by the counter of [for (let i = lo; i <= hi; i++)].
    With NaN or an infinite bound on the wrong side the test [i <= hi]
    fails at once.  [lo] is integer-valued wherever the engine starts a
    loop (it is [Math.max(0, Math.floor(..))] or the literal 1), so its
    floor is itself; a finite [lo] under [hi = +Infinity] would not
    terminate and does not arise, as [hi] is a [Math.min] against a finite
    number or a finite level count. *)
Definition for_range (lo hi : num) : list Z :=
  match lo, hi with
  | Fin a, Fin b => zrange (Qfloor a) (Qfloor b)
  | _, _ => []
  end.

(** ** Data model *)

(** A type profile: [{ sigma, amplitude }]. *)
Record Profile : Type := mkProfile { sigma : num; amplitude : num }.

(** The module-level [CONFIG] object. *)
Record Config : Type := mkConfig {
  gridWidth : Z;
  gridHeight : Z;
  contourLevels : Z;
  typeParams : gmap string Profile;
  defaultParams : Profile;
  cutoffMultiplier : num
}.

Definition Qmil (n : Z) : num := Fin (n # 1000).

(** The initial value of [CONFIG]. *)
Definition CONFIG0 : Config := {|
  gridWidth := 150;
  gridHeight := 150;
  contourLevels := 12;
  typeParams :=
    <[ "hospital"%string := mkProfile (Qmil 6) (Fin 1) ]>
    (<[ "clinic"%string := mkProfile (Qmil 3) (Fin (1 # 2)) ]>
    (<[ "library"%string := mkProfile (Qmil 5) (Fin (7 # 10)) ]>
    (<[ "social"%string := mkProfile (Qmil 4) (Fin (8 # 10)) ]>
    (<[ "pharmacy"%string := mkProfile (Qmil 2) (Fin (3 # 10)) ]>
    (<[ "community"%string := mkProfile (Qmil 3) (Fin (1 # 2)) ]>
    (<[ "kindergarten"%string := mkProfile (Qmil 2) (Fin (4 # 10)) ]>
     ∅))))));
  defaultParams := mkProfile (Qmil 3) (Fin (1 # 2));
  cutoffMultiplier := Fin 3
|}.

(** The property names an object literal inherits from Object.prototype:
    reading one of them from [typeParams] yields a function (or
    Object.prototype itself), which is truthy and has neither [sigma] nor
    [amplitude]. *)
Definition Object_prototype_names : list string :=
  [ "constructor"; "__proto__"; "hasOwnProperty"; "isPrototypeOf";
    "propertyIsEnumerable"; "toLocaleString"; "toString"; "valueOf";
    "__defineGetter__"; "__defineSetter__"; "__lookupGetter__";
    "__lookupSetter__" ]%string.

(** The [{ sigma, amplitude }] read from a value that has neither property:
    both are undefined, which every arithmetic operation turns into NaN. *)
Definition no_profile : Profile := mkProfile NaN NaN.

(** A resource point; only [type], [lat] and [lng] are read by the engine. *)
Record Resource : Type := mkResource {
  r_id : Z;
  r_type : string;
  lat : num;
  lng : num
}.

(** Geographic bounds [{south, west, north, east}]. *)
Record Bounds : Type := mkBounds { south : num; west : num; north : num; east : num }.

(** Pixel bounds [{left, top, width, height}]. *)
Record PixelBounds : Type := mkPixelBounds {
  left : num; top : num; width : num; height : num
}.

Definition Vertex : Type := (num * num)%type.
Definition Ring : Type := list Vertex.
Definition Polygon : Type := list Ring.
Definition MultiPolygon : Type := list Polygon.

(** A contour object.  d3 creates it with [value] and [coordinates];
    [generateContours] adds [normalizedValue], [transformToPixels] adds
    [pixelCoordinates]; a property not yet set is [None]. *)
Record Contour : Type := mkContour {
  value : num;
  coordinates : MultiPolygon;
  normalizedValue : option num;
  pixelCoordinates : option MultiPolygon
}.

(** The [options] argument of [generateContours]; a missing property is
    [None]. *)
Record Options : Type := mkOptions {
  o_width : option Z;
  o_height : option Z;
  o_levels : option Z
}.

Definition noOptions : Options := mkOptions None None None.

(** [o || d] on an optional integer: undefined and 0 are falsy. *)
Definition or_default (o : option Z) (d : Z) : Z :=
  match o with
  | Some v => if v =? 0 then d else v
  | None => d
  end.

(** ** The world of the module: configuration, clock and console *)

Inductive LogMsg : Type :=
| LogProcessing (resourceCount : nat)
| LogNoEnergy
| LogGenerated (contourCount : nat)
| LogCompleted (elapsed : num).

(** [CONFIG] is the module's mutable singleton; [timer] holds the readings
    [performance.now()] will deliver, [reads] counts those already taken;
    [console] is what was logged so far. *)
Record World : Type := mkWorld {
  CONFIG : Config;
  timer : nat -> num;
  reads : nat;
  console : list LogMsg
}.

Definition JS (A : Type) : Type := World -> A * World.

Definition ret {A} (a : A) : JS A := fun w => (a, w).

Definition bind {A B} (m : JS A) (k : A -> JS B) : JS B :=
  fun w => let (a, w') := m w in k a w'.

Notation "'do' x <- m ; k" := (bind m (fun x => k))
  (at level 10, x name, m at level 100, k at level 200).
Notation "'exec' m ; k" := (bind m (fun _ => k))
  (at level 10, m at level 100, k at level 200).

Definition getConfig : JS Config := fun w => (CONFIG w, w).

Definition console_log (m : LogMsg) : JS unit :=
  fun w => (tt, mkWorld (CONFIG w) (timer w) (reads w) (console w ++ [m])).

Definition performance_now : JS num :=
  fun w => (timer w (reads w), mkWorld (CONFIG w) (timer w) (S (reads w)) (console w)).

(** [updateConfig(newConfig)] is [Object.assign(CONFIG, newConfig)]: every
    property present in [newConfig] replaces the one of [CONFIG]. *)
Record PartialConfig : Type := mkPartialConfig {
  p_gridWidth : option Z;
  p_gridHeight : option Z;
  p_contourLevels : option Z;
  p_typeParams : option (gmap string Profile);
  p_defaultParams : option Profile;
  p_cutoffMultiplier : option num
}.

Definition assign (c : Config) (p : PartialConfig) : Config := {|
  gridWidth := default (gridWidth c) (p_gridWidth p);
  gridHeight := default (gridHeight c) (p_gridHeight p);
  contourLevels := default (contourLevels c) (p_contourLevels p);
  typeParams := default (typeParams c) (p_typeParams p);
  defaultParams := default (defaultParams c) (p_defaultParams p);
  cutoffMultiplier := default (cutoffMultiplier c) (p_cutoffMultiplier p)
|}.

Definition updateConfig (newConfig : PartialConfig) : JS unit :=
  fun w => (tt, mkWorld (assign (CONFIG w) newConfig) (timer w) (reads w) (console w)).

Definition run {A} (m : JS A) (w : World) : A := fst (m w).
Definition after {A} (m : JS A) (w : World) : World := snd (m w).

(** ** The engine *)

Section Engine.

(** Math.exp on a finite argument. *)
Variable Mexp : Q -> Q.

(** The geometry d3-contour computes for one threshold of a
    [width] x [height] grid (marching squares). *)
Variable isorings : Z -> Z -> list num -> num -> MultiPolygon.

(** Math.exp: exp(-Infinity) is 0, exp(+Infinity) is +Infinity, exp(NaN)
    is NaN. *)
Definition Math_exp (a : num) : num :=
  match a with
  | Fin x => Fin (Mexp x)
  | PInf => PInf
  | NInf => Fin 0
  | NaN => NaN
  end.

(** [CONFIG.typeParams[resource.type] || CONFIG.defaultParams]: an own
    property of [typeParams] first, then a property inherited from
    Object.prototype, and the default when the read yields undefined. *)
Definition paramsOf (cfg : Config) (resource : Resource) : Profile :=
  match typeParams cfg !! r_type resource with
  | Some params => params
  | None =>
      if decide (r_type resource ∈ Object_prototype_names) then no_profile
      else defaultParams cfg
  end.

Definition cellWidth (cfg : Config) (bounds : Bounds) : num :=
  ndiv (nsub (east bounds) (west bounds)) (num_of_Z (gridWidth cfg)).

Definition cellHeight (cfg : Config) (bounds : Bounds) : num :=
  ndiv (nsub (north bounds) (south bounds)) (num_of_Z (gridHeight cfg)).

(** [cutoffMultiplier * sigma] *)
Definition cutoffOf (cfg : Config) (resource : Resource) : num :=
  nmul (cutoffMultiplier cfg) (sigma (paramsOf cfg resource)).

(** The grid cell range a resource affects. *)
Definition minX (cfg : Config) (bounds : Bounds) (resource : Resource) : num :=
  Math_max (Fin 0)
    (Math_floor (ndiv (nsub (nsub (lng resource) (cutoffOf cfg resource)) (west bounds))
                      (cellWidth cfg bounds))).

Definition maxX (cfg : Config) (bounds : Bounds) (resource : Resource) : num :=
  Math_min (num_of_Z (gridWidth cfg - 1))
    (Math_ceil (ndiv (nsub (nadd (lng resource) (cutoffOf cfg resource)) (west bounds))
                     (cellWidth cfg bounds))).

Definition minY (cfg : Config) (bounds : Bounds) (resource : Resource) : num :=
  Math_max (Fin 0)
    (Math_floor (ndiv (nsub (nsub (lat resource) (cutoffOf cfg resource)) (south bounds))
                      (cellHeight cfg bounds))).

Definition maxY (cfg : Config) (bounds : Bounds) (resource : Resource) : num :=
  Math_min (num_of_Z (gridHeight cfg - 1))
    (Math_ceil (ndiv (nsub (nadd (lat resource) (cutoffOf cfg resource)) (south bounds))
                     (cellHeight cfg bounds))).

Definition half : num := Fin (1 # 2).

(** [dLat * dLat] for row [y]. *)
Definition dLatSqOf (cfg : Config) (bounds : Bounds) (resource : Resource) (y : Z) : num :=
  let cellLat := nadd (south bounds) (nmul (nadd (num_of_Z y) half) (cellHeight cfg bounds)) in
  let dLat := nsub cellLat (lat resource) in
  nmul dLat dLat.

(** [dLatSq + dLng * dLng] for the cell in column [x] of a row. *)
Definition distSqOf (cfg : Config) (bounds : Bounds) (resource : Resource)
    (dLatSq : num) (x : Z) : num :=
  let cellLng := nadd (west bounds) (nmul (nadd (num_of_Z x) half) (cellWidth cfg bounds)) in
  let dLng := nsub cellLng (lng resource) in
  nadd dLatSq (nmul dLng dLng).

(** [amplitude * Math.exp(-distSq / (2 * sigmaSq))] *)
Definition energyOf (cfg : Config) (resource : Resource) (distSq : num) : num :=
  let params := paramsOf cfg resource in
  let sigmaSq := nmul (sigma params) (sigma params) in
  nmul (amplitude params) (Math_exp (ndiv (nneg distSq) (nmul (Fin 2) sigmaSq))).

(** [field[idx] += energy] on a typed array: an index outside the array
    is ignored.  The sum is stored as it is, where the Float32Array keeps
    the nearest Float32. *)
Definition add_at (field : list num) (idx : Z) (energy : num) : list num :=
  if idx <? 0 then field
  else alter (fun v => nadd v energy) (Z.to_nat idx) field.

(** The body of the loop over resources: the two nested loops over the
    affected rows and columns. *)
Definition addResource (cfg : Config) (bounds : Bounds)
    (field : list num) (resource : Resource) : list num :=
  fold_left
    (fun field y =>
       let dLatSq := dLatSqOf cfg bounds resource y in
       fold_left
         (fun field x =>
            let distSq := distSqOf cfg bounds resource dLatSq x in
            add_at field (y * gridWidth cfg + x) (energyOf cfg resource distSq))
         (for_range (minX cfg bounds resource) (maxX cfg bounds resource))
         field)
    (for_range (minY cfg bounds resource) (maxY cfg bounds resource))
    field.

(** [new Float32Array(gridWidth * gridHeight)] *)
Definition newField (cfg : Config) : list num :=
  replicate (Z.to_nat (gridWidth cfg * gridHeight cfg)) (Fin 0).

Definition generateScalarField (resources : list Resource) (bounds : Bounds)
    : JS (list num) :=
  do cfg <- getConfig;
  ret (fold_left (addResource cfg bounds) resources (newField cfg)).

(** The scan for the field minimum and maximum. *)
Definition scanMinMax (field : list num) : num * num :=
  fold_left
    (fun mm val =>
       (if nlt val (fst mm) then val else fst mm,
        if nlt (snd mm) val then val else snd mm))
    field (PInf, NInf).

(** [min + step * i] for [i = 1 .. numLevels] *)
Definition thresholdsOf (min step : num) (numLevels : Z) : list num :=
  map (fun i => nadd min (nmul step (num_of_Z i)))
      (for_range (Fin 1) (num_of_Z numLevels)).

(** [d3.contours().size([width, height]).thresholds(thresholds)(field)]:
    one contour object per threshold, in the order of the thresholds.
    (d3 first sorts a copy of the array in ascending order; the array
    [thresholdsOf] builds is ascending already.)  For a threshold that is
    NaN, which takes an infinite cell in the field, d3 throws instead; a
    field of finite values gives no such threshold. *)
Definition d3_contours (width height : Z) (thresholds : list num)
    (field : list num) : list Contour :=
  map (fun t => mkContour t (isorings width height field t) None None) thresholds.

Definition setNormalized (min max : num) (contour : Contour) : Contour :=
  mkContour (value contour) (coordinates contour)
    (Some (ndiv (nsub (value contour) min) (nsub max min)))
    (pixelCoordinates contour).

Definition floor001 : num := Fin (1 # 100).

Definition generateContours (field : list num) (options : Options)
    : JS (list Contour) :=
  do cfg <- getConfig;
  let width := or_default (o_width options) (gridWidth cfg) in
  let height := or_default (o_height options) (gridHeight cfg) in
  let numLevels := or_default (o_levels options) (contourLevels cfg) in
  let min := fst (scanMinMax field) in
  let max := snd (scanMinMax field) in
  if nlt max floor001 then
    exec console_log LogNoEnergy;
    ret []
  else
    let step := ndiv (nsub max min) (num_of_Z (numLevels + 1)) in
    let thresholds := thresholdsOf min step numLevels in
    let contours := d3_contours width height thresholds field in
    let contours := map (setNormalized min max) contours in
    exec console_log (LogGenerated (length contours));
    ret contours.

Definition mapVertices (f : Vertex -> Vertex) (m : MultiPolygon) : MultiPolygon :=
  map (fun polygon => map (fun ring => map f ring) polygon) m.

Definition geoVertex (cfg : Config) (bounds : Bounds) (v : Vertex) : Vertex :=
  (nadd (west bounds) (nmul (fst v) (cellWidth cfg bounds)),
   nadd (south bounds) (nmul (snd v) (cellHeight cfg bounds))).

Definition transformToGeo (contours : list Contour) (bounds : Bounds)
    : JS (list Contour) :=
  do cfg <- getConfig;
  ret (map (fun contour =>
              mkContour (value contour)
                (mapVertices (geoVertex cfg bounds) (coordinates contour))
                (normalizedValue contour) (pixelCoordinates contour))
           contours).

Definition scaleX (cfg : Config) (pixelBounds : PixelBounds) : num :=
  ndiv (width pixelBounds) (num_of_Z (gridWidth cfg)).

Definition scaleY (cfg : Config) (pixelBounds : PixelBounds) : num :=
  ndiv (height pixelBounds) (num_of_Z (gridHeight cfg)).

Definition pixelVertex (cfg : Config) (pixelBounds : PixelBounds) (v : Vertex) : Vertex :=
  (nadd (left pixelBounds) (nmul (fst v) (scaleX cfg pixelBounds)),
   nadd (top pixelBounds)
        (nmul (nsub (num_of_Z (gridHeight cfg)) (snd v)) (scaleY cfg pixelBounds))).

Definition transformToPixels (contours : list Contour) (pixelBounds : PixelBounds)
    : JS (list Contour) :=
  do cfg <- getConfig;
  ret (map (fun contour =>
              mkContour (value contour) (coordinates contour)
                (normalizedValue contour)
                (Some (mapVertices (pixelVertex cfg pixelBounds) (coordinates contour))))
           contours).

Record Stats : Type := mkStats {
  resourceCount : nat;
  contourLevelCount : nat;
  processingTime : num
}.

Record Result : Type := mkResult {
  res_contours : list Contour;
  res_field : list num;
  res_stats : Stats
}.

Definition process (resources : list Resource) (bounds : Bounds)
    (pixelBounds : PixelBounds) : JS Result :=
  exec console_log (LogProcessing (length resources));
  do startTime <- performance_now;
  do field <- generateScalarField resources bounds;
  do contours <- generateContours field noOptions;
  do pixelContours <- transformToPixels contours pixelBounds;
  do endTime <- performance_now;
  let elapsed := nsub endTime startTime in
  exec console_log (LogCompleted elapsed);
  ret (mkResult pixelContours field
         (mkStats (length resources) (length contours) elapsed)).

End Engine.

(** ** What the claims speak about *)

(** [z] is one of the counter values of [for (i = lo; i <= hi; i++)]. *)
Definition in_range (lo hi : num) (z : Z) : bool :=
  match lo, hi with
  | Fin a, Fin b => (Qfloor a <=? z) && (z <=? Qfloor b)
  | _, _ => false
  end.

(** The cutoff cell range of [resource] covers the cell [(x, y)]. *)
Definition covers (cfg : Config) (bounds : Bounds) (resource : Resource) (x y : Z) : bool :=
  in_range (minX cfg bounds resource) (maxX cfg bounds resource) x
  && in_range (minY cfg bounds resource) (maxY cfg bounds resource) y.

(** The center of the cell [(x, y)]:
    [(west + (x + 0.5) * cellWidth, south + (y + 0.5) * cellHeight)]. *)
Definition centerLng (cfg : Config) (bounds : Bounds) (x : Z) : num :=
  nadd (west bounds) (nmul (nadd (num_of_Z x) half) (cellWidth cfg bounds)).

Definition centerLat (cfg : Config) (bounds : Bounds) (y : Z) : num :=
  nadd (south bounds) (nmul (nadd (num_of_Z y) half) (cellHeight cfg bounds)).

(** The square of the Euclidean distance, in degrees, between the center
    of the cell [(x, y)] and the resource. *)
Definition distanceSq (cfg : Config) (bounds : Bounds) (resource : Resource) (x y : Z) : num :=
  let dLat := nsub (centerLat cfg bounds y) (lat resource) in
  let dLng := nsub (centerLng cfg bounds x) (lng resource) in
  nadd (nmul dLat dLat) (nmul dLng dLng).

(** The Gaussian [amplitude * exp(-d^2 / (2 * sigma^2))] of a profile. *)
Definition gaussian (Mexp : Q -> Q) (p : Profile) (dSq : num) : num :=
  nmul (amplitude p)
       (Math_exp Mexp (ndiv (nneg dSq) (nmul (Fin 2) (nmul (sigma p) (sigma p))))).

(** The contribution of one resource to the cell [(x, y)]. *)
Definition contribution (Mexp : Q -> Q) (cfg : Config) (bounds : Bounds)
    (resource : Resource) (x y : Z) : num :=
  gaussian Mexp (paramsOf cfg resource) (distanceSq cfg bounds resource x y).

(** The sum of a list of numbers, taken in the order of the list. *)
Definition nsum (l : list num) : num := fold_left nadd l (Fin 0).

(** The superposition at the cell [(x, y)]: the sum of the contributions
    of the resources whose cutoff cell range covers the cell. *)
Definition fieldSum (Mexp : Q -> Q) (cfg : Config) (bounds : Bounds)
    (resources : list Resource) (x y : Z) : num :=
  nsum (map (fun r => contribution Mexp cfg bounds r x y)
            (filter (fun r => covers cfg bounds r x y = true) resources)).

(** The index of the cell [(x, y)] in the row-major grid. *)
Definition cellIndex (cfg : Config) (x y : Z) : nat :=
  Z.to_nat (y * gridWidth cfg + x).

(** A finite, non-negative number. *)
Definition nonneg (a : num) : Prop :=
  match a with Fin q => (0 <= q)%Q | _ => False end.

(** A non-negative number or +Infinity, as a square is. *)
Definition nonneg_or_inf (a : num) : Prop :=
  match a with Fin q => (0 <= q)%Q | PInf => True | _ => False end.

(** A profile with a finite positive spread and a finite non-negative
    peak. *)
Definition good_profile (p : Profile) : Prop :=
  (exists s, sigma p = Fin s /\ (0 < s)%Q) /\
  (exists a, amplitude p = Fin a /\ (0 <= a)%Q).

(** A configuration all of whose profiles are good and whose cutoff
    multiplier is finite and non-negative. *)
Definition good_config (cfg : Config) : Prop :=
  (forall t p, typeParams cfg !! t = Some p -> good_profile p) /\
  good_profile (defaultParams cfg) /\
  (exists m, cutoffMultiplier cfg = Fin m /\ (0 <= m)%Q).

(** A finite number of degrees: at most a full turn in magnitude. *)
Definition degrees (a : num) : Prop :=
  match a with Fin q => (- (360) <= q <= 360)%Q | _ => False end.

(** A window whose four sides are numbers of degrees. *)
Definition geographic (bounds : Bounds) : Prop :=
  degrees (south bounds) /\ degrees (west bounds) /\
  degrees (north bounds) /\ degrees (east bounds).

(** The smallest cell side the statements on distances are made for:
    10^-9 degree, a tenth of a millimetre on the ground.  Over such cells
    and numbers of degrees the quotients [generateScalarField] floors and
    ceils are off their exact values by far less than half a cell. *)
Definition smallestCell : Q := 1 # 1000000000.

(** A finite number of pixels: at most a million in magnitude. *)
Definition onScreen (a : num) : Prop :=
  match a with Fin q => (- (1000000) <= q <= 1000000)%Q | _ => False end.

(** A raster whose position and size are numbers of pixels. *)
Definition raster (pixelBounds : PixelBounds) : Prop :=
  onScreen (left pixelBounds) /\ onScreen (top pixelBounds) /\
  onScreen (width pixelBounds) /\ onScreen (height pixelBounds).

(** A number a Float32Array cell holds when it is neither NaN nor
    infinite: a finite value below 2^128 in magnitude.  Differences and
    sums of two such values are far from the overflow of a double. *)
Definition float32_finite (a : num) : Prop :=
  match a with
  | Fin q => (- inject_Z (2 ^ 128) < q < inject_Z (2 ^ 128))%Q
  | _ => False
  end.

(** The [k]-th of the [n] interior boundaries of the split of
    [[mn, mx]] into [n + 1] equal steps: [mn + (mx - mn) / (n + 1) * k]. *)
Definition threshold (mn mx : Q) (n k : Z) : Q :=
  (mn + (mx - mn) / inject_Z (n + 1) * inject_Z k)%Q.

(** The numbers of rings per polygon and of vertices per ring. *)
Definition shape (m : MultiPolygon) : list (list nat) :=
  map (fun polygon => map (fun ring => length ring) polygon) m.

(** The vertex [l] of the ring [k] of the polygon [j]. *)
Definition vertexAt (m : MultiPolygon) (j k l : nat) : option Vertex :=
  match m !! j with
  | Some polygon =>
      match polygon !! k with
      | Some ring => ring !! l
      | None => None
      end
  | None => None
  end.

(** The same vertex of the contour [i], read from [coordinates] and from
    [pixelCoordinates]. *)
Definition gridAt (contours : list Contour) (i j k l : nat) : option Vertex :=
  match contours !! i with
  | Some contour => vertexAt (coordinates contour) j k l
  | None => None
  end.

Definition pixelAt (contours : list Contour) (i j k l : nat) : option Vertex :=
  match contours !! i with
  | Some contour =>
      match pixelCoordinates contour with
      | Some m => vertexAt m j k l
      | None => None
      end
  | None => None
  end.

(** A raster of infinite height. *)
Definition endlessScreen : PixelBounds := mkPixelBounds (Fin 0) (Fin 0) (Fin 800) PInf.

(** One contour made of the segment from (3, 10) to (3, 20). *)
Definition oneSegment : list Contour :=
  [mkContour (Fin 1) [[[(Fin 3, Fin 10); (Fin 3, Fin 20)]]] None None].

(** ** Concrete instances *)

(** A rational stand-in for Math.exp: the Pade approximant
    [1 / (1 - q + q^2/2)] for [q <= 0], the Taylor polynomial
    [1 + q + q^2/2] for [q > 0]. *)
Definition exp_pade (q : Q) : Q :=
  if Qle_bool q 0 then (1 / (1 - q + q * q / 2))%Q else (1 + q + q * q / 2)%Q.

(** A contour generator that finds no ring. *)
Definition noRings : Z -> Z -> list num -> num -> MultiPolygon := fun _ _ _ _ => [].

(** A contour generator that returns one square ring per threshold. *)
Definition squareRing : Z -> Z -> list num -> num -> MultiPolygon :=
  fun _ _ _ _ =>
    [[[(Fin 1, Fin 1); (Fin 2, Fin 1); (Fin 2, Fin 2); (Fin 1, Fin 2); (Fin 1, Fin 1)]]].

(** A world with the initial configuration and a clock that ticks once per
    reading. *)
Definition world0 : World := mkWorld CONFIG0 (fun n => num_of_Z (Z.of_nat n)) 0 [].

(** The same configuration under another clock and a non-empty console. *)
Definition world1 : World :=
  mkWorld CONFIG0 (fun n => num_of_Z (7 * Z.of_nat n + 3)) 5 [LogNoEnergy].

(** The window [0, 1.5] x [0, 1.5]: cells of 0.01 degree. *)
Definition window15 : Bounds := mkBounds (Fin 0) (Fin 0) (Fin (15 # 10)) (Fin (15 # 10)).

(** The same window with west and east exchanged: cells of -0.01 degree
    in longitude. *)
Definition windowInverted : Bounds :=
  mkBounds (Fin 0) (Fin (15 # 10)) (Fin (15 # 10)) (Fin 0).

(** A window reduced to the point (1, 1). *)
Definition windowPoint : Bounds := mkBounds (Fin 1) (Fin 1) (Fin 1) (Fin 1).

(** A hospital at the center of the cell (75, 75) of [window15]. *)
Definition hospital75 : Resource :=
  mkResource 1 "hospital" (Fin (755 # 1000)) (Fin (755 # 1000)).

(** A hospital at the center of the cell (75, 75) of [windowInverted]. *)
Definition hospitalInv : Resource :=
  mkResource 1 "hospital" (Fin (755 # 1000)) (Fin (745 # 1000)).

(** A hospital at the point of [windowPoint]. *)
Definition hospitalAt1 : Resource := mkResource 1 "hospital" (Fin 1) (Fin 1).

(** A clinic of [window15], and a resource of an unknown type. *)
Definition clinic20 : Resource :=
  mkResource 2 "clinic" (Fin (205 # 1000)) (Fin (205 # 1000)).
Definition unknown20 : Resource :=
  mkResource 3 "bakery" (Fin (21 # 100)) (Fin (20 # 100)).

Definition screen : PixelBounds := mkPixelBounds (Fin 0) (Fin 0) (Fin 800) (Fin 600).

(** A perfectly flat field of 0.5 on the 150 x 150 grid. *)
Definition flatHalf : list num := replicate (Z.to_nat 22500) (Fin (1 # 2)).

(** ** Further notions *)

(** [b] is the cell [a] after some energy was added: both finite, [b] not
    below [a]. *)
Definition raised (a b : num) : Prop :=
  exists x y, a = Fin x /\ b = Fin y /\ (x <= y)%Q.

(** [Object.assign({}, p, q)]: the properties of [q] over those of [p]. *)
Definition overlay (p q : PartialConfig) : PartialConfig := {|
  p_gridWidth := p_gridWidth q ∪ p_gridWidth p;
  p_gridHeight := p_gridHeight q ∪ p_gridHeight p;
  p_contourLevels := p_contourLevels q ∪ p_contourLevels p;
  p_typeParams := p_typeParams q ∪ p_typeParams p;
  p_defaultParams := p_defaultParams q ∪ p_defaultParams p;
  p_cutoffMultiplier := p_cutoffMultiplier q ∪ p_cutoffMultiplier p
|}.

(** An object without properties. *)
Definition emptyConfig : PartialConfig := mkPartialConfig None None None None None None.

(** A hospital far east of [window15]. *)
Definition hospitalFar : Resource :=
  mkResource 5 "hospital" (Fin (755 # 1000)) (Fin 2).

(** [Number.isNaN] *)
Definition isNaN (a : num) : bool :=
  match a with NaN => true | _ => false end.

(** [{ typeParams: { hospital: { sigma: 0.006, amplitude: 1.0 } } }] *)
Definition onlyHospital : PartialConfig :=
  mkPartialConfig None None None
    (Some (<[ "hospital"%string := mkProfile (Qmil 6) (Fin 1) ]> ∅)) None None.

(** * The Overpass parser (overpass.js)

    [parseElements] turns the [elements] array of an Overpass answer into
    the resource objects the engine is fed with.  An element is what
    JSON.parse delivers: its [id], [lat] and [lon] are arbitrary JSON
    values; [center], present for ways, is an object with [lat] and [lon];
    [tags] is a string-to-string object, as every OSM tag value is a
    string.  A string is the sequence of the bytes of its text; on ASCII
    text a byte is a character and a UTF-16 code unit, so that [length]
    and [substring] there count as JavaScript does, and it is for ASCII
    names that lengths are stated. *)

Inductive JsVal : Type :=
| JUndefined
| JNull
| JBool (b : bool)
| JNum (n : num)
| JStr (s : string)
| JObject.

(** ToBoolean *)
Definition truthy (v : JsVal) : bool :=
  match v with
  | JUndefined | JNull => false
  | JBool b => b
  | JNum (Fin q) => negb (Qeq_bool q 0)
  | JNum NaN => false
  | JNum _ => true
  | JStr s => negb (String.eqb s "")
  | JObject => true
  end.

(** [a || b] *)
Definition js_or (a b : JsVal) : JsVal := if truthy a then a else b.

(** [nle a b] is JavaScript's [a <= b]; [a >= b] is [nle b a]. *)
Definition nle (a b : num) : bool :=
  match a, b with
  | NaN, _ | _, NaN => false
  | Fin x, Fin y => Qle_bool x y
  | NInf, _ => true
  | _, PInf => true
  | _, _ => false
  end.

(** [Number.isFinite] *)
Definition isFinite (a : num) : bool :=
  match a with Fin _ => true | _ => false end.

(** [CONFIG.taiwanBounds] and [CONFIG.maxNameLength] of the Overpass module,
    which are never reassigned. *)
Definition minLat : num := Fin 21.
Definition maxLat : num := Fin (53 # 2).
Definition minLng : num := Fin 119.
Definition maxLng : num := Fin (245 # 2).
Definition maxNameLength : nat := 200.

Definition isValidCoordinate (lat lng : JsVal) : bool :=
  match lat, lng with
  | JNum a, JNum b =>
      if negb (isFinite a) || negb (isFinite b) then false
      else nle minLat a && nle a maxLat && nle minLng b && nle b maxLng
  | _, _ => false
  end.

Definition Tags : Type := gmap string string.

(** The value of the tag [k] when it is truthy: present and not empty. *)
Definition truthyTag (tags : Tags) (k : string) : option string :=
  match tags !! k with
  | Some s => if String.eqb s "" then None else Some s
  | None => None
  end.

(** [tags[k]] is truthy. *)
Definition tagSet (tags : Tags) (k : string) : bool :=
  match truthyTag tags k with Some _ => true | None => false end.

(** [tags.amenity === a] *)
Definition amenityIs (tags : Tags) (a : string) : bool :=
  bool_decide (tags !! "amenity"%string = Some a).

Definition getResourceType (tags : option Tags) : option string :=
  match tags with
  | None => None
  | Some tags =>
      if amenityIs tags "hospital" then Some "hospital"%string
      else if amenityIs tags "clinic" then Some "clinic"%string
      else if amenityIs tags "library" then Some "library"%string
      else if tagSet tags "social_facility" then Some "social"%string
      else if amenityIs tags "pharmacy" then Some "pharmacy"%string
      else if amenityIs tags "community_centre" then Some "community"%string
      else if amenityIs tags "kindergarten" then Some "kindergarten"%string
      else None
  end.

Definition formatAddress (tags : option Tags) : option string :=
  match tags with
  | None => None
  | Some tags =>
      match truthyTag tags "addr:full" with
      | Some full => Some full
      | None =>
          let parts :=
            omap (truthyTag tags)
              [ "addr:city"; "addr:district"; "addr:street"; "addr:housenumber" ]%string in
          if (0 <? length parts)%nat then Some (String.concat "" parts) else None
      end
  end.

(** [el.tags?.name || el.tags?.['name:zh'] || el.tags?.['name:en'] || null] *)
Definition nameOf (tags : option Tags) : option string :=
  match tags with
  | None => None
  | Some tags =>
      match truthyTag tags "name" with
      | Some s => Some s
      | None =>
          match truthyTag tags "name:zh" with
          | Some s => Some s
          | None => truthyTag tags "name:en"
          end
      end
  end.

(** A text of ASCII characters only: every byte is below 128. *)
Fixpoint isAsciiText (s : string) : bool :=
  match s with
  | EmptyString => true
  | String c rest => (Ascii.nat_of_ascii c <? 128)%nat && isAsciiText rest
  end.

(** [name && name.length > maxNameLength ? name.substring(0, maxNameLength)
    + '...' : name], on the bytes of the text: the characters of an ASCII
    name. *)
Definition truncateName (name : option string) : option string :=
  match name with
  | Some s =>
      if (maxNameLength <? String.length s)%nat
      then Some (String.append (String.substring 0 maxNameLength s) "...")
      else Some s
  | None => None
  end.

(** [x.toFixed(6)] read back as a number: the multiple of 10^-6 nearest to
    [x], the one of larger magnitude at a tie. *)
Definition toFixed6 (q : Q) : Q :=
  if Qle_bool 0 q
  then (inject_Z (Qfloor (q * 1000000 + (1 # 2))) / 1000000)%Q
  else (- (inject_Z (Qfloor (- q * 1000000 + (1 # 2))) / 1000000))%Q.

(** [parseFloat(x.toFixed(6))]; from 10^21 on [toFixed] prints the number
    as [toString] does, which reads back as [x]. *)
Definition limitPrecision (a : num) : num :=
  match a with
  | Fin q =>
      if Qle_bool (inject_Z (10 ^ 21)) (Qabs q) then Fin q else Fin (toFixed6 q)
  | _ => a
  end.

Record Element : Type := mkElement {
  el_id : JsVal;
  el_lat : JsVal;
  el_lon : JsVal;
  el_center : option (JsVal * JsVal);
  el_tags : option Tags
}.

(** The object [parseElements] builds for an element. *)
Record Facility : Type := mkFacility {
  f_id : num;
  f_type : string;
  f_lat : num;
  f_lng : num;
  f_name : option string;
  f_address : option string;
  f_tags : Tags
}.

(** [elements] is an array, whose entries are objects or not ([None]), or
    something else. *)
Inductive Elements : Type :=
| NotAnArray
| ElementArray (entries : list (option Element)).

Inductive OverpassLog : Type :=
| ErrorInvalidElements.

(** The number inside a value that passed [isValidCoordinate]. *)
Definition numberOf (v : JsVal) : num :=
  match v with JNum n => n | _ => NaN end.

(** [el.lat || (el.center && el.center.lat)] and the same for [lon] *)
Definition latOf (el : Element) : JsVal :=
  js_or (el_lat el) (match el_center el with Some c => fst c | None => JUndefined end).

Definition lonOf (el : Element) : JsVal :=
  js_or (el_lon el) (match el_center el with Some c => snd c | None => JUndefined end).

Section Parser.

(** [parseInt(v, 10)] *)
Variable parseInt : JsVal -> num.

(** The callback of [elements.map]. *)
Definition parseElement (entry : option Element) : option Facility :=
  match entry with
  | None => None
  | Some el =>
      let lat := latOf el in
      let lng := lonOf el in
      if negb (isValidCoordinate lat lng) then None
      else
        match getResourceType (el_tags el) with
        | None => None
        | Some type =>
            let id := parseInt (el_id el) in
            if negb (isFinite id) || nle id (Fin 0) then None
            else
              Some (mkFacility id type
                      (limitPrecision (numberOf lat)) (limitPrecision (numberOf lng))
                      (truncateName (nameOf (el_tags el)))
                      (formatAddress (el_tags el))
                      (default ∅ (el_tags el)))
        end
  end.

(** The facilities returned and what was written to [console.error]. *)
Definition parseElements (elements : Elements) : list Facility * list OverpassLog :=
  match elements with
  | NotAnArray => ([], [ErrorInvalidElements])
  | ElementArray entries => (omap parseElement entries, [])
  end.

End Parser.

(** The facility as the engine reads it: [type], [lat] and [lng]. *)
Definition resourceOf (f : Facility) : Resource :=
  mkResource (match f_id f with Fin q => Qfloor q | _ => 0 end)
             (f_type f) (f_lat f) (f_lng f).

(** The types [getResourceType] can return. *)
Definition resourceTypes : list string :=
  [ "hospital"; "clinic"; "library"; "social"; "pharmacy"; "community";
    "kindergarten" ]%string.

(** A kindergarten node, a hospital way with a center, and a pharmacy that
    is also tagged as a social facility. *)
Definition kindergartenNode : Element :=
  mkElement (JNum (Fin 4711)) (JNum (Fin (250330001 # 10000000)))
    (JNum (Fin (1215654321 # 10000000))) None
    (Some (<[ "amenity"%string := "kindergarten"%string ]>
           (<[ "name"%string := "Sunny"%string ]> ∅))).

Definition hospitalWay : Element :=
  mkElement (JNum (Fin 815)) JUndefined JUndefined
    (Some (JNum (Fin (2504 # 100)), JNum (Fin (12156 # 100))))
    (Some (<[ "amenity"%string := "hospital"%string ]> ∅)).

Definition socialPharmacy : Tags :=
  <[ "amenity"%string := "pharmacy"%string ]>
  (<[ "social_facility"%string := "outreach"%string ]> ∅).

(** An [elements] array with an entry that is no object. *)
Definition aFewElements : list (option Element) :=
  [ Some kindergartenNode; None; Some hospitalWay ].

(** A window over Taipei, a tenth of a degree wide and high. *)
Definition windowTaipei : Bounds :=
  mkBounds (Fin 25) (Fin (1215 # 10)) (Fin (251 # 10)) (Fin (1216 # 10)).

(** [parseInt(v, 10)] where [v] is an integer-valued number below 10^21,
    whose digits print and read back; the examples pass no other value, and
    every other value is sent to NaN here. *)
Definition parseIntOnIntegers (v : JsVal) : num :=
  match v with
  | JNum (Fin q) =>
      if Qeq_bool q (inject_Z (Qfloor q)) && negb (Qle_bool (inject_Z (10 ^ 21)) (Qabs q))
      then Fin q else NaN
  | _ => NaN
  end.

(** * The Overpass client (overpass.js): cache, rate limit and retries

    [fetchResources] is an async function; the model follows one call from
    start to end, which is how the application uses it (it starts no
    request while one is under way).  The module's three variables,
    [cache], [endpointIndex] and [lastRequestTime], are the state; the
    clock and the network are oracles: [dateNow k] is the [k]-th reading of
    [Date.now()] and [fetch k i] the outcome of the [k]-th call of [fetch],
    sent to the endpoint of index [i].  What the call logs, requests and
    sleeps is recorded in order.  A response is [ok] when its status is
    from 200 to 299, as the Fetch standard defines it. *)

Record CacheEntry : Type := mkCacheEntry { ce_data : list Facility; ce_timestamp : Z }.

(** What [response.json()] gives: a rejection, null (reading [data.elements]
    throws), or a value whose [elements] is falsy ([None]) or truthy. *)
Inductive Body : Type :=
| InvalidJson
| JsonNull
| JsonData (elements : option Elements).

(** The outcome of [fetch]: a rejection (network failure, or the abort at
    the timeout) or a response. *)
Inductive Raw : Type :=
| Rejected
| HttpResponse (status : Z) (retryAfter : option string) (body : Body).

Inductive Failure : Type :=
| FetchFailure
| HttpFailure (status : Z)
| JsonFailure
| TypeFailure
| FailedToFetch.

Inductive ClientEvent : Type :=
| LogCacheHit
| LogRateLimiting (waitTime : Z)
| LogFetching
| Request (endpoint : nat)
| WarnTooManyRequests (waitTime : num)
| WarnEndpointFailed (endpoint : nat)
| ParserError
| LogFetched (count : nat)
| WarnExpiredCache
| Sleep (ms : num).

Record Client : Type := mkClient {
  cache : gmap string CacheEntry;
  endpointIndex : nat;
  lastRequestTime : Z;
  clockReads : nat;
  requests : nat;
  events : list ClientEvent
}.

(** The module as loaded. *)
Definition client0 : Client := mkClient ∅ 0 0 0 0 [].

Definition endpointCount : nat := 2.
Definition retryDelay : Z := 2000.
Definition maxRetries : nat := 2.
Definition cacheExpiry : Z := 300000.
Definition minRequestInterval : Z := 1000.

Definition record (new : list ClientEvent) (c : Client) : Client :=
  mkClient (cache c) (endpointIndex c) (lastRequestTime c) (clockReads c) (requests c)
           (events c ++ new).

(** [response.ok] *)
Definition response_ok (status : Z) : bool := (200 <=? status) && (status <=? 299).

(** What an iteration of the retry loop ends with when nothing is thrown *)
Inductive Attempt : Type :=
| RateLimited (waitTime : num)
| NoElements
| GotElements (elements : Elements).

Section Client.

Variable parseInt : JsVal -> num.
Variable getCacheKey : string -> string.
Variable dateNow : nat -> Z.
Variable fetch : nat -> nat -> Raw.

(** [Date.now()] *)
Definition readClock (c : Client) : Z * Client :=
  (dateNow (clockReads c),
   mkClient (cache c) (endpointIndex c) (lastRequestTime c) (S (clockReads c))
            (requests c) (events c)).

(** [fetchWithTimeout]: the response, or the exception thrown *)
Definition fetchWithTimeout (call endpoint : nat) : Failure + Z * option string * Body :=
  match fetch call endpoint with
  | Rejected => inl FetchFailure
  | HttpResponse status retryAfter body =>
      if response_ok status then inr (status, retryAfter, body)
      else inl (HttpFailure status)
  end.

(** [retryAfter ? parseInt(retryAfter, 10) * 1000 : 5000] *)
Definition retryAfterWait (retryAfter : option string) : num :=
  match retryAfter with
  | Some s => if String.eqb s "" then Fin 5000 else nmul (parseInt (JStr s)) (Fin 1000)
  | None => Fin 5000
  end.

(** The [try] block up to the test of [data.elements] *)
Definition attempt (call endpoint : nat) : Failure + Attempt :=
  match fetchWithTimeout call endpoint with
  | inl failure => inl failure
  | inr (status, retryAfter, body) =>
      if status =? 429 then inr (RateLimited (retryAfterWait retryAfter))
      else
        match body with
        | InvalidJson => inl JsonFailure
        | JsonNull => inl TypeFailure
        | JsonData None => inr NoElements
        | JsonData (Some elements) => inr (GotElements elements)
        end
  end.

(** The loop [for (retry = 0; retry <= maxRetries; retry++)] with
    [remaining] iterations to go; it returns the resources when an
    iteration returns them, and the last exception caught. *)
Fixpoint retryLoop (remaining : nat) (cacheKey : string) (lastError : option Failure)
    (c : Client) : option (list Facility) * option Failure * Client :=
  match remaining with
  | O => (None, lastError, c)
  | S remaining' =>
      let endpoint := endpointIndex c in
      let result := attempt (requests c) endpoint in
      let c := mkClient (cache c) (endpointIndex c) (lastRequestTime c) (clockReads c)
                        (S (requests c)) (events c ++ [Request endpoint]) in
      match result with
      | inl failure =>
          let c := mkClient (cache c) ((endpoint + 1) mod endpointCount)
                            (lastRequestTime c) (clockReads c) (requests c)
                            (events c ++ [WarnEndpointFailed endpoint]) in
          let c := if (0 <? remaining')%nat
                   then record [Sleep (num_of_Z retryDelay)] c else c in
          retryLoop remaining' cacheKey (Some failure) c
      | inr (RateLimited waitTime) =>
          retryLoop remaining' cacheKey lastError
            (record [WarnTooManyRequests waitTime; Sleep waitTime] c)
      | inr NoElements => retryLoop remaining' cacheKey lastError c
      | inr (GotElements elements) =>
          let (resources, errors) := parseElements parseInt elements in
          let c := record (map (fun _ => ParserError) errors) c in
          let (timestamp, c) := readClock c in
          let c := mkClient (<[cacheKey := mkCacheEntry resources timestamp]> (cache c))
                            (endpointIndex c) (lastRequestTime c) (clockReads c)
                            (requests c) (events c ++ [LogFetched (length resources)]) in
          (Some resources, lastError, c)
      end
  end.

(** The resources returned or the exception thrown, and the client after
    the call *)
Definition fetchResources (bbox : string) (c : Client)
    : (Failure + list Facility) * Client :=
  let cacheKey := getCacheKey bbox in
  let cached := cache c !! cacheKey in
  let (valid, c) :=
    match cached with
    | Some entry =>
        let (now, c) := readClock c in (now - ce_timestamp entry <? cacheExpiry, c)
    | None => (false, c)
    end in
  match cached, valid with
  | Some entry, true => (inr (ce_data entry), record [LogCacheHit] c)
  | _, _ =>
      let (now, c) := readClock c in
      let timeSinceLastRequest := now - lastRequestTime c in
      let c :=
        if timeSinceLastRequest <? minRequestInterval
        then
          let waitTime := minRequestInterval - timeSinceLastRequest in
          record [LogRateLimiting waitTime; Sleep (num_of_Z waitTime)] c
        else c in
      let (now', c) := readClock c in
      let c := mkClient (cache c) (endpointIndex c) now' (clockReads c) (requests c)
                        (events c ++ [LogFetching]) in
      match retryLoop (S maxRetries) cacheKey None c with
      | (Some resources, _, c) => (inr resources, c)
      | (None, lastError, c) =>
          match cached with
          | Some entry => (inr (ce_data entry), record [WarnExpiredCache] c)
          | None => (inl (default FailedToFetch lastError), c)
          end
      end
  end.

End Client.

(** A server that answers 429 to every request, and one whose answers have
    no [elements]. *)
Definition alwaysTooMany : nat -> nat -> Raw :=
  fun _ _ => HttpResponse 429 (Some "7"%string) (JsonData None).

Definition neverElements : nat -> nat -> Raw :=
  fun _ _ => HttpResponse 200 None (JsonData None).

(** A server whose first endpoint fails and whose second one answers. *)
Definition secondEndpointWorks : nat -> nat -> Raw :=
  fun _ endpoint =>
    match endpoint with
    | O => Rejected
    | _ => HttpResponse 200 None (JsonData (Some (ElementArray aFewElements)))
    end.

(** A clock that advances one second per reading. *)
Definition secondsClock : nat -> Z := fun k => 1000000 + 1000 * Z.of_nat k.

Definition isRequest (e : ClientEvent) : bool :=
  match e with Request _ => true | _ => false end.

Definition isTooManyRequests (e : ClientEvent) : bool :=
  match e with WarnTooManyRequests _ => true | _ => false end.

Definition isSleep (e : ClientEvent) : bool :=
  match e with Sleep _ => true | _ => false end.

(** How many of the events satisfy [p]. *)
Definition countEvents (p : ClientEvent -> bool) (l : list ClientEvent) : nat :=
  length (List.filter p l).

(** * The renderer (renderer.js)

    [interpolateColor] and the drawing of one contour.  The 2D context is
    modelled by the list of the calls and assignments it receives, in
    order.  A contour property that is undefined enters arithmetic and
    comparisons as NaN. *)

(** [Math.round]: the integer nearest to [x], the larger one at a tie. *)
Definition Math_round (a : num) : num :=
  match a with Fin x => num_of_Z (Qfloor (x + (1 # 2))) | _ => a end.

Record Color : Type := mkColor { c_r : num; c_g : num; c_b : num; c_a : num }.

Record ColorStop : Type := mkColorStop { pos : num; color : Color }.

(** The part of the renderer's [CONFIG] that drawing reads. *)
Record RendererConfig : Type := mkRendererConfig {
  colorStops : list ColorStop;
  baseLineWidth : num;
  maxLineWidth : num;
  glowEnabled : bool;
  glowBlur : num;
  glowAlpha : num
}.

Definition RCONFIG0 : RendererConfig := {|
  colorStops :=
    [ mkColorStop (Fin 0) (mkColor (Fin 132) (Fin 204) (Fin 22) (Fin (3 # 10)));
      mkColorStop (Fin (3 # 10)) (mkColor (Fin 132) (Fin 204) (Fin 22) (Fin (5 # 10)));
      mkColorStop (Fin (5 # 10)) (mkColor (Fin 251) (Fin 191) (Fin 36) (Fin (6 # 10)));
      mkColorStop (Fin (7 # 10)) (mkColor (Fin 245) (Fin 158) (Fin 11) (Fin (7 # 10)));
      mkColorStop (Fin 1) (mkColor (Fin 239) (Fin 68) (Fin 68) (Fin (8 # 10))) ];
  baseLineWidth := Fin (3 # 2);
  maxLineWidth := Fin 3;
  glowEnabled := true;
  glowBlur := Fin 8;
  glowAlpha := Fin (3 # 10)
|}.

(** The loop of [interpolateColor]: the first pair of neighbours with
    [t >= stops[i].pos && t <= stops[i + 1].pos]. *)
Fixpoint findStops (t : num) (stops : list ColorStop) : option (ColorStop * ColorStop) :=
  match stops with
  | lower :: ((upper :: _) as rest) =>
      if nle (pos lower) t && nle t (pos upper) then Some (lower, upper)
      else findStops t rest
  | _ => None
  end.

(** [a + (b - a) * localT] *)
Definition mix (a b localT : num) : num := nadd a (nmul (nsub b a) localT).

(** [None]: [stops] is empty and reading [stops[0].pos] throws. *)
Definition interpolateColor (cfg : RendererConfig) (t : num) : option Color :=
  match colorStops cfg with
  | [] => None
  | first :: _ =>
      let (lower, upper) :=
        default (first, List.last (colorStops cfg) first) (findStops t (colorStops cfg)) in
      let range := nsub (pos upper) (pos lower) in
      let localT := if nlt (Fin 0) range then ndiv (nsub t (pos lower)) range else Fin 0 in
      Some (mkColor
              (Math_round (mix (c_r (color lower)) (c_r (color upper)) localT))
              (Math_round (mix (c_g (color lower)) (c_g (color upper)) localT))
              (Math_round (mix (c_b (color lower)) (c_b (color upper)) localT))
              (mix (c_a (color lower)) (c_a (color upper)) localT))
  end.

(** What the 2D context receives. *)
Inductive CanvasOp : Type :=
| Save
| Restore
| SetShadowColor (r g b alpha : num)
| SetShadowBlur (blur : num)
| SetStrokeStyle (r g b alpha : num)
| SetLineWidth (lineWidth : num)
| SetLineCapRound
| SetLineJoinRound
| BeginPath
| MoveTo (x y : num)
| LineTo (x y : num)
| Stroke.

(** The callback of [polygon.forEach]: a ring of fewer than two vertices is
    passed over. *)
Definition drawRing (ring : Ring) : list CanvasOp :=
  match ring with
  | first :: ((_ :: _) as rest) =>
      BeginPath :: MoveTo (fst first) (snd first)
        :: map (fun v => LineTo (fst v) (snd v)) rest ++ [Stroke]
  | _ => []
  end.

Definition drawContourPath (coordinates : MultiPolygon) (color : Color)
    (lineWidth alpha : num) : list CanvasOp :=
  [ SetStrokeStyle (c_r color) (c_g color) (c_b color) alpha;
    SetLineWidth lineWidth; SetLineCapRound; SetLineJoinRound ]
  ++ concat (map (fun polygon => concat (map drawRing polygon)) coordinates).

(** The glow layer of [renderContour]. *)
Definition glowLayer (cfg : RendererConfig) (pixelCoordinates : MultiPolygon)
    (color : Color) (normalizedValue lineWidth : num) : list CanvasOp :=
  [ Save;
    SetShadowColor (c_r color) (c_g color) (c_b color) (glowAlpha cfg);
    SetShadowBlur (nmul (glowBlur cfg) normalizedValue) ]
  ++ drawContourPath pixelCoordinates color (nmul lineWidth (Fin (3 # 2))) (Fin (1 # 2))
  ++ [ Restore ].

(** [None]: an exception, from [interpolateColor] or from
    [coordinates.forEach] on a contour without [pixelCoordinates]; what the
    context received before the exception is not recorded. *)
Definition renderContour (cfg : RendererConfig) (contour : Contour)
    : option (list CanvasOp) :=
  let normalizedValue := default NaN (normalizedValue contour) in
  match interpolateColor cfg normalizedValue with
  | None => None
  | Some color =>
      let lineWidth :=
        nadd (baseLineWidth cfg)
             (nmul (nsub (maxLineWidth cfg) (baseLineWidth cfg)) normalizedValue) in
      match pixelCoordinates contour with
      | None => None
      | Some pixelCoordinates =>
          let glow :=
            if glowEnabled cfg && nlt (Fin (3 # 10)) normalizedValue
            then glowLayer cfg pixelCoordinates color normalizedValue lineWidth
            else [] in
          Some (glow ++ drawContourPath pixelCoordinates color lineWidth (c_a color))
      end
  end.

Definition isBeginPath (op : CanvasOp) : bool :=
  match op with BeginPath => true | _ => false end.

Definition isMoveTo (op : CanvasOp) : bool :=
  match op with MoveTo _ _ => true | _ => false end.

Definition isLineTo (op : CanvasOp) : bool :=
  match op with LineTo _ _ => true | _ => false end.

Definition isStroke (op : CanvasOp) : bool :=
  match op with Stroke => true | _ => false end.

(** How many of the operations satisfy [p]. *)
Definition countOps (p : CanvasOp -> bool) (ops : list CanvasOp) : nat :=
  length (List.filter p ops).

(** The rings of at least two vertices, in drawing order. *)
Definition drawnRings (coordinates : MultiPolygon) : list Ring :=
  List.filter (fun ring => (2 <=? length ring)%nat) (concat coordinates).

(** A contour with one ring of three vertices, one of a single vertex and
    an empty one. *)
Definition threeRings : MultiPolygon :=
  [ [ [ (Fin 0, Fin 0); (Fin 4, Fin 0); (Fin 4, Fin 3) ]; [ (Fin 1, Fin 1) ] ]; [ [] ] ].

(** * The application (app.js)

    The type filters of the sidebar, the counters next to them, the density
    figure and the test that decides whether a moved map is fetched again.
    [state.filters] and [counts] are objects used as maps from type names;
    a bounding box string is taken as the four numbers [parseFloat] reads
    from it, a part that is missing or unreadable being NaN, and a null or
    empty string as [None]. *)

Definition Filters : Type := gmap string bool.

(** The initial [state.filters]: every type switched on. *)
Definition filters0 : Filters :=
  list_to_map (map (fun type => (type, true)) resourceTypes).

(** [state.filters[type]] as a condition: an own property counts as it is
    set, an inherited one is a function or an object, a missing one is
    undefined. *)
Definition filterOn (filters : Filters) (type : string) : bool :=
  match filters !! type with
  | Some checked => checked
  | None => bool_decide (type ∈ Object_prototype_names)
  end.

Definition applyFilters (filters : Filters) (resources : list Facility) : list Facility :=
  List.filter (fun r => filterOn filters (f_type r)) resources.

(** [state.filters[type] = checked] in [handleFilterChange]; assigning a
    boolean to [__proto__] changes nothing. *)
Definition setFilter (filters : Filters) (type : string) (checked : bool) : Filters :=
  if String.eqb type "__proto__" then filters else <[type := checked]> filters.

(** The [counts] object of [updateResourceCounts] before and after the
    loop over [state.resources]. *)
Definition counts0 : gmap string nat :=
  list_to_map (map (fun type => (type, 0%nat)) resourceTypes).

Definition updateResourceCounts (resources : list Facility) : gmap string nat :=
  fold_left
    (fun counts r =>
       match counts !! f_type r with
       | Some n => <[f_type r := S n]> counts
       | None => counts
       end)
    resources counts0.

(** The density figure of [updateStats] for [resources.length]. *)
Definition density (resourceCount : nat) : num :=
  if (0 <? resourceCount)%nat
  then Math_min (Fin 100)
         (Math_round (ndiv (num_of_Z (Z.of_nat resourceCount)) (Fin 10)))
  else Fin 0.

(** [Math.abs] *)
Definition Math_abs (a : num) : num :=
  match a with
  | Fin x => Fin (Qabs x)
  | NInf => PInf
  | _ => a
  end.

(** [a || 1] on a number: 0 and NaN are falsy. *)
Definition or_one (a : num) : num :=
  match a with
  | Fin x => if Qeq_bool x 0 then Fin 1 else a
  | NaN => Fin 1
  | _ => a
  end.

Record BBox : Type := mkBBox { b_south : num; b_west : num; b_north : num; b_east : num }.

Definition MIN_BBOX_MOVE_THRESHOLD : num := Fin (5 # 1000).
Definition BBOX_SIZE_CHANGE_THRESHOLD : num := Fin (15 # 100).

Definition isBboxSignificantlyDifferent (bbox1 bbox2 : option BBox) : bool :=
  match bbox1, bbox2 with
  | Some b1, Some b2 =>
      let centerLat1 := ndiv (nadd (b_south b1) (b_north b1)) (Fin 2) in
      let centerLng1 := ndiv (nadd (b_west b1) (b_east b1)) (Fin 2) in
      let centerLat2 := ndiv (nadd (b_south b2) (b_north b2)) (Fin 2) in
      let centerLng2 := ndiv (nadd (b_west b2) (b_east b2)) (Fin 2) in
      let latDiff := Math_abs (nsub centerLat1 centerLat2) in
      let lngDiff := Math_abs (nsub centerLng1 centerLng2) in
      let height1 := nsub (b_north b1) (b_south b1) in
      let width1 := nsub (b_east b1) (b_west b1) in
      let height2 := nsub (b_north b2) (b_south b2) in
      let width2 := nsub (b_east b2) (b_west b2) in
      let sizeChange :=
        Math_max (ndiv (Math_abs (nsub height1 height2)) (or_one height1))
                 (ndiv (Math_abs (nsub width1 width2)) (or_one width1)) in
      nlt MIN_BBOX_MOVE_THRESHOLD latDiff
      || nlt MIN_BBOX_MOVE_THRESHOLD lngDiff
      || nlt BBOX_SIZE_CHANGE_THRESHOLD sizeChange
  | _, _ => true
  end.

(** A box of one degree and the same box grown by 0.08 degrees on each
    side. *)
Definition unitBox : BBox := mkBBox (Fin 0) (Fin 0) (Fin 1) (Fin 1).
Definition grownBox : BBox :=
  mkBBox (Fin (- (8 # 100))) (Fin (- (8 # 100))) (Fin (108 # 100)) (Fin (108 # 100)).

(** * Proofs *)

(** ** The model on concrete inputs *)

(** The hospital at (0.755, 0.755) in the window of 0.01-degree cells:
    cutoff 0.018, columns floor(73.7) = 73 to ceil(77.3) = 78. *)
Example range_hospital75 :
  cutoffOf CONFIG0 hospital75 = Fin (3 * (6 # 1000)) /\
  minX CONFIG0 window15 hospital75 = Fin 73 /\
  maxX CONFIG0 window15 hospital75 = Fin 78 /\
  minY CONFIG0 window15 hospital75 = Fin 73 /\
  maxY CONFIG0 window15 hospital75 = Fin 78.
Proof. repeat split. Qed.

(** In the inverted window the same computation gives floor(77.3) = 77 and
    ceil(73.7) = 74: the loop over the columns does not start. *)
Example range_hospitalInv :
  minX CONFIG0 windowInverted hospitalInv = Fin 77 /\
  maxX CONFIG0 windowInverted hospitalInv = Fin 74 /\
  for_range (minX CONFIG0 windowInverted hospitalInv)
            (maxX CONFIG0 windowInverted hospitalInv) = [].
Proof. repeat split. Qed.

(** A type that names an inherited property has no profile: its cutoff is
    NaN and its loops do not start. *)
Example range_inherited_name :
  paramsOf CONFIG0 (mkResource 9 "toString" (Fin 1) (Fin 1)) = no_profile /\
  cutoffOf CONFIG0 (mkResource 9 "toString" (Fin 1) (Fin 1)) = NaN /\
  minX CONFIG0 window15 (mkResource 9 "toString" (Fin 1) (Fin 1)) = NaN.
Proof. repeat split. Qed.

(** What one run of the pipeline writes to the console. *)
Example console_of_process :
  console (after (process exp_pade noRings [hospital75] window15 screen) world0) =
  [LogProcessing 1; LogGenerated 12; LogCompleted (Fin (1 - 0))].
Proof. vm_compute. reflexivity. Qed.

(** ** Loops as folds over integer ranges *)

Lemma elem_of_zrange (z lo hi : Z) : z ∈ zrange lo hi <-> lo <= z <= hi.
Proof.
  unfold zrange. rewrite list_elem_of_fmap. split.
  - intros (k & -> & Hk). apply elem_of_seq in Hk. lia.
  - intros Hz. exists (Z.to_nat (z - lo)). split; [lia|].
    apply elem_of_seq. lia.
Qed.

Lemma NoDup_zrange (lo hi : Z) : NoDup (zrange lo hi).
Proof.
  unfold zrange. apply NoDup_fmap_2; [|apply NoDup_seq].
  intros a b Hab. lia.
Qed.

Lemma length_zrange (lo hi : Z) : length (zrange lo hi) = Z.to_nat (hi - lo + 1).
Proof. unfold zrange. now rewrite length_fmap, length_seq. Qed.

Lemma elem_of_for_range (lo hi : num) (z : Z) :
  z ∈ for_range lo hi <-> in_range lo hi z = true.
Proof.
  unfold for_range, in_range.
  destruct lo, hi; try (rewrite elem_of_nil; split; [tauto|discriminate]).
  rewrite elem_of_zrange, andb_true_iff, !Z.leb_le. tauto.
Qed.

Lemma NoDup_for_range (lo hi : num) : NoDup (for_range lo hi).
Proof.
  unfold for_range. destruct lo, hi; try apply NoDup_nil_2. apply NoDup_zrange.
Qed.

(** A fold whose step changes the accumulator for one element only. *)
Lemma fold_left_single {A} (F : A -> Z -> A) (l : list Z) (x0 : Z) (v0 : A) :
  NoDup l ->
  (forall x v, x ∈ l -> x <> x0 -> F v x = v) ->
  fold_left F l v0 = if decide (x0 ∈ l) then F v0 x0 else v0.
Proof.
  intros Hnd. revert v0. induction Hnd as [|x l Hx Hnd IH]; intros v0 HF.
  - simpl. destruct (decide (x0 ∈ [])) as [H|H]; [inversion H|reflexivity].
  - simpl. destruct (decide (x = x0)) as [->|Hne].
    + rewrite IH by (intros; apply HF; [now right|assumption]).
      destruct (decide (x0 ∈ l)) as [H|H]; [contradiction|].
      destruct (decide (x0 ∈ x0 :: l)) as [H'|H']; [reflexivity|].
      exfalso. apply H'. left.
    + rewrite (HF x v0) by (try left; assumption).
      rewrite IH by (intros; apply HF; [now right|assumption]).
      destruct (decide (x0 ∈ l)) as [H|H];
        destruct (decide (x0 ∈ x :: l)) as [H'|H']; try reflexivity.
      * exfalso. apply H'. now right.
      * exfalso. apply elem_of_cons in H'. destruct H'; congruence.
Qed.

(** ** One cell under [field[idx] += energy] *)

Lemma length_add_at (f : list num) (idx : Z) (e : num) :
  length (add_at f idx e) = length f.
Proof. unfold add_at. destruct (idx <? 0); [reflexivity|apply length_alter]. Qed.

Lemma lookup_add_at (f : list num) (idx k : Z) (e : num) :
  0 <= k ->
  add_at f idx e !! Z.to_nat k =
  (fun v => if idx =? k then nadd v e else v) <$> (f !! Z.to_nat k).
Proof.
  intros Hk. unfold add_at. destruct (Z.ltb_spec idx 0) as [Hneg|Hpos].
  - replace (idx =? k) with false by (symmetry; apply Z.eqb_neq; lia).
    now destruct (f !! Z.to_nat k).
  - destruct (Z.eqb_spec idx k) as [->|Hne].
    + apply list_lookup_alter_eq.
    + rewrite list_lookup_alter_ne by lia. now destruct (f !! Z.to_nat k).
Qed.

(** A loop of updates seen from one cell: the cell goes through the
    updates that hit it, in order. *)
Lemma lookup_fold_add_at (g : Z -> Z) (e : Z -> num) (l : list Z) (f : list num) (k : Z) :
  0 <= k ->
  fold_left (fun f x => add_at f (g x) (e x)) l f !! Z.to_nat k =
  (fun v0 => fold_left (fun v x => if g x =? k then nadd v (e x) else v) l v0)
    <$> (f !! Z.to_nat k).
Proof.
  intros Hk. revert f. induction l as [|x l IH]; intros f; simpl.
  - now destruct (f !! Z.to_nat k).
  - rewrite IH, lookup_add_at by assumption.
    now destruct (f !! Z.to_nat k).
Qed.

Lemma length_fold_add_at (g : Z -> Z) (e : Z -> num) (l : list Z) (f : list num) :
  length (fold_left (fun f x => add_at f (g x) (e x)) l f) = length f.
Proof.
  revert f. induction l as [|x l IH]; intros f; simpl; [reflexivity|].
  now rewrite IH, length_add_at.
Qed.

(** ** The clamped cell range stays inside the grid *)

Lemma Qfloor_inject_Z (z : Z) : Qfloor (inject_Z z) = z.
Proof. apply Qfloor_Z. Qed.

Lemma nlt_Fin (x y : Q) : nlt (Fin x) (Fin y) = true <-> (x < y)%Q.
Proof.
  simpl. rewrite negb_true_iff. split.
  - intros H. apply Qnot_le_lt. intros Hle. apply Qle_bool_iff in Hle. congruence.
  - intros H. destruct (Qle_bool y x) eqn:E; [|reflexivity].
    apply Qle_bool_iff in E. exfalso. now apply (Qlt_not_le x y).
Qed.

Lemma nlt_Fin_false (x y : Q) : nlt (Fin x) (Fin y) = false <-> (y <= x)%Q.
Proof.
  simpl. rewrite negb_false_iff. apply Qle_bool_iff.
Qed.

Lemma in_range_clamped (a b : num) (n z : Z) :
  in_range (Math_max (Fin 0) a) (Math_min (num_of_Z n) b) z = true -> 0 <= z <= n.
Proof.
  unfold in_range.
  destruct (Math_max (Fin 0) a) as [lo| | |] eqn:Hlo; try discriminate.
  destruct (Math_min (num_of_Z n) b) as [hi| | |] eqn:Hhi; try discriminate.
  rewrite andb_true_iff, !Z.leb_le. intros [Hl Hh].
  assert (0 <= Qfloor lo).
  { destruct a as [q| | |]; simpl in Hlo; try discriminate.
    - destruct (Qle_bool q 0) eqn:E; simpl in Hlo; inversion Hlo; subst; [reflexivity|].
      change 0 with (Qfloor 0). apply Qfloor_resp_le.
      apply Qlt_le_weak, (proj1 (nlt_Fin 0 lo)). simpl. now rewrite E.
    - inversion Hlo; subst. reflexivity. }
  assert (Qfloor hi <= n).
  { unfold num_of_Z in Hhi. destruct b as [q| | |]; simpl in Hhi; try discriminate.
    - destruct (Qle_bool (inject_Z n) q) eqn:E; simpl in Hhi; inversion Hhi; subst.
      + rewrite Qfloor_inject_Z. lia.
      + rewrite <- (Qfloor_inject_Z n). apply Qfloor_resp_le.
        apply Qlt_le_weak, (proj1 (nlt_Fin hi (inject_Z n))). simpl. now rewrite E.
    - inversion Hhi; subst. rewrite Qfloor_inject_Z. lia. }
  lia.
Qed.


(** The bounds the engine starts a loop with: the lower one is NaN,
    +Infinity or an integer, the upper one is never +Infinity. *)
Lemma loop_bounds_wellformed (a b : num) (n : Z) :
  (forall q, Math_max (Fin 0) (Math_floor a) = Fin q -> q = inject_Z (Qfloor q)) /\
  Math_max (Fin 0) (Math_floor a) <> NInf /\
  Math_min (num_of_Z n) (Math_ceil b) <> PInf.
Proof.
  split; [|split].
  - intros q. destruct a as [x| | |]; simpl; try discriminate.
    + destruct (Qle_bool (inject_Z (Qfloor x)) 0); simpl; intros H; injection H as <-;
        [reflexivity|now rewrite Qfloor_inject_Z].
    + intros H; injection H as <-. reflexivity.
  - destruct a as [x| | |]; simpl; try discriminate.
    destruct (Qle_bool (inject_Z (Qfloor x)) 0); discriminate.
  - unfold num_of_Z. destruct b as [x| | |]; simpl; try discriminate.
    destruct (Qle_bool (inject_Z n) (inject_Z (Qceiling x))); discriminate.
Qed.

(** ** What one resource does to one cell *)

Lemma lookup_nested_loops (W : Z) (E : Z -> Z -> num) (xs ys : list Z)
    (f : list num) (k : Z) :
  0 <= k ->
  fold_left (fun f y => fold_left (fun f x => add_at f (y * W + x) (E y x)) xs f) ys f
    !! Z.to_nat k =
  (fun v0 =>
     fold_left
       (fun v y => fold_left (fun v x => if y * W + x =? k then nadd v (E y x) else v) xs v)
       ys v0) <$> (f !! Z.to_nat k).
Proof.
  intros Hk. revert f. induction ys as [|y ys IH]; intros f; simpl.
  - now destruct (f !! Z.to_nat k).
  - rewrite IH.
    rewrite (lookup_fold_add_at (fun x => y * W + x) (E y) xs f k Hk).
    now destruct (f !! Z.to_nat k).
Qed.

Lemma nested_loops_one_cell (W : Z) (E : Z -> Z -> num) (xs ys : list Z)
    (x0 y0 : Z) (v0 : num) :
  NoDup xs -> NoDup ys ->
  (forall x, x ∈ xs -> 0 <= x < W) -> 0 <= x0 < W ->
  fold_left
    (fun v y =>
       fold_left (fun v x => if y * W + x =? y0 * W + x0 then nadd v (E y x) else v) xs v)
    ys v0 =
  if decide (y0 ∈ ys) then
    if decide (x0 ∈ xs) then nadd v0 (E y0 x0) else v0
  else v0.
Proof.
  intros Hxs Hys Hin Hx0.
  rewrite (fold_left_single _ ys y0 v0 Hys).
  - destruct (decide (y0 ∈ ys)); [|reflexivity].
    rewrite (fold_left_single _ xs x0 v0 Hxs).
    + destruct (decide (x0 ∈ xs)); [|reflexivity]. now rewrite Z.eqb_refl.
    + intros x v Hx Hne.
      replace (y0 * W + x =? y0 * W + x0) with false; [reflexivity|].
      symmetry. apply Z.eqb_neq. lia.
  - intros y v _ Hne.
    assert (Hnone : forall l, (forall x, x ∈ l -> 0 <= x < W) ->
              fold_left (fun v x => if y * W + x =? y0 * W + x0 then nadd v (E y x) else v) l v = v).
    { clear -Hne Hx0. intros l. revert v. induction l as [|x l IH]; intros v Hl; simpl.
      - reflexivity.
      - assert (0 <= x < W) by (apply Hl; left).
        replace (y * W + x =? y0 * W + x0) with false by (symmetry; apply Z.eqb_neq; nia).
        apply IH. intros; apply Hl. now right. }
    now apply Hnone.
Qed.

Section FieldGenerator.

Variable Mexp : Q -> Q.

Lemma length_addResource (cfg : Config) (bounds : Bounds) (f : list num) (r : Resource) :
  length (addResource Mexp cfg bounds f r) = length f.
Proof.
  unfold addResource.
  generalize (for_range (minY cfg bounds r) (maxY cfg bounds r)). intros ys.
  revert f. induction ys as [|y ys IH]; intros f; simpl; [reflexivity|].
  rewrite IH. apply length_fold_add_at.
Qed.

(** A resource adds its contribution to the cells of its range and leaves
    every other cell as it was. *)
Lemma lookup_addResource (cfg : Config) (bounds : Bounds) (f : list num)
    (r : Resource) (x y : Z) :
  0 <= x < gridWidth cfg -> 0 <= y ->
  addResource Mexp cfg bounds f r !! cellIndex cfg x y =
  (fun v => if covers cfg bounds r x y
            then nadd v (contribution Mexp cfg bounds r x y) else v)
    <$> (f !! cellIndex cfg x y).
Proof.
  intros Hx Hy. unfold addResource, cellIndex.
  rewrite (lookup_nested_loops (gridWidth cfg)
             (fun y x => energyOf Mexp cfg r (distSqOf cfg bounds r (dLatSqOf cfg bounds r y) x)))
    by nia.
  destruct (f !! Z.to_nat (y * gridWidth cfg + x)) as [v|]; [simpl|reflexivity].
  f_equal.
  rewrite nested_loops_one_cell; try apply NoDup_for_range; try assumption.
  - unfold covers.
    destruct (decide (y ∈ for_range (minY cfg bounds r) (maxY cfg bounds r))) as [Hy'|Hy'];
      destruct (decide (x ∈ for_range (minX cfg bounds r) (maxX cfg bounds r))) as [Hx'|Hx'];
      rewrite elem_of_for_range in Hx', Hy';
      try apply not_true_is_false in Hx'; try apply not_true_is_false in Hy';
      rewrite Hx', Hy'; reflexivity.
  - intros x' Hx'. apply elem_of_for_range, in_range_clamped in Hx'. lia.
Qed.

Lemma length_generateScalarField (resources : list Resource) (bounds : Bounds) (w : World) :
  length (run (generateScalarField Mexp resources bounds) w) =
  Z.to_nat (gridWidth (CONFIG w) * gridHeight (CONFIG w)).
Proof.
  unfold run, generateScalarField, bind, getConfig, ret; simpl.
  assert (H : forall f, length (fold_left (addResource Mexp (CONFIG w) bounds) resources f)
                        = length f).
  { induction resources as [|r rs IH]; intros f; simpl; [reflexivity|].
    now rewrite IH, length_addResource. }
  rewrite H. unfold newField. apply length_replicate.
Qed.

(** The resources seen from one cell. *)
Lemma lookup_fold_addResource (cfg : Config) (bounds : Bounds)
    (resources : list Resource) (f : list num) (x y : Z) :
  0 <= x < gridWidth cfg -> 0 <= y ->
  fold_left (addResource Mexp cfg bounds) resources f !! cellIndex cfg x y =
  (fun v0 =>
     fold_left (fun v r => if covers cfg bounds r x y
                           then nadd v (contribution Mexp cfg bounds r x y) else v)
               resources v0) <$> (f !! cellIndex cfg x y).
Proof.
  intros Hx Hy. revert f. induction resources as [|r rs IH]; intros f; simpl.
  - now destruct (f !! cellIndex cfg x y).
  - rewrite IH, lookup_addResource by assumption.
    now destruct (f !! cellIndex cfg x y).
Qed.

Lemma fieldSum_fold (cfg : Config) (bounds : Bounds) (resources : list Resource)
    (x y : Z) (v0 : num) :
  fold_left nadd
    (map (fun r => contribution Mexp cfg bounds r x y)
         (filter (fun r => covers cfg bounds r x y = true) resources)) v0 =
  fold_left (fun v r => if covers cfg bounds r x y
                        then nadd v (contribution Mexp cfg bounds r x y) else v)
            resources v0.
Proof.
  revert v0. induction resources as [|r rs IH]; intros v0; [reflexivity|].
  rewrite filter_cons. simpl.
  destruct (decide (covers cfg bounds r x y = true)) as [E|E].
  - rewrite E. simpl. apply IH.
  - apply not_true_is_false in E. rewrite E. apply IH.
Qed.

Lemma lookup_newField (cfg : Config) (x y : Z) :
  0 <= x < gridWidth cfg -> 0 <= y < gridHeight cfg ->
  newField cfg !! cellIndex cfg x y = Some (Fin 0).
Proof.
  intros Hx Hy. unfold newField, cellIndex. apply lookup_replicate_2. nia.
Qed.

(** The field is the superposition of the Gaussians of the covering
    resources. *)
Lemma generateScalarField_superposition (resources : list Resource) (bounds : Bounds)
    (w : World) (x y : Z) :
  0 <= x < gridWidth (CONFIG w) -> 0 <= y < gridHeight (CONFIG w) ->
  run (generateScalarField Mexp resources bounds) w !! cellIndex (CONFIG w) x y =
  Some (fieldSum Mexp (CONFIG w) bounds resources x y).
Proof.
  intros Hx Hy. unfold run, generateScalarField, bind, getConfig, ret; simpl.
  rewrite lookup_fold_addResource by lia.
  rewrite lookup_newField by assumption. simpl.
  unfold fieldSum, nsum. now rewrite fieldSum_fold.
Qed.

End FieldGenerator.

(** ** Signs, floors and ceilings *)

Lemma Qsign_Gt (q : Q) : (0 < q)%Q -> Qsign q = Gt.
Proof. intros H. unfold Qsign. now apply Qgt_alt. Qed.


Lemma Qsign_Eq (q : Q) : (q == 0)%Q -> Qsign q = Eq.
Proof. intros H. unfold Qsign. now apply Qeq_alt. Qed.


Lemma ndiv_Fin_pos (x y : Q) : (0 < y)%Q -> ndiv (Fin x) (Fin y) = Fin (x / y).
Proof. intros H. simpl. now rewrite Qsign_Gt. Qed.

Lemma nadd_Fin (x y : Q) : nadd (Fin x) (Fin y) = Fin (x + y).
Proof. reflexivity. Qed.

Lemma nneg_Fin (x : Q) : nneg (Fin x) = Fin (- x).
Proof. reflexivity. Qed.

Lemma nsub_Fin (x y : Q) : nsub (Fin x) (Fin y) = Fin (x - y).
Proof. reflexivity. Qed.

Lemma nmul_Fin (x y : Q) : nmul (Fin x) (Fin y) = Fin (x * y).
Proof. reflexivity. Qed.

Create Rewrite HintDb fin.
#[local] Hint Rewrite nadd_Fin nneg_Fin nsub_Fin nmul_Fin : fin.

Lemma Math_floor_Fin (q : Q) : Math_floor (Fin q) = Fin (inject_Z (Qfloor q)).
Proof. reflexivity. Qed.

Lemma Math_ceil_Fin (q : Q) : Math_ceil (Fin q) = Fin (inject_Z (Qceiling q)).
Proof. reflexivity. Qed.

Lemma Qfloor_below (q : Q) (z : Z) : (q < inject_Z (z + 1))%Q -> Qfloor q <= z.
Proof.
  intros H. pose proof (Qfloor_le q) as Hf.
  assert (Hlt : (inject_Z (Qfloor q) < inject_Z (z + 1))%Q) by (eapply Qle_lt_trans; eassumption).
  rewrite <- Zlt_Qlt in Hlt. lia.
Qed.

Lemma Qceiling_above (q : Q) (z : Z) : (inject_Z z <= q)%Q -> z <= Qceiling q.
Proof.
  intros H. pose proof (Qle_ceiling q) as Hc.
  assert (Hle : (inject_Z z <= inject_Z (Qceiling q))%Q) by (eapply Qle_trans; eassumption).
  now rewrite <- Zle_Qle in Hle.
Qed.

Lemma in_range_Fin (a b : Q) (z : Z) :
  Qfloor a <= z -> z <= Qfloor b -> in_range (Fin a) (Fin b) z = true.
Proof. intros Ha Hb. simpl. apply andb_true_iff. now rewrite !Z.leb_le. Qed.

Lemma Math_max_0_Fin (q : Q) :
  exists m, Math_max (Fin 0) (Fin q) = Fin m /\
            ((m = 0%Q /\ (q <= 0)%Q) \/ (m = q /\ (0 < q)%Q)).
Proof.
  simpl. destruct (Qle_bool q 0) eqn:E; simpl.
  - exists 0%Q. split; [reflexivity|]. left. split; [reflexivity|]. now apply Qle_bool_iff.
  - exists q. split; [reflexivity|]. right. split; [reflexivity|].
    apply (proj1 (nlt_Fin 0 q)). simpl. now rewrite E.
Qed.

Lemma Math_min_Fin (n q : Q) :
  exists m, Math_min (Fin n) (Fin q) = Fin m /\
            ((m = n /\ (n <= q)%Q) \/ (m = q /\ (q < n)%Q)).
Proof.
  simpl. destruct (Qle_bool n q) eqn:E; simpl.
  - exists n. split; [reflexivity|]. left. split; [reflexivity|]. now apply Qle_bool_iff.
  - exists q. split; [reflexivity|]. right. split; [reflexivity|].
    apply (proj1 (nlt_Fin q n)). simpl. now rewrite E.
Qed.

(** A point at the center of column (or row) [x] of a window with a
    positive cell size lies inside its own clamped cell range. *)
Lemma center_in_own_range (p c o cw : Q) (n x : Z) :
  (0 < cw)%Q -> (0 <= c)%Q -> 0 <= x <= n ->
  (p == o + (inject_Z x + (1 # 2)) * cw)%Q ->
  in_range
    (Math_max (Fin 0)
       (Math_floor (ndiv (nsub (nsub (Fin p) (Fin c)) (Fin o)) (Fin cw))))
    (Math_min (num_of_Z n)
       (Math_ceil (ndiv (nsub (nadd (Fin p) (Fin c)) (Fin o)) (Fin cw))))
    x = true.
Proof.
  intros Hcw Hc Hx Hp.
  unfold nsub; simpl nadd; simpl nneg. rewrite !ndiv_Fin_pos by assumption.
  rewrite Math_floor_Fin, Math_ceil_Fin. unfold num_of_Z.
  set (q1 := ((p + - c + - o) / cw)%Q).
  set (q2 := ((p + c + - o) / cw)%Q).
  assert (H1 : (q1 < inject_Z (x + 1))%Q).
  { unfold q1. apply Qlt_shift_div_r; [assumption|].
    rewrite inject_Z_plus. rewrite Hp.
    set (t := inject_Z x). change (inject_Z 1) with 1%Q.
    assert (E1 : ((t + 1) * cw == t * cw + cw)%Q) by ring.
    assert (E2 : (o + (t + (1 # 2)) * cw + - c + - o == t * cw + (1 # 2) * cw - c)%Q) by ring.
    rewrite E1, E2. generalize (t * cw)%Q. intros u. lra. }
  assert (H2 : (inject_Z x <= q2)%Q).
  { unfold q2. apply Qle_shift_div_l; [assumption|]. rewrite Hp.
    set (t := inject_Z x).
    assert (E2 : (o + (t + (1 # 2)) * cw + c + - o == t * cw + (1 # 2) * cw + c)%Q) by ring.
    rewrite E2. generalize (t * cw)%Q. intros u. lra. }
  destruct (Math_max_0_Fin (inject_Z (Qfloor q1))) as (lo & -> & Hlo).
  destruct (Math_min_Fin (inject_Z n) (inject_Z (Qceiling q2))) as (hi & -> & Hhi).
  apply in_range_Fin.
  - destruct Hlo as [[-> _]|[-> _]].
    + change (Qfloor 0) with 0. lia.
    + rewrite Qfloor_inject_Z. now apply Qfloor_below.
  - destruct Hhi as [[-> _]|[-> _]]; rewrite Qfloor_inject_Z.
    + lia.
    + now apply Qceiling_above.
Qed.

(** ** A single point at a cell center *)

Lemma paramsOf_cases (cfg : Config) (r : Resource) :
  good_config cfg -> good_profile (paramsOf cfg r) \/ paramsOf cfg r = no_profile.
Proof.
  intros (Htypes & Hdefault & _). unfold paramsOf.
  destruct (typeParams cfg !! r_type r) as [p|] eqn:E.
  - left. eapply Htypes; eassumption.
  - destruct (decide (r_type r ∈ Object_prototype_names)); [now right|now left].
Qed.

Lemma paramsOf_good (cfg : Config) (r : Resource) :
  good_config cfg -> r_type r ∉ Object_prototype_names -> good_profile (paramsOf cfg r).
Proof.
  intros (Htypes & Hdefault & _) Hname. unfold paramsOf.
  destruct (typeParams cfg !! r_type r) as [p|] eqn:E.
  - eapply Htypes; eassumption.
  - now rewrite decide_False.
Qed.

Lemma cutoffOf_good (cfg : Config) (r : Resource) :
  good_config cfg -> good_profile (paramsOf cfg r) ->
  exists c, cutoffOf cfg r = Fin c /\ (0 <= c)%Q.
Proof.
  intros (_ & _ & m & Hm & Hmpos) [(s & Hs & Hspos) _].
  unfold cutoffOf. rewrite Hm, Hs. simpl. eexists. split; [reflexivity|].
  apply Qmult_le_0_compat; [assumption|now apply Qlt_le_weak].
Qed.

(** Without a profile the cutoff is NaN and the cell range is empty. *)
Lemma covers_no_profile (cfg : Config) (bounds : Bounds) (r : Resource) (x y : Z) :
  paramsOf cfg r = no_profile -> covers cfg bounds r x y = false.
Proof.
  intros Hp. unfold covers, minX, cutoffOf. rewrite Hp. cbn [sigma no_profile].
  replace (nmul (cutoffMultiplier cfg) NaN) with NaN
    by (now destruct (cutoffMultiplier cfg)).
  replace (nsub (lng r) NaN) with NaN by (now destruct (lng r)).
  reflexivity.
Qed.

Lemma finite_cell_size (hi lo : num) (n : Z) (c : Q) :
  ndiv (nsub hi lo) (num_of_Z n) = Fin c ->
  exists h l, hi = Fin h /\ lo = Fin l.
Proof.
  destruct hi as [h| | |], lo as [l| | |]; simpl; try discriminate;
    try (destruct (Qsign (inject_Z n)); discriminate).
  intros _. now exists h, l.
Qed.

Section PeakValue.

Variable Mexp : Q -> Q.
Hypothesis Mexp_zero : (Mexp 0 == 1)%Q.
Hypothesis Mexp_proper : forall p q : Q, (p == q)%Q -> (Mexp p == Mexp q)%Q.

Lemma gaussian_at_zero (p : Profile) (d : Q) :
  good_profile p -> (d == 0)%Q -> num_eq (gaussian Mexp p (Fin d)) (amplitude p).
Proof.
  intros [(s & Hs & Hspos) (a & Ha & _)] Hd. unfold gaussian. rewrite Hs, Ha.
  assert (Hss : (0 < 2 * (s * s))%Q).
  { assert (0 < s * s)%Q by (apply Qmult_lt_0_compat; assumption). lra. }
  autorewrite with fin. rewrite ndiv_Fin_pos by assumption.
  simpl. rewrite (Mexp_proper _ 0%Q).
  - rewrite Mexp_zero. ring.
  - rewrite Hd. field. intros Hz. rewrite Hz in Hss. lra.
Qed.

(** For a window with positive cell sizes, a single point at the center
    of a cell gives that cell the amplitude of its profile. *)
Lemma generateScalarField_peak (r : Resource) (bounds : Bounds) (w : World)
    (x y : Z) (cw ch : Q) :
  good_config (CONFIG w) -> r_type r ∉ Object_prototype_names ->
  cellWidth (CONFIG w) bounds = Fin cw -> (0 < cw)%Q ->
  cellHeight (CONFIG w) bounds = Fin ch -> (0 < ch)%Q ->
  0 <= x < gridWidth (CONFIG w) -> 0 <= y < gridHeight (CONFIG w) ->
  num_eq (lng r) (centerLng (CONFIG w) bounds x) ->
  num_eq (lat r) (centerLat (CONFIG w) bounds y) ->
  exists v,
    run (generateScalarField Mexp [r] bounds) w !! cellIndex (CONFIG w) x y = Some v /\
    num_eq v (amplitude (paramsOf (CONFIG w) r)).
  Proof.
  intros Hcfg Hname Hcw Hcwpos Hch Hchpos Hx Hy Hlng Hlat.
  rewrite generateScalarField_superposition by assumption.
  eexists. split; [reflexivity|].
  set (cfg := CONFIG w) in *.
  pose proof (paramsOf_good cfg r Hcfg Hname) as Hgood.
  destruct (finite_cell_size _ _ _ _ Hcw) as (e0 & w0 & He & Hw).
  destruct (finite_cell_size _ _ _ _ Hch) as (n0 & s0 & Hn & Hs).
  destruct (cutoffOf_good cfg r Hcfg Hgood) as (c & Hc & Hcpos).
  unfold centerLng in Hlng. rewrite Hcw, Hw in Hlng.
  unfold centerLat in Hlat. rewrite Hch, Hs in Hlat.
  destruct (lng r) as [lo| | |] eqn:Elng; simpl in Hlng; try contradiction.
  destruct (lat r) as [la| | |] eqn:Elat; simpl in Hlat; try contradiction.
  assert (Hcov : covers cfg bounds r x y = true).
  { unfold covers, minX, maxX, minY, maxY.
    rewrite Hcw, Hch, Hc, Hw, Hs, Elng, Elat. apply andb_true_iff. split.
    - apply center_in_own_range; try assumption. lia.
    - apply center_in_own_range; try assumption. lia. }
  unfold fieldSum, nsum. rewrite filter_cons, decide_True by assumption.
  rewrite filter_nil. simpl fold_left.
  unfold contribution, distanceSq, centerLat, centerLng.
  rewrite Hcw, Hch, Hw, Hs, Elng, Elat.
  unfold half, num_of_Z. autorewrite with fin.
  match goal with
  | |- context [gaussian _ _ (Fin ?d)] =>
      pose proof (gaussian_at_zero (paramsOf cfg r) d Hgood) as Hg
  end.
  destruct Hgood as [_ (a & Ha & _)]. rewrite Ha in *.
  destruct (gaussian Mexp (paramsOf cfg r) _) as [g| | |]; simpl in Hg |- *.
  - rewrite Hg; [ring|]. rewrite Hlng, Hlat. ring.
  - apply Hg. rewrite Hlng, Hlat. ring.
  - apply Hg. rewrite Hlng, Hlat. ring.
  - apply Hg. rewrite Hlng, Hlat. ring.
Qed.

End PeakValue.

(** ** The initial configuration and the stand-in for Math.exp *)

Lemma not_elem_of_names (t : string) :
  forallb (fun name => negb (String.eqb t name)) Object_prototype_names = true ->
  t ∉ Object_prototype_names.
Proof.
  intros H Hin. rewrite forallb_forall in H.
  apply list_elem_of_In in Hin. specialize (H t Hin).
  now rewrite String.eqb_refl in H.
Qed.

Lemma good_config_CONFIG0 : good_config CONFIG0.
Proof.
  assert (Hp : forall (s a : Z) (d : positive), 0 < s -> 0 <= a ->
                 good_profile (mkProfile (Qmil s) (Fin (a # d)))).
  { intros s a d Hs Ha. split; eexists; (split; [reflexivity|]).
    - unfold Qlt; simpl. lia.
    - unfold Qle; simpl. lia. }
  split; [|split].
  - intros t p Ht. unfold CONFIG0 in Ht. cbn [typeParams] in Ht.
    repeat (apply lookup_insert_Some in Ht; destruct Ht as [[_ <-]|[_ Ht]];
            [apply Hp; lia|]).
    rewrite lookup_empty in Ht. discriminate.
  - apply Hp; lia.
  - exists 3%Q. split; [reflexivity|]. unfold Qle; simpl. lia.
Qed.

Lemma exp_pade_zero : (exp_pade 0 == 1)%Q.
Proof. reflexivity. Qed.

Lemma exp_pade_proper (p q : Q) : (p == q)%Q -> (exp_pade p == exp_pade q)%Q.
Proof.
  intros H. unfold exp_pade.
  assert (E : Qle_bool p 0 = Qle_bool q 0).
  { destruct (Qle_bool p 0) eqn:Ep, (Qle_bool q 0) eqn:Eq; try reflexivity.
    - apply Qle_bool_iff in Ep. rewrite H in Ep. apply Qle_bool_iff in Ep. congruence.
    - apply Qle_bool_iff in Eq. rewrite <- H in Eq. apply Qle_bool_iff in Eq. congruence. }
  rewrite E. destruct (Qle_bool q 0); now rewrite H.
Qed.

Lemma exp_pade_pos (q : Q) : (0 < exp_pade q)%Q.
Proof.
  unfold exp_pade. destruct (Qle_bool q 0) eqn:E.
  - apply Qle_bool_iff in E.
    assert (Hsq : (0 <= q * q)%Q) by nra.
    revert Hsq. generalize (q * q)%Q. intros u Hu.
    assert (Hu2 : (u / 2 == u * (1 # 2))%Q) by (field; discriminate).
    apply Qlt_shift_div_l; rewrite Hu2; lra.
  - assert (Hq : (0 < q)%Q) by (apply (proj1 (nlt_Fin 0 q)); simpl; now rewrite E).
    assert (Hsq : (0 < q * q)%Q) by (apply Qmult_lt_0_compat; assumption).
    revert Hsq. generalize (q * q)%Q. intros u Hu.
    assert (Hu2 : (u / 2 == u * (1 # 2))%Q) by (field; discriminate).
    rewrite Hu2. lra.
Qed.

(** ** C1: the field is a superposition of Gaussians *)

(** C1 (amended).  For every list of points and every geographic window,
    the value [generateScalarField] gives to a cell of the grid is the sum,
    over the points whose cutoff cell range covers the cell, of
    [amplitude * exp(-d^2 / (2 sigma^2))], with [d] the Euclidean distance
    in degrees between the center of the cell and the point and
    [(sigma, amplitude)] the profile of the type of the point, the default
    profile when the type names no property of [typeParams].  When the cell
    sizes are positive, a single point at the center of a cell gives that
    cell its amplitude. *)
Theorem generateScalarField_gaussian_sum (Mexp : Q -> Q)
    (Mexp_zero : (Mexp 0 == 1)%Q)
    (Mexp_proper : forall p q : Q, (p == q)%Q -> (Mexp p == Mexp q)%Q) :
  (forall (resources : list Resource) (bounds : Bounds) (w : World) (x y : Z),
      0 <= x < gridWidth (CONFIG w) -> 0 <= y < gridHeight (CONFIG w) ->
      run (generateScalarField Mexp resources bounds) w !! cellIndex (CONFIG w) x y =
      Some (fieldSum Mexp (CONFIG w) bounds resources x y)) /\
  (forall (cfg : Config) (r : Resource),
      r_type r ∉ Object_prototype_names ->
      paramsOf cfg r =
      match typeParams cfg !! r_type r with
      | Some profile => profile
      | None => defaultParams cfg
      end) /\
  (forall (r : Resource) (bounds : Bounds) (w : World) (x y : Z) (cw ch : Q),
      good_config (CONFIG w) -> r_type r ∉ Object_prototype_names ->
      cellWidth (CONFIG w) bounds = Fin cw -> (0 < cw)%Q ->
      cellHeight (CONFIG w) bounds = Fin ch -> (0 < ch)%Q ->
      0 <= x < gridWidth (CONFIG w) -> 0 <= y < gridHeight (CONFIG w) ->
      num_eq (lng r) (centerLng (CONFIG w) bounds x) ->
      num_eq (lat r) (centerLat (CONFIG w) bounds y) ->
      exists v,
        run (generateScalarField Mexp [r] bounds) w !! cellIndex (CONFIG w) x y = Some v /\
        num_eq v (amplitude (paramsOf (CONFIG w) r))).
Proof.
  split; [|split].
  - intros. now apply generateScalarField_superposition.
  - intros cfg r Hname. unfold paramsOf.
    destruct (typeParams cfg !! r_type r); [reflexivity|]. now rewrite decide_False.
  - intros. eapply generateScalarField_peak; eassumption.
Qed.

Lemma generateScalarField_gaussian_sum_witness :
  run (generateScalarField exp_pade [hospital75; clinic20; unknown20] window15) world0
    !! cellIndex CONFIG0 20 20 =
  Some (fieldSum exp_pade CONFIG0 window15 [hospital75; clinic20; unknown20] 20 20) /\
  paramsOf CONFIG0 unknown20 = defaultParams CONFIG0 /\
  exists v,
    run (generateScalarField exp_pade [hospital75] window15) world0
      !! cellIndex CONFIG0 75 75 = Some v /\
    num_eq v (Fin 1).
Proof.
  destruct (generateScalarField_gaussian_sum exp_pade exp_pade_zero exp_pade_proper)
    as (Hsum & Hparams & Hpeak).
  split; [|split].
  - apply (Hsum _ window15 world0 20 20); simpl; lia.
  - rewrite Hparams; [reflexivity|]. apply not_elem_of_names. reflexivity.
  - apply (Hpeak hospital75 window15 world0 75 75
             (((15 # 10) - 0) / 150)%Q (((15 # 10) - 0) / 150)%Q).
    + apply good_config_CONFIG0.
    + apply not_elem_of_names. reflexivity.
    + reflexivity.
    + reflexivity.
    + reflexivity.
    + reflexivity.
    + simpl; lia.
    + simpl; lia.
    + reflexivity.
    + reflexivity.
Defined.

(** C1 as stated fails on a window with non-zero but negative cell width:
    a hospital at the center of the cell (75, 75) of the inverted window
    leaves that cell at 0, while its amplitude is 1. *)
Lemma peak_lost_on_inverted_window :
  cellWidth CONFIG0 windowInverted = Fin (((0 - (15 # 10)) / 150)%Q) /\
  cellHeight CONFIG0 windowInverted = Fin ((((15 # 10) - 0) / 150)%Q) /\
  num_eq (lng hospitalInv) (centerLng CONFIG0 windowInverted 75) /\
  num_eq (lat hospitalInv) (centerLat CONFIG0 windowInverted 75) /\
  amplitude (paramsOf CONFIG0 hospitalInv) = Fin 1 /\
  run (generateScalarField exp_pade [hospitalInv] windowInverted) world0
    !! cellIndex CONFIG0 75 75 = Some (Fin 0).
Proof. repeat split; vm_compute; reflexivity. Qed.

(** ** C4: the cutoff is a rectangle of cells *)

Lemma covers_false_frame (Mexp : Q -> Q) (cfg : Config) (bounds : Bounds)
    (f : list num) (r : Resource) (x y : Z) :
  0 <= x < gridWidth cfg -> 0 <= y ->
  covers cfg bounds r x y = false ->
  addResource Mexp cfg bounds f r !! cellIndex cfg x y = f !! cellIndex cfg x y.
Proof.
  intros Hx Hy Hc. rewrite lookup_addResource by assumption. rewrite Hc.
  now destruct (f !! cellIndex cfg x y).
Qed.

(** The corner (73, 73) of the rectangle of [hospital75] is farther from
    it than the cutoff, and any positive exponential changes it. *)
Lemma corner_cell_modified (Mexp : Q -> Q) :
  (forall q, 0 < Mexp q)%Q ->
  exists v,
    run (generateScalarField Mexp [hospital75] window15) world0
      !! cellIndex CONFIG0 73 73 = Some (Fin v) /\ (0 < v)%Q.
Proof.
  intros Hpos.
  pose proof (generateScalarField_superposition Mexp [hospital75] window15 world0 73 73)
    as Hsum.
  change (CONFIG world0) with CONFIG0 in Hsum.
  assert (Hval : exists d, fieldSum Mexp CONFIG0 window15 [hospital75] 73 73 =
                           Fin (0 + 1 * Mexp (- d / (2 * ((6 # 1000) * (6 # 1000)))))%Q).
  { unfold fieldSum, nsum.
    assert (Hc : covers CONFIG0 window15 hospital75 73 73 = true)
      by (vm_compute; reflexivity).
    rewrite filter_cons, (decide_True _ _ Hc), filter_nil.
    cbn [map list_fmap fmap fold_left].
    unfold contribution, gaussian.
    assert (Hp : paramsOf CONFIG0 hospital75 = mkProfile (Qmil 6) (Fin 1))
      by (vm_compute; reflexivity).
    rewrite Hp. cbn [sigma amplitude]. unfold Qmil.
    destruct (distanceSq CONFIG0 window15 hospital75 73 73) as [d| | |] eqn:E;
      [|vm_compute in E; discriminate..].
    exists d. autorewrite with fin.
    rewrite ndiv_Fin_pos by reflexivity. reflexivity. }
  destruct Hval as (d & Hval). rewrite Hval in Hsum.
  eexists. split; [apply Hsum; simpl; lia|].
  specialize (Hpos (- d / (2 * ((6 # 1000) * (6 # 1000))))%Q). lra.
Qed.

(** The cells of the clamped range lie within the cutoff plus a cell and a
    half of the point, along the axis. *)
Lemma in_range_near (p c o cw : Q) (n x : Z) :
  (0 < cw)%Q ->
  in_range
    (Math_max (Fin 0)
       (Math_floor (ndiv (nsub (nsub (Fin p) (Fin c)) (Fin o)) (Fin cw))))
    (Math_min (num_of_Z n)
       (Math_ceil (ndiv (nsub (nadd (Fin p) (Fin c)) (Fin o)) (Fin cw))))
    x = true ->
  (- (c + (1 # 2) * cw) < o + (inject_Z x + (1 # 2)) * cw - p /\
   o + (inject_Z x + (1 # 2)) * cw - p < c + (3 # 2) * cw)%Q.
Proof.
  intros Hcw. autorewrite with fin. rewrite !ndiv_Fin_pos by assumption.
  rewrite Math_floor_Fin, Math_ceil_Fin. unfold num_of_Z.
  set (q1 := ((p - c - o) / cw)%Q). set (q2 := ((p + c - o) / cw)%Q).
  destruct (Math_max_0_Fin (inject_Z (Qfloor q1))) as (lo & -> & Hlo).
  destruct (Math_min_Fin (inject_Z n) (inject_Z (Qceiling q2))) as (hi & -> & Hhi).
  simpl. rewrite andb_true_iff, !Z.leb_le. intros [Hl Hh].
  assert (H1 : Qfloor q1 <= x).
  { destruct Hlo as [[-> Hle]|[-> _]].
    - change (Qfloor 0) with 0 in Hl. change 0%Q with (inject_Z 0) in Hle.
      rewrite <- Zle_Qle in Hle. lia.
    - now rewrite Qfloor_inject_Z in Hl. }
  assert (H2 : x <= Qceiling q2).
  { destruct Hhi as [[-> Hle]|[-> _]]; rewrite Qfloor_inject_Z in Hh.
    - rewrite <- Zle_Qle in Hle. lia.
    - assumption. }
  assert (H1q : (q1 < inject_Z x + 1)%Q).
  { apply Qlt_le_trans with (inject_Z (Qfloor q1 + 1)); [apply Qlt_floor|].
    change 1%Q with (inject_Z 1). rewrite <- inject_Z_plus, <- Zle_Qle. lia. }
  assert (H2q : (inject_Z x - 1 < q2)%Q).
  { apply Qle_lt_trans with (inject_Z (Qceiling q2 - 1)); [|apply Qceiling_lt].
    change (inject_Z x - 1)%Q with (inject_Z x + inject_Z (-1))%Q.
    rewrite <- inject_Z_plus, <- Zle_Qle. lia. }
  set (t := inject_Z x) in *.
  assert (E1 : (p - c - o == q1 * cw)%Q) by (unfold q1; field; lra).
  assert (E2 : (p + c - o == q2 * cw)%Q) by (unfold q2; field; lra).
  assert (M1 : (q1 * cw < (t + 1) * cw)%Q) by (apply Qmult_lt_compat_r; assumption).
  assert (M2 : ((t - 1) * cw < q2 * cw)%Q) by (apply Qmult_lt_compat_r; assumption).
  assert (E3 : ((t + 1) * cw == t * cw + cw)%Q) by ring.
  assert (E4 : ((t - 1) * cw == t * cw - cw)%Q) by ring.
  assert (E5 : ((t + (1 # 2)) * cw == t * cw + (1 # 2) * cw)%Q) by ring.
  rewrite E3 in M1. rewrite E4 in M2. rewrite E5. rewrite <- E1 in M1. rewrite <- E2 in M2.
  revert M1 M2. generalize (t * cw)%Q. intros u M1 M2. split; lra.
Qed.

Lemma Qsquare_lt (a b : Q) : (- b < a)%Q -> (a < b)%Q -> (a * a < b * b)%Q.
Proof. intros H1 H2. nra. Qed.

(** A covered cell is nearer than the far corner of the widest rectangle. *)
Lemma covers_near (cfg : Config) (bounds : Bounds) (r : Resource) (x y : Z)
    (cw ch lo la c : Q) :
  cellWidth cfg bounds = Fin cw -> (0 < cw)%Q ->
  cellHeight cfg bounds = Fin ch -> (0 < ch)%Q ->
  lng r = Fin lo -> lat r = Fin la ->
  cutoffOf cfg r = Fin c -> (0 <= c)%Q ->
  covers cfg bounds r x y = true ->
  exists d, distanceSq cfg bounds r x y = Fin d /\
            (d < (c + (3 # 2) * cw) * (c + (3 # 2) * cw)
                 + (c + (3 # 2) * ch) * (c + (3 # 2) * ch))%Q.
Proof.
  intros Hcw Hcwpos Hch Hchpos Hlo Hla Hc Hcpos Hcov.
  destruct (finite_cell_size _ _ _ _ Hcw) as (e0 & w0 & He & Hw).
  destruct (finite_cell_size _ _ _ _ Hch) as (n0 & s0 & Hn & Hs).
  unfold covers, minX, maxX, minY, maxY in Hcov.
  rewrite Hcw, Hch, Hc, Hw, Hs, Hlo, Hla in Hcov.
  apply andb_true_iff in Hcov. destruct Hcov as [Hx Hy].
  apply in_range_near in Hx; [|assumption]. apply in_range_near in Hy; [|assumption].
  unfold distanceSq, centerLat, centerLng. rewrite Hcw, Hch, Hw, Hs, Hlo, Hla.
  unfold half, num_of_Z. autorewrite with fin.
  eexists. split; [reflexivity|].
  destruct Hx as [Hx1 Hx2], Hy as [Hy1 Hy2].
  rewrite Qplus_comm.
  apply Qplus_lt_le_compat; [|apply Qlt_le_weak]; apply Qsquare_lt; lra.
Qed.

(** C4 (amended).  A point modifies the cells of its clamped rectangular
    cell range and no other.  Every cell outside the range keeps exactly
    its previous value, which is 0 in a fresh field; every cell of the
    grid inside the range has the contribution of the point added to its
    previous value, whatever the distance.  The range is the cutoff taken
    along each axis and widened to whole cells: in a geographic window
    with cells of at least 10^-9 degree, for a point given in degrees and
    a cutoff of at most 360 degrees, the range holds no cell whose center
    is at a squared distance of [(cutoff + 2 cellWidth)^2 +
    (cutoff + 2 cellHeight)^2] or more from the point. *)
Theorem cutoff_rectangle_frame (Mexp : Q -> Q) :
  (forall (cfg : Config) (bounds : Bounds) (f : list num) (r : Resource) (x y : Z),
      0 <= x < gridWidth cfg -> 0 <= y ->
      covers cfg bounds r x y = false ->
      addResource Mexp cfg bounds f r !! cellIndex cfg x y = f !! cellIndex cfg x y) /\
  (forall (r : Resource) (bounds : Bounds) (w : World) (x y : Z),
      0 <= x < gridWidth (CONFIG w) -> 0 <= y < gridHeight (CONFIG w) ->
      covers (CONFIG w) bounds r x y = false ->
      run (generateScalarField Mexp [r] bounds) w !! cellIndex (CONFIG w) x y =
      Some (Fin 0)) /\
  (forall (cfg : Config) (bounds : Bounds) (f : list num) (r : Resource) (x y : Z)
          (v : num),
      0 <= x < gridWidth cfg -> 0 <= y ->
      covers cfg bounds r x y = true ->
      f !! cellIndex cfg x y = Some v ->
      addResource Mexp cfg bounds f r !! cellIndex cfg x y =
      Some (nadd v (contribution Mexp cfg bounds r x y))) /\
  (forall (cfg : Config) (bounds : Bounds) (r : Resource) (x y : Z)
          (cw ch c d : Q),
      geographic bounds -> degrees (lat r) -> degrees (lng r) ->
      cellWidth cfg bounds = Fin cw -> (smallestCell <= cw)%Q ->
      cellHeight cfg bounds = Fin ch -> (smallestCell <= ch)%Q ->
      cutoffOf cfg r = Fin c -> (0 <= c <= 360)%Q ->
      distanceSq cfg bounds r x y = Fin d ->
      ((c + 2 * cw) * (c + 2 * cw) + (c + 2 * ch) * (c + 2 * ch) <= d)%Q ->
      covers cfg bounds r x y = false).
Proof.
  split; [|split; [|split]].
  - intros. now apply covers_false_frame.
  - intros r bounds w x y Hx Hy Hc.
    rewrite generateScalarField_superposition by assumption.
    unfold fieldSum, nsum. rewrite filter_cons, decide_False; [reflexivity|].
    rewrite Hc. discriminate.
  - intros cfg bounds f r x y v Hx Hy Hc Hv.
    rewrite lookup_addResource by assumption. rewrite Hc, Hv. reflexivity.
  - intros cfg bounds r x y cw ch c d _ Hla Hlo Hcw Hcwmin Hch Hchmin Hc [Hcpos _]
      Hd Hfar.
    destruct (lat r) as [la| | |] eqn:Ela; try contradiction.
    destruct (lng r) as [lo| | |] eqn:Elo; try contradiction.
    assert (Hcwpos : (0 < cw)%Q) by (unfold smallestCell in Hcwmin; lra).
    assert (Hchpos : (0 < ch)%Q) by (unfold smallestCell in Hchmin; lra).
    destruct (covers cfg bounds r x y) eqn:Hcov; [|reflexivity].
    destruct (covers_near cfg bounds r x y cw ch lo la c
                Hcw Hcwpos Hch Hchpos Elo Ela Hc Hcpos Hcov) as (d' & Hd' & Hlt).
    rewrite Hd in Hd'. injection Hd' as <-. exfalso. nra.
Qed.

Lemma cutoff_rectangle_frame_witness :
  addResource exp_pade CONFIG0 window15 flatHalf hospital75 !! cellIndex CONFIG0 10 10 =
  flatHalf !! cellIndex CONFIG0 10 10 /\
  run (generateScalarField exp_pade [hospital75] window15) world0
    !! cellIndex CONFIG0 10 10 = Some (Fin 0) /\
  addResource exp_pade CONFIG0 window15 flatHalf hospital75 !! cellIndex CONFIG0 73 73 =
  Some (nadd (Fin (1 # 2)) (contribution exp_pade CONFIG0 window15 hospital75 73 73)) /\
  covers CONFIG0 window15 hospital75 10 10 = false.
Proof.
  destruct (cutoff_rectangle_frame exp_pade) as (Hframe & Hfresh & Hin & Hfar).
  split; [|split; [|split]].
  - apply Hframe; [simpl; lia|lia|reflexivity].
  - apply (Hfresh hospital75 window15 world0 10 10); [simpl; lia|simpl; lia|reflexivity].
  - apply Hin; [simpl; lia|lia|reflexivity|reflexivity].
  - eapply (Hfar CONFIG0 window15 hospital75 10 10
              (((15 # 10) - 0) / 150)%Q (((15 # 10) - 0) / 150)%Q
              (3 * (6 # 1000))%Q).
    + repeat split; discriminate.
    + split; discriminate.
    + split; discriminate.
    + reflexivity.
    + discriminate.
    + reflexivity.
    + discriminate.
    + reflexivity.
    + split; discriminate.
    + reflexivity.
    + vm_compute. discriminate.
Defined.

(** C4 as stated fails in the corners of the rectangle: the center of the
    cell (73, 73) is farther from [hospital75] than its cutoff, and the
    cell no longer holds the 0 of the fresh field. *)
Lemma cutoff_corner_cell_modified :
  exists d c v,
    distanceSq CONFIG0 window15 hospital75 73 73 = Fin d /\ (d == 8 # 10000)%Q /\
    cutoffOf CONFIG0 hospital75 = Fin c /\ (c == 18 # 1000)%Q /\
    (c * c < d)%Q /\
    newField CONFIG0 !! cellIndex CONFIG0 73 73 = Some (Fin 0) /\
    run (generateScalarField exp_pade [hospital75] window15) world0
      !! cellIndex CONFIG0 73 73 = Some (Fin v) /\
    (0 < v)%Q.
Proof.
  destruct (corner_cell_modified exp_pade exp_pade_pos) as (v & Hv & Hpos).
  eexists _, _, v.
  split; [reflexivity|]. split; [vm_compute; reflexivity|].
  split; [reflexivity|]. split; [vm_compute; reflexivity|].
  split; [vm_compute; reflexivity|].
  split; [reflexivity|]. split; assumption.
Qed.

(** ** The threshold split *)

Lemma lookup_zrange (lo hi : Z) (i : nat) :
  Z.of_nat i < hi - lo + 1 -> zrange lo hi !! i = Some (lo + Z.of_nat i).
Proof.
  intros Hi. unfold zrange. rewrite list_lookup_fmap, lookup_seq_lt by lia. reflexivity.
Qed.

Lemma lookup_zrange_Some (lo hi : Z) (i : nat) (z : Z) :
  zrange lo hi !! i = Some z -> z = lo + Z.of_nat i /\ lo <= z <= hi.
Proof.
  intros H. assert (Hlt : (i < length (zrange lo hi))%nat) by (eapply lookup_lt_Some; eassumption).
  rewrite length_zrange in Hlt. rewrite lookup_zrange in H by lia.
  injection H as <-. lia.
Qed.

Lemma for_range_levels (n : Z) : for_range (Fin 1) (num_of_Z n) = zrange 1 n.
Proof. unfold for_range, num_of_Z. now rewrite Qfloor_inject_Z. Qed.




Lemma normalized_mono (mn mx t1 t2 : Q) :
  (mn < mx)%Q -> (t1 < t2)%Q -> ((t1 - mn) / (mx - mn) < (t2 - mn) / (mx - mn))%Q.
Proof.
  intros Hlt Ht. unfold Qdiv. apply Qmult_lt_compat_r; [|lra].
  apply Qinv_lt_0_compat. lra.
Qed.


Lemma Qmult_le_l' (a b c : Q) : (0 <= c)%Q -> (a <= b)%Q -> (c * a <= c * b)%Q.
Proof. intros Hc Hab. nra. Qed.

Section ContourExtractor.

Variable isorings : Z -> Z -> list num -> num -> MultiPolygon.

(** The two branches of [generateContours]. *)
Lemma generateContours_below_floor (field : list num) (options : Options) (w : World) :
  nlt (snd (scanMinMax field)) floor001 = true ->
  run (generateContours isorings field options) w = [].
Proof.
  intros H. unfold run, generateContours, bind, getConfig. simpl. now rewrite H.
Qed.

Lemma generateContours_above_floor (field : list num) (options : Options) (w : World) :
  nlt (snd (scanMinMax field)) floor001 = false ->
  run (generateContours isorings field options) w =
  let cfg := CONFIG w in
  let min := fst (scanMinMax field) in
  let max := snd (scanMinMax field) in
  let numLevels := or_default (o_levels options) (contourLevels cfg) in
  map (setNormalized min max)
      (d3_contours isorings
         (or_default (o_width options) (gridWidth cfg))
         (or_default (o_height options) (gridHeight cfg))
         (thresholdsOf min (ndiv (nsub max min) (num_of_Z (numLevels + 1))) numLevels)
         field).
Proof.
  intros H. unfold run, generateContours, bind, getConfig. simpl. now rewrite H.
Qed.

Lemma thresholdsOf_finite (mn mx : Q) (n : Z) :
  0 <= n ->
  thresholdsOf (Fin mn) (ndiv (nsub (Fin mx) (Fin mn)) (num_of_Z (n + 1))) n =
  map (fun k => Fin (threshold mn mx n k)) (zrange 1 n).
Proof.
  intros Hn. unfold thresholdsOf. rewrite for_range_levels.
  unfold num_of_Z. autorewrite with fin. rewrite ndiv_Fin_pos.
  - apply map_ext. intros k. now autorewrite with fin.
  - change 0%Q with (inject_Z 0). rewrite <- Zlt_Qlt. lia.
Qed.


(** The array handed to d3 is in ascending order whenever the scan found
    finite values, so the sort d3 applies to a copy of it changes nothing. *)
Lemma thresholdsOf_ascending (mn mx : Q) (n : Z) (i j : nat) (ti tj : num) :
  (mn <= mx)%Q -> 0 <= n -> (i <= j)%nat ->
  thresholdsOf (Fin mn) (ndiv (nsub (Fin mx) (Fin mn)) (num_of_Z (n + 1))) n !! i = Some ti ->
  thresholdsOf (Fin mn) (ndiv (nsub (Fin mx) (Fin mn)) (num_of_Z (n + 1))) n !! j = Some tj ->
  exists qi qj, ti = Fin qi /\ tj = Fin qj /\ (qi <= qj)%Q.
Proof.
  intros Hle Hn Hij. rewrite thresholdsOf_finite by assumption.
  change map with (@fmap list _). rewrite !list_lookup_fmap.
  destruct (zrange 1 n !! i) as [ki|] eqn:Hi; [|discriminate].
  destruct (zrange 1 n !! j) as [kj|] eqn:Hj; [|discriminate].
  apply lookup_zrange_Some in Hi. apply lookup_zrange_Some in Hj.
  destruct Hi as [-> _], Hj as [-> _]. simpl.
  intros Hti Htj. injection Hti as <-. injection Htj as <-.
  eexists _, _. split; [reflexivity|]. split; [reflexivity|].
  unfold threshold. apply Qplus_le_r. apply Qmult_le_l'.
  - apply Qle_shift_div_l.
    + change 0%Q with (inject_Z 0). rewrite <- Zlt_Qlt. lia.
    + lra.
  - rewrite <- Zle_Qle. lia.
Qed.

End ContourExtractor.

(** ** C2: thresholds and normalized values *)

Lemma scan_step_attained (l : list num) (a b : Q) :
  Forall is_finite l -> (a <= b)%Q ->
  exists mn mx,
    fold_left
      (fun mm val =>
         (if nlt val (fst mm) then val else fst mm,
          if nlt (snd mm) val then val else snd mm))
      l (Fin a, Fin b) = (Fin mn, Fin mx) /\
    (mn = a \/ Fin mn ∈ l) /\ (mx = b \/ Fin mx ∈ l) /\
    (mn <= a)%Q /\ (b <= mx)%Q /\
    (forall q, Fin q ∈ l -> mn <= q <= mx)%Q.
Proof.
  intros Hl. revert a b. induction Hl as [|v l Hv _ IH]; intros a b Hab.
  - exists a, b. split; [reflexivity|]. split; [now left|]. split; [now left|].
    split; [apply Qle_refl|]. split; [apply Qle_refl|]. intros q Hq. inversion Hq.
  - destruct v as [q| | |]; try contradiction. cbn [fold_left fst snd].
    destruct (nlt (Fin q) (Fin a)) eqn:E1; destruct (nlt (Fin b) (Fin q)) eqn:E2;
      try (apply nlt_Fin in E1); try (apply nlt_Fin in E2);
      try (apply nlt_Fin_false in E1); try (apply nlt_Fin_false in E2).
    + exfalso. lra.
    + destruct (IH q b ltac:(lra)) as (mn & mx & -> & Hmn & Hmx & H1 & H2 & Hall).
      exists mn, mx. split; [reflexivity|]. split; [|split; [|split; [|split]]].
      * right. destruct Hmn as [->|H]; [left|now right].
      * destruct Hmx as [->|H]; [now left|right; now right].
      * lra.
      * lra.
      * intros q' Hq'. apply elem_of_cons in Hq'. destruct Hq' as [Hq'|Hq'].
        -- injection Hq' as ->. lra.
        -- now apply Hall.
    + destruct (IH a q ltac:(lra)) as (mn & mx & -> & Hmn & Hmx & H1 & H2 & Hall).
      exists mn, mx. split; [reflexivity|]. split; [|split; [|split; [|split]]].
      * destruct Hmn as [->|H]; [now left|right; now right].
      * right. destruct Hmx as [->|H]; [left|now right].
      * lra.
      * lra.
      * intros q' Hq'. apply elem_of_cons in Hq'. destruct Hq' as [Hq'|Hq'].
        -- injection Hq' as ->. lra.
        -- now apply Hall.
    + destruct (IH a b Hab) as (mn & mx & -> & Hmn & Hmx & H1 & H2 & Hall).
      exists mn, mx. split; [reflexivity|]. split; [|split; [|split; [|split]]].
      * destruct Hmn as [->|H]; [now left|right; now right].
      * destruct Hmx as [->|H]; [now left|right; now right].
      * lra.
      * lra.
      * intros q' Hq'. apply elem_of_cons in Hq'. destruct Hq' as [Hq'|Hq'].
        -- injection Hq' as ->. lra.
        -- now apply Hall.
Qed.








(** ** The scan for the minimum and the maximum *)

Lemma scan_step_flat (c : Q) (l : list num) :
  Forall (eq (Fin c)) l ->
  fold_left
    (fun mm val =>
       (if nlt val (fst mm) then val else fst mm,
        if nlt (snd mm) val then val else snd mm))
    l (Fin c, Fin c) = (Fin c, Fin c).
Proof.
  induction 1 as [|v l <- _ IH]; [reflexivity|].
  cbn [fold_left fst snd].
  assert (E : nlt (Fin c) (Fin c) = false) by (apply nlt_Fin_false; apply Qle_refl).
  rewrite E. exact IH.
Qed.

Lemma scanMinMax_flat (c : Q) (field : list num) :
  field <> [] -> Forall (eq (Fin c)) field -> scanMinMax field = (Fin c, Fin c).
Proof.
  intros Hne Hall. destruct Hall as [|v l <- Hl]; [congruence|].
  unfold scanMinMax. cbn [fold_left fst snd nlt]. now apply scan_step_flat.
Qed.

Lemma scanMinMax_zeros (m : nat) :
  nlt (snd (scanMinMax (replicate m (Fin 0)))) floor001 = true.
Proof.
  destruct m as [|m]; [reflexivity|].
  rewrite (scanMinMax_flat 0); [reflexivity|discriminate|].
  apply Forall_replicate. reflexivity.
Qed.

(** ** The pipeline *)

(** [process] runs the three stages on the configuration of the world it
    starts in; the clock only enters the elapsed time. *)
Lemma process_run (Mexp : Q -> Q) (isorings : Z -> Z -> list num -> num -> MultiPolygon)
    (resources : list Resource) (bounds : Bounds) (pixelBounds : PixelBounds) (w : World) :
  run (process Mexp isorings resources bounds pixelBounds) w =
  let field := run (generateScalarField Mexp resources bounds) w in
  let contours := run (generateContours isorings field noOptions) w in
  mkResult (run (transformToPixels contours pixelBounds) w) field
    (mkStats (length resources) (length contours)
       (nsub (timer w (S (reads w))) (timer w (reads w)))).
Proof.
  unfold run, process, generateScalarField, generateContours, transformToPixels,
    console_log, performance_now, getConfig, ret, bind.
  cbn [fst snd CONFIG timer reads console].
  destruct (nlt _ floor001); reflexivity.
Qed.

Lemma process_after (Mexp : Q -> Q) (isorings : Z -> Z -> list num -> num -> MultiPolygon)
    (resources : list Resource) (bounds : Bounds) (pixelBounds : PixelBounds) (w : World) :
  CONFIG (after (process Mexp isorings resources bounds pixelBounds) w) = CONFIG w /\
  timer (after (process Mexp isorings resources bounds pixelBounds) w) = timer w /\
  reads (after (process Mexp isorings resources bounds pixelBounds) w) = S (S (reads w)).
Proof.
  unfold after, process, generateScalarField, generateContours, transformToPixels,
    console_log, performance_now, getConfig, ret, bind.
  cbn [fst snd CONFIG timer reads console].
  destruct (nlt _ floor001); repeat split.
Qed.

(** ** C6: no signal, no contour *)

(** C6.  [generateContours] returns the empty sequence whenever the
    scanned maximum is below 0.01; an empty point set gives an all-zero
    grid, and that grid gives the empty sequence. *)
Theorem generateContours_no_signal
    (Mexp : Q -> Q) (isorings : Z -> Z -> list num -> num -> MultiPolygon) :
  (forall (field : list num) (options : Options) (w : World),
      nlt (snd (scanMinMax field)) floor001 = true ->
      run (generateContours isorings field options) w = []) /\
  (forall (bounds : Bounds) (w : World),
      run (generateScalarField Mexp [] bounds) w =
      replicate (Z.to_nat (gridWidth (CONFIG w) * gridHeight (CONFIG w))) (Fin 0)) /\
  (forall (bounds : Bounds) (options : Options) (w w' : World),
      run (generateContours isorings (run (generateScalarField Mexp [] bounds) w) options) w'
      = []) /\
  (forall (bounds : Bounds) (pixelBounds : PixelBounds) (w : World),
      res_contours (run (process Mexp isorings [] bounds pixelBounds) w) = []).
Proof.
  split; [|split; [|split]].
  - intros. now apply generateContours_below_floor.
  - reflexivity.
  - intros bounds options w w'. apply generateContours_below_floor.
    apply scanMinMax_zeros.
  - intros bounds pixelBounds w. rewrite process_run. cbv zeta. cbn [res_contours].
    rewrite generateContours_below_floor by apply scanMinMax_zeros. reflexivity.
Qed.

Lemma generateContours_no_signal_witness :
  run (generateContours squareRing [Fin (1 # 1000); Fin (9 # 1000); Fin 0] noOptions) world0
  = [].
Proof.
  destruct (generateContours_no_signal exp_pade squareRing) as (Hfloor & _).
  apply Hfloor. reflexivity.
Defined.

(** ** C3: a flat field above the floor *)

Lemma scan_step_flat_eq (c : Q) (l : list num) (a b : Q) :
  Forall (num_eq (Fin c)) l -> (a == c)%Q -> (b == c)%Q ->
  fold_left
    (fun mm val =>
       (if nlt val (fst mm) then val else fst mm,
        if nlt (snd mm) val then val else snd mm))
    l (Fin a, Fin b) = (Fin a, Fin b).
Proof.
  intros Hl Ha Hb. induction Hl as [|v l Hv _ IH]; [reflexivity|].
  destruct v as [q| | |]; try contradiction. simpl in Hv.
  cbn [fold_left fst snd].
  assert (E1 : nlt (Fin q) (Fin a) = false) by (apply nlt_Fin_false; lra).
  assert (E2 : nlt (Fin b) (Fin q) = false) by (apply nlt_Fin_false; lra).
  rewrite E1, E2. exact IH.
Qed.

Lemma scanMinMax_flat_eq (c : Q) (field : list num) :
  field <> [] -> Forall (num_eq (Fin c)) field ->
  exists a, scanMinMax field = (Fin a, Fin a) /\ (a == c)%Q.
Proof.
  intros Hne Hall. destruct Hall as [|v l Hv Hl]; [congruence|].
  destruct v as [q| | |]; try contradiction. simpl in Hv.
  exists q. split; [|lra].
  unfold scanMinMax. cbn [fold_left fst snd nlt].
  apply (scan_step_flat_eq c); [assumption|lra|lra].
Qed.

(** On a flat field every level is the constant itself and the
    normalization divides 0 by 0. *)
Lemma generateContours_flat
    (isorings : Z -> Z -> list num -> num -> MultiPolygon)
    (field : list num) (options : Options) (w : World) (c : Q) :
  field <> [] -> Forall (num_eq (Fin c)) field -> (1 # 100 <= c)%Q ->
  let n := or_default (o_levels options) (contourLevels (CONFIG w)) in
  let contours := run (generateContours isorings field options) w in
  length contours = Z.to_nat n /\
  Forall (fun contour => normalizedValue contour = Some NaN /\
                         num_eq (value contour) (Fin c)) contours.
Proof.
  intros Hne Hflat Hc n contours. subst contours.
  destruct (scanMinMax_flat_eq c field Hne Hflat) as (a & Hscan & Ha).
  rewrite generateContours_above_floor
    by (rewrite Hscan; apply nlt_Fin_false; cbn [snd]; lra).
  cbv zeta. rewrite Hscan. cbn [fst snd]. fold n.
  unfold d3_contours, thresholdsOf. rewrite for_range_levels, !map_map.
  split.
  - rewrite length_map, length_zrange. lia.
  - apply Forall_forall. intros contour Hin. apply list_elem_of_fmap in Hin.
    destruct Hin as (k & -> & Hk). apply elem_of_zrange in Hk.
    unfold setNormalized. cbn [value normalizedValue].
    unfold num_of_Z. autorewrite with fin.
    assert (HN : (0 < inject_Z (n + 1))%Q)
      by (change 0%Q with (inject_Z 0); rewrite <- Zlt_Qlt; lia).
    rewrite ndiv_Fin_pos by assumption.
    autorewrite with fin. split.
    + simpl. rewrite !Qsign_Eq; [reflexivity| |ring].
      field. lra.
    + simpl. rewrite <- Ha. field. lra.
Qed.

(** C3 fails on the code.  On the flat field of 0.5 [generateContours]
    returns twelve contours, not the empty sequence, and the
    [normalizedValue] of each of them is NaN. *)
Theorem flat_field_yields_NaN_contours :
  let contours := run (generateContours squareRing flatHalf noOptions) world0 in
  length contours = 12%nat /\
  Forall (fun contour => normalizedValue contour = Some NaN) contours.
Proof.
  destruct (generateContours_flat squareRing flatHalf noOptions world0 (1 # 2))
    as [Hlen Hall].
  - discriminate.
  - apply Forall_replicate. simpl. reflexivity.
  - discriminate.
  - split; [exact Hlen|]. eapply Forall_impl; [exact Hall|]. intros contour [H _]. exact H.
Qed.

(** The flat field is within reach of the pipeline: in the window reduced
    to the point of [hospitalAt1] every cell receives the amplitude 1, and
    [process] returns twelve contours whose [normalizedValue] is NaN. *)
Lemma degenerate_window_flat_field (Mexp : Q -> Q) :
  (Mexp 0 == 1)%Q ->
  (forall p q : Q, (p == q)%Q -> (Mexp p == Mexp q)%Q) ->
  Forall (num_eq (Fin 1))
    (run (generateScalarField Mexp [hospitalAt1] windowPoint) world0).
Proof.
  intros Mexp_zero Mexp_proper. apply Forall_lookup. intros i v Hi.
  assert (Hlen : Z.of_nat i < 22500).
  { apply lookup_lt_Some in Hi. rewrite length_generateScalarField in Hi.
    change (gridWidth (CONFIG world0) * gridHeight (CONFIG world0)) with 22500 in Hi.
    lia. }
  set (x := Z.of_nat i mod 150). set (y := Z.of_nat i / 150).
  assert (Hx : 0 <= x < 150) by (apply Z.mod_pos_bound; lia).
  assert (Hy : 0 <= y < 150).
  { unfold y. split; [apply Z.div_pos; lia|apply Z.div_lt_upper_bound; lia]. }
  assert (Hidx : i = cellIndex (CONFIG world0) x y).
  { unfold cellIndex. cbn [CONFIG world0 gridWidth CONFIG0]. unfold x, y.
    pose proof (Z.div_mod (Z.of_nat i) 150). lia. }
  rewrite Hidx, generateScalarField_superposition in Hi by assumption.
  injection Hi as <-. change (CONFIG world0) with CONFIG0.
  assert (Hcov : covers CONFIG0 windowPoint hospitalAt1 x y = true).
  { unfold covers.
    replace (minX CONFIG0 windowPoint hospitalAt1) with (Fin 0) by reflexivity.
    replace (maxX CONFIG0 windowPoint hospitalAt1) with (Fin (inject_Z 149)) by reflexivity.
    replace (minY CONFIG0 windowPoint hospitalAt1) with (Fin 0) by reflexivity.
    replace (maxY CONFIG0 windowPoint hospitalAt1) with (Fin (inject_Z 149)) by reflexivity.
    apply andb_true_iff. split; apply in_range_Fin;
      rewrite ?Qfloor_inject_Z; change (Qfloor 0) with 0; lia. }
  unfold fieldSum, nsum. rewrite filter_cons, (decide_True _ _ Hcov), filter_nil.
  cbn [map list_fmap fmap fold_left].
  assert (Hd : exists d, distanceSq CONFIG0 windowPoint hospitalAt1 x y = Fin d /\ (d == 0)%Q).
  { unfold distanceSq, centerLat, centerLng.
    replace (cellWidth CONFIG0 windowPoint) with (Fin ((1 - 1) / 150)) by reflexivity.
    replace (cellHeight CONFIG0 windowPoint) with (Fin ((1 - 1) / 150)) by reflexivity.
    cbn [south west lat lng windowPoint hospitalAt1]. unfold half, num_of_Z.
    autorewrite with fin. eexists. split; [reflexivity|]. field. }
  destruct Hd as (d & Hd & Hd0). unfold contribution. rewrite Hd.
  assert (Hgood : good_profile (paramsOf CONFIG0 hospitalAt1)).
  { apply paramsOf_good; [apply good_config_CONFIG0|].
    apply not_elem_of_names. reflexivity. }
  pose proof (gaussian_at_zero Mexp Mexp_zero Mexp_proper _ d Hgood Hd0) as Hg.
  replace (amplitude (paramsOf CONFIG0 hospitalAt1)) with (Fin 1) in Hg by reflexivity.
  destruct (gaussian Mexp (paramsOf CONFIG0 hospitalAt1) (Fin d)) as [g| | |];
    simpl in Hg |- *; try contradiction. lra.
Qed.

Lemma process_degenerate_window_NaN (Mexp : Q -> Q)
    (isorings : Z -> Z -> list num -> num -> MultiPolygon) :
  (Mexp 0 == 1)%Q ->
  (forall p q : Q, (p == q)%Q -> (Mexp p == Mexp q)%Q) ->
  let result := run (process Mexp isorings [hospitalAt1] windowPoint screen) world0 in
  length (res_contours result) = 12%nat /\
  Forall (fun contour => exists m, pixelCoordinates contour = Some m) (res_contours result) /\
  Forall (fun contour => normalizedValue contour = Some NaN) (res_contours result).
Proof.
  intros Mexp_zero Mexp_proper result. unfold result. rewrite process_run. cbv zeta.
  cbn [res_contours].
  set (field := run (generateScalarField Mexp [hospitalAt1] windowPoint) world0).
  destruct (generateContours_flat isorings field noOptions world0 1) as [Hlen Hall].
  - intros Hnil. apply (f_equal length) in Hnil. unfold field in Hnil.
    rewrite length_generateScalarField in Hnil. discriminate.
  - now apply degenerate_window_flat_field.
  - discriminate.
  - unfold run at 1. unfold transformToPixels, bind, getConfig, ret. cbn [fst].
    rewrite length_map. split; [exact Hlen|].
    split; apply Forall_fmap; (eapply Forall_impl; [exact Hall|]);
      intros contour [Hn _]; cbn; eauto.
Qed.

(** ** C5: grid to pixels *)

Lemma shape_mapVertices (f : Vertex -> Vertex) (m : MultiPolygon) :
  shape (mapVertices f m) = shape m.
Proof.
  unfold shape, mapVertices. rewrite map_map. apply map_ext. intros polygon.
  rewrite map_map. apply map_ext. intros ring. apply length_map.
Qed.

Lemma lookup_map {A B : Type} (f : A -> B) (l : list A) (i : nat) :
  map f l !! i = match l !! i with Some a => Some (f a) | None => None end.
Proof.
  change (map f l) with (f <$> l). rewrite list_lookup_fmap.
  destruct (l !! i); reflexivity.
Qed.

Lemma vertexAt_mapVertices (f : Vertex -> Vertex) (m : MultiPolygon) (j k l : nat) :
  vertexAt (mapVertices f m) j k l = f <$> vertexAt m j k l.
Proof.
  unfold vertexAt, mapVertices, MultiPolygon, Polygon, Ring in *. rewrite lookup_map.
  destruct (m !! j) as [polygon|]; [|reflexivity]. cbv beta match.
  rewrite lookup_map.
  destruct (polygon !! k) as [ring|]; [|reflexivity]. cbv beta match.
  rewrite lookup_map.
  destruct (ring !! l); reflexivity.
Qed.

Lemma pixel_row_descending (cfg : Config) (pixelBounds : PixelBounds)
    (x1 x2 : num) (y1 y2 t h : Q) :
  top pixelBounds = Fin t -> height pixelBounds = Fin h -> (0 <= h)%Q ->
  0 < gridHeight cfg -> (y1 <= y2)%Q ->
  exists p1 p2,
    snd (pixelVertex cfg pixelBounds (x1, Fin y1)) = Fin p1 /\
    snd (pixelVertex cfg pixelBounds (x2, Fin y2)) = Fin p2 /\
    (p2 <= p1)%Q.
Proof.
  intros Ht Hh Hhpos HH Hy. unfold pixelVertex, scaleY. cbn [fst snd].
  rewrite Ht, Hh. unfold num_of_Z.
  assert (HHq : (0 < inject_Z (gridHeight cfg))%Q)
    by (change 0%Q with (inject_Z 0); now rewrite <- Zlt_Qlt).
  rewrite ndiv_Fin_pos by assumption. autorewrite with fin.
  eexists _, _. split; [reflexivity|]. split; [reflexivity|].
  assert (Hs : (0 <= h / inject_Z (gridHeight cfg))%Q)
    by (apply Qle_shift_div_l; [assumption|lra]).
  apply Qplus_le_r. apply Qmult_le_compat_r; [lra|assumption].
Qed.

Lemma lookup_transformToPixels (contours : list Contour) (pixelBounds : PixelBounds)
    (w : World) (i : nat) :
  run (transformToPixels contours pixelBounds) w !! i =
  (fun contour =>
     mkContour (value contour) (coordinates contour) (normalizedValue contour)
       (Some (mapVertices (pixelVertex (CONFIG w) pixelBounds) (coordinates contour))))
    <$> contours !! i.
Proof.
  unfold run, transformToPixels, bind, getConfig, ret. cbn [fst].
  change map with (@fmap list _). apply list_lookup_fmap.
Qed.

Lemma pixelAt_transformToPixels (contours : list Contour) (pixelBounds : PixelBounds)
    (w : World) (i j k l : nat) :
  pixelAt (run (transformToPixels contours pixelBounds) w) i j k l =
  pixelVertex (CONFIG w) pixelBounds <$> gridAt contours i j k l.
Proof.
  unfold pixelAt, gridAt. rewrite lookup_transformToPixels.
  destruct (contours !! i) as [c|]; [|reflexivity].
  cbn [fmap option_fmap option_map pixelCoordinates].
  apply vertexAt_mapVertices.
Qed.

(** C5 (amended).  [transformToPixels] keeps the contours, their order,
    their [value], [coordinates] and [normalizedValue] and the numbers of
    polygons, rings and vertices, and sets [pixelCoordinates] so that the
    vertex [(x, y)] found at a place of [coordinates] is, at the same
    place, [(left + x * scaleX, top + (gridHeight - y) * scaleY)] with
    [scaleX = width / gridWidth] and [scaleY = height / gridHeight].  For
    a finite top, a finite height that is not negative and a positive
    [gridHeight], the pixel ordinate never increases when the grid
    ordinate increases, whatever the abscissas. *)
Theorem transformToPixels_flip
    (contours : list Contour) (pixelBounds : PixelBounds) (w : World) :
  let result := run (transformToPixels contours pixelBounds) w in
  let gridW := num_of_Z (gridWidth (CONFIG w)) in
  let gridH := num_of_Z (gridHeight (CONFIG w)) in
  length result = length contours /\
  (forall (i : nat) (contour : Contour),
      contours !! i = Some contour ->
      exists m,
        result !! i =
          Some (mkContour (value contour) (coordinates contour)
                  (normalizedValue contour) (Some m)) /\
        shape m = shape (coordinates contour)) /\
  (forall (i j k l : nat) (x y : num),
      gridAt contours i j k l = Some (x, y) ->
      pixelAt result i j k l =
      Some (nadd (left pixelBounds) (nmul x (ndiv (width pixelBounds) gridW)),
            nadd (top pixelBounds)
                 (nmul (nsub gridH y) (ndiv (height pixelBounds) gridH)))) /\
  (forall (t h : Q),
      top pixelBounds = Fin t -> height pixelBounds = Fin h -> (0 <= h)%Q ->
      0 < gridHeight (CONFIG w) ->
      forall (i1 j1 k1 l1 i2 j2 k2 l2 : nat) (x1 x2 : num) (y1 y2 : Q),
        gridAt contours i1 j1 k1 l1 = Some (x1, Fin y1) ->
        gridAt contours i2 j2 k2 l2 = Some (x2, Fin y2) ->
        (y1 <= y2)%Q ->
        exists p1 p2,
          snd <$> pixelAt result i1 j1 k1 l1 = Some (Fin p1) /\
          snd <$> pixelAt result i2 j2 k2 l2 = Some (Fin p2) /\
          (p2 <= p1)%Q).
Proof.
  intros result gridW gridH. split; [|split; [|split]].
  - unfold result, run, transformToPixels, bind, getConfig, ret. cbn [fst].
    apply length_map.
  - intros i contour Hi. eexists. split.
    + unfold result. rewrite lookup_transformToPixels, Hi. reflexivity.
    + apply shape_mapVertices.
  - intros i j k l x y Hg. unfold result.
    rewrite pixelAt_transformToPixels, Hg. reflexivity.
  - intros t h Ht Hh Hhpos HH i1 j1 k1 l1 i2 j2 k2 l2 x1 x2 y1 y2 H1 H2 Hy.
    unfold result. rewrite !pixelAt_transformToPixels, H1, H2.
    cbn [fmap option_fmap option_map].
    destruct (pixel_row_descending (CONFIG w) pixelBounds x1 x2 y1 y2 t h
                Ht Hh Hhpos HH Hy) as (p1 & p2 & E1 & E2 & Hle).
    exists p1, p2. rewrite E1, E2. auto.
Qed.

Lemma transformToPixels_flip_witness :
  exists p1 p2,
    snd <$> pixelAt (run (transformToPixels oneSegment screen) world0) 0 0 0 0
      = Some (Fin p1) /\
    snd <$> pixelAt (run (transformToPixels oneSegment screen) world0) 0 0 0 1
      = Some (Fin p2) /\
    (p2 <= p1)%Q.
Proof.
  destruct (transformToPixels_flip oneSegment screen world0) as (_ & _ & _ & Hflip).
  apply (Hflip 0%Q 600%Q eq_refl eq_refl ltac:(discriminate) eq_refl
           0%nat 0%nat 0%nat 0%nat 0%nat 0%nat 0%nat 1%nat (Fin 3) (Fin 3) 10%Q 20%Q).
  - reflexivity.
  - reflexivity.
  - discriminate.
Defined.

(** C5 as stated fails on a raster of infinite height.  The height of
    [endlessScreen] is positive, and the two ends of [oneSegment], at the
    grid ordinates 10 and 20, both land on the pixel ordinate +Infinity:
    the second is not below the first. *)
Lemma flip_lost_on_infinite_height :
  let result := run (transformToPixels oneSegment endlessScreen) world0 in
  nlt (Fin 0) (height endlessScreen) = true /\
  gridAt oneSegment 0 0 0 0 = Some (Fin 3, Fin 10) /\
  gridAt oneSegment 0 0 0 1 = Some (Fin 3, Fin 20) /\
  snd <$> pixelAt result 0 0 0 0 = Some PInf /\
  snd <$> pixelAt result 0 0 0 1 = Some PInf /\
  nlt PInf PInf = false.
Proof.
  cbv zeta. repeat split; vm_compute; reflexivity.
Qed.

(** ** C7: the transforms keep the ring structure *)


(** C7.  [transformToGeo] and [transformToPixels] change nothing in the
    world and return one contour per input contour, in the same order;
    the transformed coordinates have as many polygons, as many rings per
    polygon and as many vertices per ring as the coordinates of the input
    contour, whose [value], [normalizedValue] and, for the pixel transform,
    [coordinates] are carried over unchanged. *)
Theorem transforms_preserve_ring_structure
    (contours : list Contour) (bounds : Bounds) (pixelBounds : PixelBounds) (w : World) :
  after (transformToGeo contours bounds) w = w /\
  after (transformToPixels contours pixelBounds) w = w /\
  Forall2
    (fun input output =>
       shape (coordinates output) = shape (coordinates input) /\
       value output = value input /\
       normalizedValue output = normalizedValue input /\
       pixelCoordinates output = pixelCoordinates input)
    contours (run (transformToGeo contours bounds) w) /\
  Forall2
    (fun input output =>
       (exists m, pixelCoordinates output = Some m /\
                  shape m = shape (coordinates input)) /\
       coordinates output = coordinates input /\
       value output = value input /\
       normalizedValue output = normalizedValue input)
    contours (run (transformToPixels contours pixelBounds) w).
Proof.
  split; [reflexivity|]. split; [reflexivity|].
  unfold run, transformToGeo, transformToPixels, bind, getConfig, ret. cbn [fst].
  split.
  - induction contours as [|c cs IH]; simpl; constructor; [|exact IH].
    cbn [coordinates value normalizedValue pixelCoordinates].
    rewrite shape_mapVertices. auto.
  - induction contours as [|c cs IH]; simpl; constructor; [|exact IH].
    cbn [coordinates value normalizedValue pixelCoordinates].
    split; [|auto]. eexists. split; [reflexivity|]. apply shape_mapVertices.
Qed.

(** ** C8: the pipeline is a function of its inputs and the configuration *)

(** C8.  Two runs of [process] on the same points, bounds and pixel
    bounds, started in worlds that hold the same configuration, return the
    same field and the same contours, whatever the clocks and the consoles
    of the two worlds; a run leaves the configuration as it found it, so
    this covers two runs in a row. *)
Theorem process_deterministic
    (Mexp : Q -> Q) (isorings : Z -> Z -> list num -> num -> MultiPolygon)
    (resources : list Resource) (bounds : Bounds) (pixelBounds : PixelBounds)
    (w1 w2 : World) :
  CONFIG w1 = CONFIG w2 ->
  let r1 := run (process Mexp isorings resources bounds pixelBounds) w1 in
  let r2 := run (process Mexp isorings resources bounds pixelBounds) w2 in
  res_field r1 = res_field r2 /\
  res_contours r1 = res_contours r2 /\
  map value (res_contours r1) = map value (res_contours r2) /\
  map normalizedValue (res_contours r1) = map normalizedValue (res_contours r2) /\
  map pixelCoordinates (res_contours r1) = map pixelCoordinates (res_contours r2) /\
  CONFIG (after (process Mexp isorings resources bounds pixelBounds) w1) = CONFIG w1.
Proof.
  intros Hcfg r1 r2.
  assert (Hfield : res_field r1 = res_field r2).
  { unfold r1, r2. rewrite !process_run. cbv zeta. cbn [res_field].
    unfold run, generateScalarField, bind, getConfig, ret. cbn [fst].
    now rewrite Hcfg. }
  assert (Hcontours : res_contours r1 = res_contours r2).
  { unfold r1, r2. rewrite !process_run. cbv zeta. cbn [res_contours].
    unfold run, generateScalarField, transformToPixels, generateContours,
      bind, getConfig, ret, console_log.
    cbn [fst snd]. rewrite Hcfg.
    destruct (nlt _ floor001); reflexivity. }
  split; [assumption|]. split; [assumption|].
  rewrite Hcontours. repeat split.
  apply process_after.
Qed.

Lemma process_deterministic_witness :
  let r1 := run (process exp_pade squareRing [hospital75; clinic20] window15 screen) world0 in
  let r2 := run (process exp_pade squareRing [hospital75; clinic20] window15 screen) world1 in
  res_field r1 = res_field r2 /\
  res_contours r1 = res_contours r2 /\
  map value (res_contours r1) = map value (res_contours r2) /\
  map normalizedValue (res_contours r1) = map normalizedValue (res_contours r2) /\
  map pixelCoordinates (res_contours r1) = map pixelCoordinates (res_contours r2) /\
  CONFIG (after (process exp_pade squareRing [hospital75; clinic20] window15 screen) world0)
  = CONFIG world0.
Proof.
  apply (process_deterministic exp_pade squareRing [hospital75; clinic20] window15 screen
           world0 world1).
  reflexivity.
Defined.

(** The elapsed time is not part of that: it follows the clock. *)
Lemma processingTime_follows_clock :
  processingTime (res_stats (run (process exp_pade noRings [] window15 screen) world0))
    = Fin (1 - 0) /\
  processingTime (res_stats (run (process exp_pade noRings [] window15 screen) world1))
    = Fin (45 - 38).
Proof. split; reflexivity. Qed.

(** The configuration is part of the input: after
    [updateConfig({ contourLevels: 24 })] the same call returns twice as
    many contours. *)
Lemma process_follows_CONFIG :
  let levels24 := mkPartialConfig None None (Some 24) None None None in
  let call := process exp_pade noRings [hospital75] window15 screen in
  length (res_contours (run call world0)) = 12%nat /\
  length (res_contours (run call (after (updateConfig levels24) world0))) = 24%nat.
Proof. split; vm_compute; reflexivity. Qed.

(** ** No NaN and no Infinity reaches the grid *)

Lemma range_lo_shape (a : num) (z : Z) (hi : num) :
  in_range (Math_max (Fin 0) (Math_floor a)) hi z = true ->
  a = NInf \/ exists q, a = Fin q.
Proof. destruct a; simpl; eauto; discriminate. Qed.

Lemma range_hi_shape (b : num) (z n : Z) (lo : num) :
  in_range lo (Math_min (num_of_Z n) (Math_ceil b)) z = true ->
  b = PInf \/ exists q, b = Fin q.
Proof.
  destruct b; simpl; eauto; destruct lo; simpl; discriminate.
Qed.

(** A loop that runs at all has a finite point and a finite origin, and a
    cell size that is not NaN. *)
Lemma axis_inputs_finite (p o cw : num) (c0 : Q) :
  (ndiv (nsub (nsub p (Fin c0)) o) cw = NInf \/
   exists q, ndiv (nsub (nsub p (Fin c0)) o) cw = Fin q) ->
  (ndiv (nsub (nadd p (Fin c0)) o) cw = PInf \/
   exists q, ndiv (nsub (nadd p (Fin c0)) o) cw = Fin q) ->
  (exists p0 o0, p = Fin p0 /\ o = Fin o0) /\ cw <> NaN.
Proof.
  destruct p as [p0| | |], o as [o0| | |], cw as [cw0| | |];
    try solve [intros _ _; split; [eauto|discriminate]];
    cbn; intros [Ha|[qa Ha]] [Hb|[qb Hb]];
    try discriminate; destruct (Qsign cw0); discriminate.
Qed.

Lemma Qsquare_nonneg (q : Q) : (0 <= q * q)%Q.
Proof. nra. Qed.

Lemma axis_square (p o cw : num) (c0 : Q) (n x : Z) :
  in_range
    (Math_max (Fin 0) (Math_floor (ndiv (nsub (nsub p (Fin c0)) o) cw)))
    (Math_min (num_of_Z n) (Math_ceil (ndiv (nsub (nadd p (Fin c0)) o) cw)))
    x = true ->
  nonneg_or_inf
    (nmul (nsub (nadd o (nmul (nadd (num_of_Z x) half) cw)) p)
          (nsub (nadd o (nmul (nadd (num_of_Z x) half) cw)) p)).
Proof.
  intros H.
  pose proof (in_range_clamped _ _ _ _ H) as Hx.
  destruct (axis_inputs_finite p o cw c0) as ((p0 & o0 & -> & ->) & Hcw).
  { eapply range_lo_shape; eassumption. }
  { eapply range_hi_shape; eassumption. }
  assert (Hhalf : Qsign (inject_Z x + (1 # 2)) = Gt).
  { apply Qsign_Gt. assert (0 <= inject_Z x)%Q
      by (change 0%Q with (inject_Z 0); rewrite <- Zle_Qle; lia). lra. }
  unfold half, num_of_Z. destruct cw as [cw0| | |]; [| | |congruence].
  - autorewrite with fin. simpl. apply Qsquare_nonneg.
  - autorewrite with fin. cbn [nmul]. unfold inf_times. rewrite Hhalf. exact I.
  - autorewrite with fin. cbn [nmul]. unfold inf_times. rewrite Hhalf. exact I.
Qed.

Lemma nonneg_or_inf_nadd (a b : num) :
  nonneg_or_inf a -> nonneg_or_inf b -> nonneg_or_inf (nadd a b).
Proof.
  destruct a, b; simpl; try tauto. intros. lra.
Qed.

Section Invariant.

Variable Mexp : Q -> Q.

(** The Gaussian of a good profile is a finite product of the amplitude
    with a value of the exponential, or with the zero of exp(-Infinity). *)
Lemma gaussian_shape (p : Profile) (dSq : num) :
  good_profile p -> nonneg_or_inf dSq ->
  exists a e, (0 <= a)%Q /\ gaussian Mexp p dSq = Fin (a * e) /\
              (e = 0%Q \/ exists q, e = Mexp q).
Proof.
  intros [(s & Hs & Hspos) (a & Ha & Hapos)] Hd. unfold gaussian. rewrite Hs, Ha.
  assert (Hss : (0 < 2 * (s * s))%Q).
  { assert (0 < s * s)%Q by (apply Qmult_lt_0_compat; assumption). lra. }
  exists a. destruct dSq as [d| | |]; try contradiction.
  - autorewrite with fin. rewrite ndiv_Fin_pos by assumption.
    eexists. split; [assumption|]. split; [reflexivity|]. right. eauto.
  - autorewrite with fin. cbn [nneg ndiv]. rewrite Qsign_Gt by assumption.
    exists 0%Q. split; [assumption|]. split; [reflexivity|]. now left.
Qed.

Lemma distanceSq_nonneg_or_inf (cfg : Config) (bounds : Bounds) (r : Resource) (x y : Z) :
  good_config cfg -> covers cfg bounds r x y = true ->
  nonneg_or_inf (distanceSq cfg bounds r x y).
Proof.
  intros Hcfg Hcov.
  destruct (paramsOf_cases cfg r Hcfg) as [Hgood|Hnone];
    [|rewrite covers_no_profile in Hcov by assumption; discriminate].
  destruct (cutoffOf_good cfg r Hcfg Hgood) as (c & Hc & _).
  unfold covers, minX, maxX, minY, maxY in Hcov. rewrite Hc in Hcov.
  apply andb_true_iff in Hcov. destruct Hcov as [Hx Hy].
  unfold distanceSq, centerLat, centerLng.
  apply nonneg_or_inf_nadd; eapply axis_square; eassumption.
Qed.

Lemma contribution_finite (cfg : Config) (bounds : Bounds) (r : Resource) (x y : Z) :
  good_config cfg -> covers cfg bounds r x y = true ->
  is_finite (contribution Mexp cfg bounds r x y).
Proof.
  intros Hcfg Hcov. unfold contribution.
  destruct (paramsOf_cases cfg r Hcfg) as [Hgood|Hnone];
    [|rewrite covers_no_profile in Hcov by assumption; discriminate].
  destruct (gaussian_shape (paramsOf cfg r) (distanceSq cfg bounds r x y))
    as (a & e & _ & -> & _).
  - assumption.
  - now apply distanceSq_nonneg_or_inf.
  - exact I.
Qed.

Lemma contribution_nonneg (cfg : Config) (bounds : Bounds) (r : Resource) (x y : Z) :
  (forall q, 0 <= Mexp q)%Q ->
  good_config cfg -> covers cfg bounds r x y = true ->
  nonneg (contribution Mexp cfg bounds r x y).
Proof.
  intros Hexp Hcfg Hcov. unfold contribution.
  destruct (paramsOf_cases cfg r Hcfg) as [Hgood|Hnone];
    [|rewrite covers_no_profile in Hcov by assumption; discriminate].
  destruct (gaussian_shape (paramsOf cfg r) (distanceSq cfg bounds r x y))
    as (a & e & Ha & -> & He).
  - assumption.
  - now apply distanceSq_nonneg_or_inf.
  - simpl. apply Qmult_le_0_compat; [assumption|].
    destruct He as [->|(q & ->)]; [apply Qle_refl|apply Hexp].
Qed.

Lemma Forall_add_at (P : num -> Prop) (f : list num) (idx : Z) (e : num) :
  (forall v, P v -> P (nadd v e)) -> Forall P f -> Forall P (add_at f idx e).
Proof.
  intros HP Hf. unfold add_at. destruct (idx <? 0); [assumption|].
  apply Forall_alter; [assumption|]. intros v _ Hv. now apply HP.
Qed.

Lemma Forall_fold_left {A} (P : num -> Prop) (step : list num -> A -> list num)
    (l : list A) (f : list num) :
  (forall x g, x ∈ l -> Forall P g -> Forall P (step g x)) ->
  Forall P f -> Forall P (fold_left step l f).
Proof.
  revert f. induction l as [|x l IH]; intros f Hstep Hf; simpl; [assumption|].
  apply IH.
  - intros x' g Hx'. apply Hstep. now right.
  - apply Hstep; [left|assumption].
Qed.

(** A property of the cells that survives the addition of every
    contribution of a covered cell survives a resource. *)
Lemma Forall_addResource (P : num -> Prop) (cfg : Config) (bounds : Bounds)
    (f : list num) (r : Resource) :
  (forall x y v, covers cfg bounds r x y = true -> P v ->
                 P (nadd v (contribution Mexp cfg bounds r x y))) ->
  Forall P f -> Forall P (addResource Mexp cfg bounds f r).
Proof.
  intros HP Hf. unfold addResource.
  apply Forall_fold_left; [|assumption].
  intros y g Hy Hg. apply Forall_fold_left; [|assumption].
  intros x g' Hx Hg'. apply Forall_add_at; [|assumption].
  intros v Hv. apply (HP x y v); [|assumption].
  unfold covers. apply andb_true_iff. split; now apply elem_of_for_range.
Qed.

Lemma Forall_generateScalarField (P : num -> Prop) (resources : list Resource)
    (bounds : Bounds) (w : World) :
  P (Fin 0) ->
  (forall r x y v, covers (CONFIG w) bounds r x y = true -> P v ->
                   P (nadd v (contribution Mexp (CONFIG w) bounds r x y))) ->
  Forall P (run (generateScalarField Mexp resources bounds) w).
Proof.
  intros H0 HP. unfold run, generateScalarField, bind, getConfig, ret. cbn [fst].
  apply Forall_fold_left.
  - intros r g _ Hg. apply Forall_addResource; [|assumption].
    intros x y v. apply HP.
  - unfold newField. now apply Forall_replicate.
Qed.

Lemma generateScalarField_finite (resources : list Resource) (bounds : Bounds) (w : World) :
  good_config (CONFIG w) ->
  Forall is_finite (run (generateScalarField Mexp resources bounds) w).
Proof.
  intros Hcfg. apply Forall_generateScalarField; [exact I|].
  intros r x y v Hcov Hv.
  pose proof (contribution_finite (CONFIG w) bounds r x y Hcfg Hcov) as He.
  destruct v, (contribution Mexp (CONFIG w) bounds r x y); simpl in *; tauto.
Qed.

Lemma generateScalarField_nonneg (resources : list Resource) (bounds : Bounds) (w : World) :
  (forall q, 0 <= Mexp q)%Q ->
  good_config (CONFIG w) ->
  Forall nonneg (run (generateScalarField Mexp resources bounds) w).
Proof.
  intros Hexp Hcfg. apply Forall_generateScalarField; [apply Qle_refl|].
  intros r x y v Hcov Hv.
  pose proof (contribution_nonneg (CONFIG w) bounds r x y Hexp Hcfg Hcov) as He.
  destruct v, (contribution Mexp (CONFIG w) bounds r x y); simpl in *; try tauto.
  lra.
Qed.

End Invariant.

Lemma scan_step_nonneg (l : list num) (a b : Q) :
  Forall nonneg l -> (0 <= a)%Q -> (a <= b)%Q ->
  exists mn mx,
    fold_left
      (fun mm val =>
         (if nlt val (fst mm) then val else fst mm,
          if nlt (snd mm) val then val else snd mm))
      l (Fin a, Fin b) = (Fin mn, Fin mx) /\ (0 <= mn)%Q /\ (mn <= mx)%Q.
Proof.
  intros Hl. revert a b. induction Hl as [|v l Hv _ IH]; intros a b Ha Hab.
  - exists a, b. auto.
  - destruct v as [q| | |]; try contradiction. simpl in Hv.
    cbn [fold_left fst snd].
    destruct (nlt (Fin q) (Fin a)) eqn:E1; destruct (nlt (Fin b) (Fin q)) eqn:E2;
      try (apply nlt_Fin in E1); try (apply nlt_Fin in E2);
      try (apply nlt_Fin_false in E1); try (apply nlt_Fin_false in E2);
      apply IH; lra.
Qed.

Lemma scanMinMax_nonneg (field : list num) :
  field <> [] -> Forall nonneg field ->
  exists mn mx, scanMinMax field = (Fin mn, Fin mx) /\ (0 <= mn)%Q /\ (mn <= mx)%Q.
Proof.
  intros Hne Hall. destruct Hall as [|v l Hv Hl]; [congruence|].
  destruct v as [q| | |]; try contradiction. simpl in Hv.
  unfold scanMinMax. cbn [fold_left fst snd nlt].
  apply scan_step_nonneg; [assumption|assumption|apply Qle_refl].
Qed.

(** ** C9: a degenerate window *)

(** In the window reduced to one point the cell sizes are 0, the two
    quotients of the range are -Infinity and +Infinity, and the clamps
    turn them into the whole row. *)
Lemma degenerate_window_division :
  cellWidth CONFIG0 windowPoint = Fin ((1 - 1) / 150) /\
  ndiv (nsub (nsub (lng hospitalAt1) (cutoffOf CONFIG0 hospitalAt1)) (west windowPoint))
       (cellWidth CONFIG0 windowPoint) = NInf /\
  ndiv (nsub (nadd (lng hospitalAt1) (cutoffOf CONFIG0 hospitalAt1)) (west windowPoint))
       (cellWidth CONFIG0 windowPoint) = PInf /\
  for_range (minX CONFIG0 windowPoint hospitalAt1) (maxX CONFIG0 windowPoint hospitalAt1)
  = zrange 0 149.
Proof. repeat split. Qed.

(** C9.  For a window with [south == north] or [west == east] the grid
    [generateScalarField] returns holds finite numbers only, whatever the
    points: neither NaN nor an infinity. *)
Theorem degenerate_window_field_finite (Mexp : Q -> Q)
    (resources : list Resource) (bounds : Bounds) (w : World) :
  good_config (CONFIG w) ->
  num_eq (south bounds) (north bounds) \/ num_eq (west bounds) (east bounds) ->
  Forall is_finite (run (generateScalarField Mexp resources bounds) w).
Proof.
  intros Hcfg _. now apply generateScalarField_finite.
Qed.

Lemma degenerate_window_field_finite_witness :
  Forall is_finite
    (run (generateScalarField exp_pade
            [hospitalAt1; hospital75; mkResource 4 "clinic" NaN PInf] windowPoint) world0).
Proof.
  apply (degenerate_window_field_finite exp_pade
           [hospitalAt1; hospital75; mkResource 4 "clinic" NaN PInf] windowPoint world0).
  - apply good_config_CONFIG0.
  - left. reflexivity.
Defined.

(** ** C10: the field is finite and non-negative *)

(** C10.  Under a configuration whose profiles have positive spreads and
    non-negative amplitudes, and for every point list and every window,
    each cell of the grid [generateScalarField] returns is finite and
    non-negative, and the minimum and maximum [generateContours] scans
    satisfy [0 <= min <= max]. *)
Theorem field_nonneg_and_ordered (Mexp : Q -> Q)
    (Mexp_nonneg : forall q, (0 <= Mexp q)%Q)
    (resources : list Resource) (bounds : Bounds) (w : World) :
  good_config (CONFIG w) ->
  0 < gridWidth (CONFIG w) -> 0 < gridHeight (CONFIG w) ->
  let field := run (generateScalarField Mexp resources bounds) w in
  Forall nonneg field /\
  exists mn mx,
    scanMinMax field = (Fin mn, Fin mx) /\ (0 <= mn)%Q /\ (mn <= mx)%Q.
Proof.
  intros Hcfg HW HH field.
  assert (Hall : Forall nonneg field) by now apply generateScalarField_nonneg.
  split; [assumption|]. apply scanMinMax_nonneg; [|assumption].
  intros Hnil. apply (f_equal length) in Hnil. unfold field in Hnil.
  rewrite length_generateScalarField in Hnil. simpl in Hnil. nia.
Qed.

Lemma field_nonneg_and_ordered_witness :
  let field := run (generateScalarField exp_pade [hospital75; clinic20; unknown20] window15)
                   world0 in
  Forall nonneg field /\
  exists mn mx,
    scanMinMax field = (Fin mn, Fin mx) /\ (0 <= mn)%Q /\ (mn <= mx)%Q.
Proof.
  apply (field_nonneg_and_ordered exp_pade
           (fun q => Qlt_le_weak _ _ (exp_pade_pos q))
           [hospital75; clinic20; unknown20] window15 world0).
  - apply good_config_CONFIG0.
  - reflexivity.
  - reflexivity.
Defined.

(** * Further properties of the contour module *)

(** ** Every write stays inside the typed array *)

(** X1.  Whatever the points and the window, the index [y * gridWidth + x]
    of every cell the two loops of [generateScalarField] reach lies inside
    the Float32Array: no update is ever dropped as out of range. *)
Theorem writes_stay_in_bounds (cfg : Config) (bounds : Bounds) (r : Resource) (x y : Z) :
  x ∈ for_range (minX cfg bounds r) (maxX cfg bounds r) ->
  y ∈ for_range (minY cfg bounds r) (maxY cfg bounds r) ->
  0 <= x < gridWidth cfg /\ 0 <= y < gridHeight cfg /\
  0 <= y * gridWidth cfg + x < gridWidth cfg * gridHeight cfg /\
  (cellIndex cfg x y < length (newField cfg))%nat.
Proof.
  intros Hx Hy.
  apply elem_of_for_range, in_range_clamped in Hx.
  apply elem_of_for_range, in_range_clamped in Hy.
  assert (Hidx : 0 <= y * gridWidth cfg + x < gridWidth cfg * gridHeight cfg) by nia.
  repeat split; try lia.
  unfold cellIndex, newField. rewrite length_replicate. lia.
Qed.

Lemma writes_stay_in_bounds_witness :
  0 <= 78 < gridWidth CONFIG0 /\ 0 <= 73 < gridHeight CONFIG0 /\
  0 <= 73 * gridWidth CONFIG0 + 78 < gridWidth CONFIG0 * gridHeight CONFIG0 /\
  (cellIndex CONFIG0 78 73 < length (newField CONFIG0))%nat.
Proof.
  apply (writes_stay_in_bounds CONFIG0 window15 hospital75 78 73).
  - apply elem_of_for_range. reflexivity.
  - apply elem_of_for_range. reflexivity.
Defined.

(** ** Resources that are ignored *)

Lemma for_range_nil (lo hi : num) :
  (forall z, in_range lo hi z = false) -> for_range lo hi = [].
Proof.
  intros H. destruct (for_range lo hi) as [|z l] eqn:E; [reflexivity|].
  assert (Hz : z ∈ for_range lo hi) by (rewrite E; left).
  apply elem_of_for_range in Hz. rewrite H in Hz. discriminate.
Qed.

Lemma addResource_no_columns (Mexp : Q -> Q) (cfg : Config) (bounds : Bounds)
    (f : list num) (r : Resource) :
  for_range (minX cfg bounds r) (maxX cfg bounds r) = [] ->
  addResource Mexp cfg bounds f r = f.
Proof.
  intros H. unfold addResource. rewrite H.
  induction (for_range (minY cfg bounds r) (maxY cfg bounds r)) as [|y ys IH];
    [reflexivity|exact IH].
Qed.

Lemma addResource_no_rows (Mexp : Q -> Q) (cfg : Config) (bounds : Bounds)
    (f : list num) (r : Resource) :
  for_range (minY cfg bounds r) (maxY cfg bounds r) = [] ->
  addResource Mexp cfg bounds f r = f.
Proof. intros H. unfold addResource. now rewrite H. Qed.

Lemma axis_needs_finite_point (p o cw : num) (c0 : Q) (n z : Z) :
  in_range
    (Math_max (Fin 0) (Math_floor (ndiv (nsub (nsub p (Fin c0)) o) cw)))
    (Math_min (num_of_Z n) (Math_ceil (ndiv (nsub (nadd p (Fin c0)) o) cw)))
    z = true ->
  is_finite p.
Proof.
  intros H.
  destruct (axis_inputs_finite p o cw c0) as ((p0 & o0 & -> & _) & _).
  - eapply range_lo_shape; eassumption.
  - eapply range_hi_shape; eassumption.
  - exact I.
Qed.

(** X2.  A resource whose latitude or longitude is NaN or infinite, or
    whose type names a property inherited from Object.prototype, is
    ignored: it leaves the field exactly as it was. *)
Theorem resource_ignored (Mexp : Q -> Q) (cfg : Config) (bounds : Bounds)
    (f : list num) (r : Resource) :
  good_config cfg ->
  ~ is_finite (lat r) \/ ~ is_finite (lng r) \/ paramsOf cfg r = no_profile ->
  addResource Mexp cfg bounds f r = f.
Proof.
  intros Hcfg Hbad.
  destruct (paramsOf_cases cfg r Hcfg) as [Hgood|Hnone].
  - destruct (cutoffOf_good cfg r Hcfg Hgood) as (c & Hc & _).
    destruct Hbad as [Hlat|[Hlng|Hnone]].
    + apply addResource_no_rows, for_range_nil. intros z.
      destruct (in_range _ _ z) eqn:E; [|reflexivity].
      exfalso. apply Hlat. unfold minY, maxY in E. rewrite Hc in E.
      eapply axis_needs_finite_point; eassumption.
    + apply addResource_no_columns, for_range_nil. intros z.
      destruct (in_range _ _ z) eqn:E; [|reflexivity].
      exfalso. apply Hlng. unfold minX, maxX in E. rewrite Hc in E.
      eapply axis_needs_finite_point; eassumption.
    + apply addResource_no_columns, for_range_nil. intros z.
      pose proof (covers_no_profile cfg bounds r z 0 Hnone) as Hcov.
      unfold covers, minX, cutoffOf in *. rewrite Hnone in *. cbn [sigma no_profile] in *.
      replace (nmul (cutoffMultiplier cfg) NaN) with NaN
        by (now destruct (cutoffMultiplier cfg)).
      replace (nsub (lng r) NaN) with NaN by (now destruct (lng r)).
      reflexivity.
  - apply addResource_no_columns, for_range_nil. intros z.
    unfold minX, cutoffOf. rewrite Hnone. cbn [sigma no_profile].
    replace (nmul (cutoffMultiplier cfg) NaN) with NaN
      by (now destruct (cutoffMultiplier cfg)).
    replace (nsub (lng r) NaN) with NaN by (now destruct (lng r)).
    reflexivity.
Qed.

Lemma resource_ignored_witness :
  addResource exp_pade CONFIG0 window15 flatHalf (mkResource 4 "clinic" NaN (Fin 1)) = flatHalf /\
  addResource exp_pade CONFIG0 window15 flatHalf (mkResource 9 "toString" (Fin 1) (Fin 1))
  = flatHalf.
Proof.
  split; apply resource_ignored; try apply good_config_CONFIG0.
  - left. simpl. tauto.
  - right; right. reflexivity.
Defined.

Lemma zrange_nil (lo hi : Z) : hi < lo -> zrange lo hi = [].
Proof. intros H. unfold zrange. now replace (Z.to_nat (hi - lo + 1)) with 0%nat by lia. Qed.

Lemma Qfloor_clamp_lo (q : Q) :
  exists m, Math_max (Fin 0) (Math_floor (Fin q)) = Fin m /\
            0 <= Qfloor m /\ Qfloor q <= Qfloor m.
Proof.
  rewrite Math_floor_Fin.
  destruct (Math_max_0_Fin (inject_Z (Qfloor q))) as (m & -> & [[-> Hle]|[-> Hlt]]);
    eexists; (split; [reflexivity|]).
  - change (Qfloor 0) with 0. change 0%Q with (inject_Z 0) in Hle.
    rewrite <- Zle_Qle in Hle. lia.
  - rewrite Qfloor_inject_Z. change 0%Q with (inject_Z 0) in Hlt.
    rewrite <- Zlt_Qlt in Hlt. lia.
Qed.

Lemma Qceiling_clamp_hi (q : Q) (n : Z) :
  exists m, Math_min (num_of_Z n) (Math_ceil (Fin q)) = Fin m /\
            Qfloor m <= n /\ Qfloor m <= Qceiling q.
Proof.
  rewrite Math_ceil_Fin. unfold num_of_Z.
  destruct (Math_min_Fin (inject_Z n) (inject_Z (Qceiling q))) as (m & -> & [[-> Hle]|[-> Hlt]]);
    eexists; (split; [reflexivity|]); rewrite Qfloor_inject_Z.
  - rewrite <- Zle_Qle in Hle. lia.
  - rewrite <- Zlt_Qlt in Hlt. lia.
Qed.

(** Along one axis: a point whose cutoff interval ends a full cell before
    the window, or begins at its far edge or beyond, reaches no cell. *)
Lemma inject_Z_pos (n : Z) : 0 < n -> (0 < inject_Z n)%Q.
Proof. intros H. change 0%Q with (inject_Z 0). now rewrite <- Zlt_Qlt. Qed.

Lemma axis_out_of_reach (p c o hi : Q) (n : Z) :
  (o < hi)%Q -> 0 < n ->
  (hi <= p - c \/ p + c <= o - (hi - o) / inject_Z n)%Q ->
  for_range
    (Math_max (Fin 0)
       (Math_floor (ndiv (nsub (nsub (Fin p) (Fin c)) (Fin o))
                         (ndiv (nsub (Fin hi) (Fin o)) (num_of_Z n)))))
    (Math_min (num_of_Z (n - 1))
       (Math_ceil (ndiv (nsub (nadd (Fin p) (Fin c)) (Fin o))
                        (ndiv (nsub (Fin hi) (Fin o)) (num_of_Z n)))))
  = [].
Proof.
  intros Hw Hn Hfar.
  assert (HN : (0 < inject_Z n)%Q)
    by (change 0%Q with (inject_Z 0); now rewrite <- Zlt_Qlt).
  unfold num_of_Z at 1 3. autorewrite with fin. rewrite (ndiv_Fin_pos _ _ HN).
  set (cw := ((hi - o) / inject_Z n)%Q) in *.
  assert (Hcw : (0 < cw)%Q) by (apply Qlt_shift_div_l; [assumption|lra]).
  assert (Hspan : (cw * inject_Z n == hi - o)%Q) by (unfold cw; field; lra).
  rewrite !ndiv_Fin_pos by assumption.
  destruct (Qfloor_clamp_lo ((p - c - o) / cw)) as (lo' & -> & Hlo0 & Hlo).
  destruct (Qceiling_clamp_hi ((p + c - o) / cw) (n - 1)) as (hi' & -> & Hhi0 & Hhi).
  unfold for_range. apply zrange_nil.
  destruct Hfar as [Heast|Hwest].
  - assert (Hq : (inject_Z n <= (p - c - o) / cw)%Q).
    { apply Qle_shift_div_l; [assumption|]. rewrite Qmult_comm, Hspan. lra. }
    apply Qfloor_resp_le in Hq. rewrite Qfloor_inject_Z in Hq. lia.
  - assert (Hq : ((p + c - o) / cw <= inject_Z (-1))%Q).
    { apply Qle_shift_div_r; [assumption|]. change (inject_Z (-1)) with (-1)%Q. lra. }
    apply Qceiling_resp_le in Hq. rewrite Qceiling_Z in Hq. lia.
Qed.

(** X3.  In a geographic window with cells of at least 10^-9 degree, a
    point given in degrees, with a cutoff of at most 360 degrees, whose
    cutoff square begins a full cell or more beyond the east (north) edge,
    or ends two cells or more before the west (south) edge, changes no
    cell; a point list made of such points gives the all-zero grid and no
    contour. *)
Theorem resource_out_of_reach (Mexp : Q -> Q)
    (isorings : Z -> Z -> list num -> num -> MultiPolygon)
    (bounds : Bounds) (w : World) (w0 e0 s0 n0 : Q) :
  west bounds = Fin w0 -> east bounds = Fin e0 ->
  south bounds = Fin s0 -> north bounds = Fin n0 ->
  geographic bounds ->
  0 < gridWidth (CONFIG w) -> 0 < gridHeight (CONFIG w) ->
  let cw := ((e0 - w0) / inject_Z (gridWidth (CONFIG w)))%Q in
  let ch := ((n0 - s0) / inject_Z (gridHeight (CONFIG w)))%Q in
  (smallestCell <= cw)%Q -> (smallestCell <= ch)%Q ->
  let far r :=
    exists lo la c,
      lng r = Fin lo /\ lat r = Fin la /\ cutoffOf (CONFIG w) r = Fin c /\
      degrees (lng r) /\ degrees (lat r) /\ (0 <= c <= 360)%Q /\
      (e0 + cw <= lo - c \/ lo + c <= w0 - 2 * cw \/
       n0 + ch <= la - c \/ la + c <= s0 - 2 * ch)%Q in
  (forall (f : list num) (r : Resource),
      far r -> addResource Mexp (CONFIG w) bounds f r = f) /\
  (forall (resources : list Resource) (pixelBounds : PixelBounds),
      Forall far resources ->
      run (generateScalarField Mexp resources bounds) w = newField (CONFIG w) /\
      res_contours (run (process Mexp isorings resources bounds pixelBounds) w) = []).
Proof.
  intros Hw He Hs Hn _ HW HH cw ch Hcw Hch far.
  pose proof (inject_Z_pos _ HW) as HWq. pose proof (inject_Z_pos _ HH) as HHq.
  assert (Hcwpos : (0 < cw)%Q) by (unfold smallestCell in Hcw; lra).
  assert (Hchpos : (0 < ch)%Q) by (unfold smallestCell in Hch; lra).
  assert (Hwe : (w0 < e0)%Q).
  { assert (E : (e0 - w0 == cw * inject_Z (gridWidth (CONFIG w)))%Q)
      by (unfold cw; field; lra).
    assert (0 < cw * inject_Z (gridWidth (CONFIG w)))%Q
      by (apply Qmult_lt_0_compat; assumption).
    lra. }
  assert (Hsn : (s0 < n0)%Q).
  { assert (E : (n0 - s0 == ch * inject_Z (gridHeight (CONFIG w)))%Q)
      by (unfold ch; field; lra).
    assert (0 < ch * inject_Z (gridHeight (CONFIG w)))%Q
      by (apply Qmult_lt_0_compat; assumption).
    lra. }
  assert (Hone : forall f r, far r -> addResource Mexp (CONFIG w) bounds f r = f).
  { intros f r (lo & la & c & Hlo & Hla & Hc & _ & _ & _ & Hfar).
    destruct Hfar as [H|[H|[H|H]]].
    - apply addResource_no_columns. unfold minX, maxX, cellWidth.
      rewrite Hlo, Hc, Hw, He. apply axis_out_of_reach; auto. left. lra.
    - apply addResource_no_columns. unfold minX, maxX, cellWidth.
      rewrite Hlo, Hc, Hw, He. apply axis_out_of_reach; auto. right. fold cw. lra.
    - apply addResource_no_rows. unfold minY, maxY, cellHeight.
      rewrite Hla, Hc, Hs, Hn. apply axis_out_of_reach; auto. left. lra.
    - apply addResource_no_rows. unfold minY, maxY, cellHeight.
      rewrite Hla, Hc, Hs, Hn. apply axis_out_of_reach; auto. right. fold ch. lra. }
  split; [exact Hone|].
  intros resources pixelBounds Hall.
  assert (Hfield : run (generateScalarField Mexp resources bounds) w = newField (CONFIG w)).
  { unfold run, generateScalarField, bind, getConfig, ret. cbn [fst].
    generalize (newField (CONFIG w)). induction Hall as [|r rs Hr _ IH]; intros f.
    - reflexivity.
    - simpl. rewrite (Hone f r Hr). apply IH. }
  split; [exact Hfield|].
  rewrite process_run. cbv zeta. cbn [res_contours]. rewrite Hfield.
  rewrite generateContours_below_floor by apply scanMinMax_zeros. reflexivity.
Qed.

Lemma resource_out_of_reach_witness :
  run (generateScalarField exp_pade [hospitalFar] window15) world0 = newField CONFIG0 /\
  res_contours (run (process exp_pade squareRing [hospitalFar] window15 screen) world0) = [].
Proof.
  destruct (resource_out_of_reach exp_pade squareRing window15 world0 0 (15 # 10) 0 (15 # 10))
    as [_ Hall]; try reflexivity.
  - repeat split; discriminate.
  - discriminate.
  - discriminate.
  - apply Hall. constructor; [|constructor].
    exists 2%Q, (755 # 1000)%Q, (3 * (6 # 1000))%Q.
    split; [reflexivity|]. split; [reflexivity|]. split; [reflexivity|].
    split; [split; discriminate|]. split; [split; discriminate|].
    split; [split; discriminate|].
    left. vm_compute. discriminate.
Defined.

(** ** Resources only add energy *)

Lemma raised_nadd (a b e : num) : raised a b -> nonneg e -> raised a (nadd b e).
Proof.
  intros (x & y & -> & -> & Hxy) He. destruct e as [q| | |]; try contradiction.
  simpl in He. exists x, (y + q)%Q. repeat split. lra.
Qed.

Lemma raised_trans (a b c : num) : raised a b -> raised b c -> raised a c.
Proof.
  intros (x & y & -> & -> & Hxy) (y' & z & Hy & -> & Hyz). injection Hy as <-.
  exists x, z. repeat split. lra.
Qed.

Lemma Forall2_fold_left {A} (R : num -> num -> Prop) (step : list num -> A -> list num)
    (l : list A) (f0 g : list num) :
  (forall x g', x ∈ l -> Forall2 R f0 g' -> Forall2 R f0 (step g' x)) ->
  Forall2 R f0 g -> Forall2 R f0 (fold_left step l g).
Proof.
  revert g. induction l as [|x l IH]; intros g Hstep Hg; simpl; [assumption|].
  apply IH.
  - intros x' g' Hx'. apply Hstep. now right.
  - apply Hstep; [left|assumption].
Qed.

Lemma addResource_raises (Mexp : Q -> Q) (cfg : Config) (bounds : Bounds)
    (f0 g : list num) (r : Resource) :
  (forall q, 0 <= Mexp q)%Q -> good_config cfg ->
  Forall2 raised f0 g -> Forall2 raised f0 (addResource Mexp cfg bounds g r).
Proof.
  intros Hexp Hcfg Hg. unfold addResource.
  apply Forall2_fold_left; [|assumption].
  intros y g1 Hy Hg1. apply Forall2_fold_left; [|assumption].
  intros x g2 Hx Hg2. unfold add_at. destruct (_ <? 0); [assumption|].
  apply Forall2_alter_r; [assumption|].
  intros a b _ _ Hab. apply raised_nadd; [assumption|].
  apply (contribution_nonneg Mexp cfg bounds r x y Hexp Hcfg).
  unfold covers. apply andb_true_iff. split; now apply elem_of_for_range.
Qed.

(** X4.  Under the initial configuration, adding points to the list never
    lowers a cell: every cell of the field of [resources ++ more] is
    finite and at least the same cell of the field of [resources]. *)
Theorem field_only_grows (Mexp : Q -> Q)
    (Mexp_nonneg : forall q, (0 <= Mexp q)%Q)
    (resources more : list Resource) (bounds : Bounds) (w : World) :
  CONFIG w = CONFIG0 ->
  Forall2 raised
    (run (generateScalarField Mexp resources bounds) w)
    (run (generateScalarField Mexp (resources ++ more) bounds) w).
Proof.
  intros Hinit.
  assert (Hcfg : good_config (CONFIG w)) by (rewrite Hinit; apply good_config_CONFIG0).
  pose proof (generateScalarField_finite Mexp resources bounds w Hcfg) as Hfin.
  unfold run, generateScalarField, bind, getConfig, ret in *. cbn [fst] in *.
  rewrite fold_left_app.
  apply Forall2_fold_left.
  - intros r g _ Hg. now apply addResource_raises.
  - apply Forall_Forall2_diag. eapply Forall_impl; [exact Hfin|].
    intros [q| | |] Hq; try contradiction. exists q, q. repeat split. apply Qle_refl.
Qed.

Lemma field_only_grows_witness :
  Forall2 raised
    (run (generateScalarField exp_pade [hospital75] window15) world0)
    (run (generateScalarField exp_pade ([hospital75] ++ [clinic20; unknown20]) window15) world0).
Proof.
  apply (field_only_grows exp_pade (fun q => Qlt_le_weak _ _ (exp_pade_pos q))
           [hospital75] [clinic20; unknown20] window15 world0).
  reflexivity.
Defined.

(** ** How many contours, and which properties they carry *)

Lemma length_for_range_levels (n : Z) :
  length (for_range (Fin 1) (num_of_Z n)) = Z.to_nat n.
Proof. rewrite for_range_levels, length_zrange. lia. Qed.

Lemma generateContours_properties
    (isorings : Z -> Z -> list num -> num -> MultiPolygon)
    (field : list num) (options : Options) (w : World) :
  Forall (fun contour => is_Some (normalizedValue contour) /\
                         pixelCoordinates contour = None)
    (run (generateContours isorings field options) w).
Proof.
  destruct (nlt (snd (scanMinMax field)) floor001) eqn:E.
  - rewrite generateContours_below_floor by assumption. constructor.
  - rewrite generateContours_above_floor by assumption. cbv zeta.
    unfold d3_contours. rewrite map_map. apply Forall_fmap, Forall_true.
    intros t. cbn. split; [eexists; reflexivity|reflexivity].
Qed.

(** X5.  On a field of finite Float32 values [generateContours] returns
    either no contour (maximum below the floor) or exactly as many as
    there are levels; the level count is [options.levels] unless that is
    missing or 0, in which case it is [CONFIG.contourLevels]; a negative
    count gives no contour.  Every contour returned carries a
    [normalizedValue] and no [pixelCoordinates] yet. *)
Theorem generateContours_count
    (isorings : Z -> Z -> list num -> num -> MultiPolygon)
    (field : list num) (options : Options) (w : World) :
  Forall float32_finite field ->
  let n := or_default (o_levels options) (contourLevels (CONFIG w)) in
  let contours := run (generateContours isorings field options) w in
  (if nlt (snd (scanMinMax field)) floor001
   then contours = []
   else length contours = Z.to_nat n) /\
  (n <= 0 -> contours = []) /\
  (match o_levels options with
   | Some k => if k =? 0 then n = contourLevels (CONFIG w) else n = k
   | None => n = contourLevels (CONFIG w)
   end) /\
  Forall (fun contour => is_Some (normalizedValue contour) /\
                         pixelCoordinates contour = None) contours.
Proof.
  intros _ n contours.
  assert (Hlen : if nlt (snd (scanMinMax field)) floor001
                 then contours = [] else length contours = Z.to_nat n).
  { unfold contours. destruct (nlt (snd (scanMinMax field)) floor001) eqn:E.
    - now apply generateContours_below_floor.
    - rewrite generateContours_above_floor by assumption. cbv zeta.
      unfold d3_contours, thresholdsOf.
      rewrite !length_map. apply length_for_range_levels. }
  split; [exact Hlen|]. split; [|split].
  - intros Hn. destruct (nlt (snd (scanMinMax field)) floor001); [assumption|].
    apply nil_length_inv. lia.
  - unfold n, or_default. destruct (o_levels options) as [k|]; [|reflexivity].
    destruct (k =? 0); reflexivity.
  - apply generateContours_properties.
Qed.

Lemma generateContours_count_witness :
  run (generateContours squareRing [Fin 0; Fin 1] (mkOptions None None (Some (-3)))) world0 = [].
Proof.
  destruct (generateContours_count squareRing [Fin 0; Fin 1]
              (mkOptions None None (Some (-3))) world0) as (_ & Hneg & _).
  - repeat constructor.
  - apply Hneg. vm_compute. discriminate.
Defined.

(** ** The scan *)


(** X6.  On a non-empty field of finite values the scan of
    [generateContours] returns two cells of the field, the first at most
    and the second at least every cell. *)
Theorem scanMinMax_attained (field : list num) :
  field <> [] -> Forall is_finite field ->
  exists mn mx,
    scanMinMax field = (Fin mn, Fin mx) /\
    Fin mn ∈ field /\ Fin mx ∈ field /\
    (forall q, Fin q ∈ field -> mn <= q <= mx)%Q.
Proof.
  intros Hne Hall. destruct Hall as [|v l Hv Hl]; [congruence|].
  destruct v as [q0| | |]; try contradiction.
  unfold scanMinMax. cbn [fold_left fst snd nlt].
  destruct (scan_step_attained l q0 q0 Hl (Qle_refl _))
    as (mn & mx & -> & Hmn & Hmx & H1 & H2 & Hbound).
  exists mn, mx. split; [reflexivity|]. split; [|split].
  - destruct Hmn as [->|H]; [left|now right].
  - destruct Hmx as [->|H]; [left|now right].
  - intros q Hq. apply elem_of_cons in Hq. destruct Hq as [Hq|Hq].
    + injection Hq as ->. lra.
    + now apply Hbound.
Qed.

Lemma scanMinMax_attained_witness :
  exists mn mx,
    scanMinMax [Fin 3; Fin (1 # 2); Fin 7; Fin 2] = (Fin mn, Fin mx) /\
    Fin mn ∈ [Fin 3; Fin (1 # 2); Fin 7; Fin 2] /\
    Fin mx ∈ [Fin 3; Fin (1 # 2); Fin 7; Fin 2] /\
    (forall q, Fin q ∈ [Fin 3; Fin (1 # 2); Fin 7; Fin 2] -> mn <= q <= mx)%Q.
Proof.
  apply scanMinMax_attained.
  - discriminate.
  - repeat constructor.
Defined.

Lemma scan_fold_skips_NaN (l : list num) (mm : num * num) :
  fold_left
    (fun mm val =>
       (if nlt val (fst mm) then val else fst mm,
        if nlt (snd mm) val then val else snd mm))
    l mm =
  fold_left
    (fun mm val =>
       (if nlt val (fst mm) then val else fst mm,
        if nlt (snd mm) val then val else snd mm))
    (filter (fun v => isNaN v = false) l) mm.
Proof.
  revert mm. induction l as [|v l IH]; intros mm; [reflexivity|].
  rewrite filter_cons. destruct v as [q| | |]; simpl.
  - apply IH.
  - apply IH.
  - apply IH.
  - replace (nlt (snd mm) NaN) with false by (now destruct (snd mm)).
    rewrite IH. now destruct mm.
Qed.

(** X7.  The scan passes over NaN cells: a field and the same field
    without its NaN cells have the same minimum and maximum and, whatever
    the geometry, contours with the same thresholds and normalized values;
    a field of NaN cells only, like an empty field, gives no contour. *)
Theorem scan_skips_NaN
    (isorings : Z -> Z -> list num -> num -> MultiPolygon)
    (field : list num) (options : Options) (w : World) :
  let clean := filter (fun v => isNaN v = false) field in
  scanMinMax field = scanMinMax clean /\
  map value (run (generateContours isorings field options) w) =
  map value (run (generateContours isorings clean options) w) /\
  map normalizedValue (run (generateContours isorings field options) w) =
  map normalizedValue (run (generateContours isorings clean options) w) /\
  (clean = [] -> run (generateContours isorings field options) w = []).
Proof.
  intros clean.
  assert (Hscan : scanMinMax field = scanMinMax clean)
    by apply scan_fold_skips_NaN.
  split; [exact Hscan|].
  destruct (nlt (snd (scanMinMax field)) floor001) eqn:E.
  - rewrite (generateContours_below_floor isorings field) by assumption.
    rewrite (generateContours_below_floor isorings clean) by (now rewrite <- Hscan).
    repeat split.
  - rewrite (generateContours_above_floor isorings field) by assumption.
    rewrite (generateContours_above_floor isorings clean) by (now rewrite <- Hscan).
    cbv zeta. rewrite <- Hscan. unfold d3_contours. rewrite !map_map. cbn.
    repeat split.
    intros Hnil. rewrite Hscan, Hnil in E. discriminate.
Qed.

Lemma scan_skips_NaN_witness :
  run (generateContours squareRing [NaN; NaN; NaN] noOptions) world0 = [].
Proof.
  destruct (scan_skips_NaN squareRing [NaN; NaN; NaN] noOptions world0) as (_ & _ & _ & H).
  apply H. reflexivity.
Defined.

(** ** What [process] hands back *)

(** X8.  [process] returns the field of [generateScalarField] and the
    contours of [generateContours], each with its pixel coordinates added;
    [resourceCount] is the number of points, [contourLevels] the number of
    contours returned, [processingTime] the difference of the two clock
    readings; the call takes two readings, writes three lines to the
    console and leaves [CONFIG] alone. *)
Theorem process_result_consistent
    (Mexp : Q -> Q) (isorings : Z -> Z -> list num -> num -> MultiPolygon)
    (resources : list Resource) (bounds : Bounds) (pixelBounds : PixelBounds) (w : World) :
  let result := run (process Mexp isorings resources bounds pixelBounds) w in
  let w' := after (process Mexp isorings resources bounds pixelBounds) w in
  let field := run (generateScalarField Mexp resources bounds) w in
  let contours := run (generateContours isorings field noOptions) w in
  res_field result = field /\
  res_contours result = run (transformToPixels contours pixelBounds) w /\
  length (res_field result) = Z.to_nat (gridWidth (CONFIG w) * gridHeight (CONFIG w)) /\
  resourceCount (res_stats result) = length resources /\
  contourLevelCount (res_stats result) = length (res_contours result) /\
  processingTime (res_stats result) = nsub (timer w (S (reads w))) (timer w (reads w)) /\
  Forall (fun contour => is_Some (normalizedValue contour) /\
                         is_Some (pixelCoordinates contour)) (res_contours result) /\
  CONFIG w' = CONFIG w /\ timer w' = timer w /\ reads w' = S (S (reads w)) /\
  console w' =
    console w ++
    [ LogProcessing (length resources);
      (if nlt (snd (scanMinMax field)) floor001 then LogNoEnergy
       else LogGenerated (length contours));
      LogCompleted (processingTime (res_stats result)) ].
Proof.
  intros result w' field contours.
  assert (Hres : result =
            mkResult (run (transformToPixels contours pixelBounds) w) field
              (mkStats (length resources) (length contours)
                 (nsub (timer w (S (reads w))) (timer w (reads w)))))
    by apply process_run.
  assert (Hpix : length (run (transformToPixels contours pixelBounds) w) = length contours).
  { unfold run, transformToPixels, bind, getConfig, ret. cbn [fst]. apply length_map. }
  rewrite Hres. cbn [res_field res_contours res_stats resourceCount contourLevelCount
                     processingTime].
  split; [reflexivity|]. split; [reflexivity|].
  split; [apply length_generateScalarField|]. split; [reflexivity|].
  split; [now rewrite Hpix|]. split; [reflexivity|].
  split.
  { pose proof (generateContours_properties isorings field noOptions w) as Hall.
    fold contours in Hall.
    unfold run at 1. unfold transformToPixels, bind, getConfig, ret. cbn [fst].
    apply Forall_fmap. eapply Forall_impl; [exact Hall|].
    intros contour [Hn _]. cbn. split; [exact Hn|eexists; reflexivity]. }
  destruct (process_after Mexp isorings resources bounds pixelBounds w) as (Hc & Ht & Hr).
  fold w' in Hc, Ht, Hr.
  split; [exact Hc|]. split; [exact Ht|]. split; [exact Hr|].
  unfold w', after, process, generateScalarField, generateContours, transformToPixels,
    console_log, performance_now, getConfig, ret, bind.
  cbn [fst snd CONFIG timer reads console].
  fold (run (generateScalarField Mexp resources bounds) w).
  unfold field, contours, run, generateScalarField, generateContours,
    console_log, getConfig, ret, bind.
  cbn [fst snd CONFIG timer reads console].
  destruct (nlt _ floor001); cbn [fst snd console]; rewrite <- !app_assoc; reflexivity.
Qed.

(** ** The two coordinate transforms *)


Lemma pixelVertex_Fin (cfg : Config) (pixelBounds : PixelBounds) (l t pw ph x y : Q) :
  left pixelBounds = Fin l -> top pixelBounds = Fin t ->
  width pixelBounds = Fin pw -> height pixelBounds = Fin ph ->
  0 < gridWidth cfg -> 0 < gridHeight cfg ->
  pixelVertex cfg pixelBounds (Fin x, Fin y) =
  (Fin (l + x * (pw / inject_Z (gridWidth cfg))),
   Fin (t + (inject_Z (gridHeight cfg) - y) * (ph / inject_Z (gridHeight cfg)))).
Proof.
  intros Hl Ht Hw Hh HW HH. unfold pixelVertex, scaleX, scaleY, num_of_Z.
  cbn [fst snd]. rewrite Hl, Ht, Hw, Hh.
  rewrite !ndiv_Fin_pos by (apply inject_Z_pos; assumption).
  autorewrite with fin. reflexivity.
Qed.

Lemma scaled_between (x n d : Q) :
  (0 < n)%Q -> (0 <= d)%Q -> (0 <= x <= n)%Q -> (0 <= x * (d / n) <= d)%Q.
Proof.
  intros Hn Hd [Hx0 Hxn].
  assert (Hs : (0 <= d / n)%Q) by (apply Qle_shift_div_l; [assumption|lra]).
  assert (E : (n * (d / n) == d)%Q) by (field; lra).
  split.
  - apply Qmult_le_0_compat; assumption.
  - rewrite <- E at 2. apply Qmult_le_compat_r; assumption.
Qed.

Lemma scaled_le (x1 x2 n d : Q) :
  (0 < n)%Q -> (0 <= d)%Q -> (x1 <= x2)%Q -> (x1 * (d / n) <= x2 * (d / n))%Q.
Proof.
  intros Hn Hd Hx.
  assert (Hs : (0 <= d / n)%Q) by (apply Qle_shift_div_l; [assumption|lra]).
  apply Qmult_le_compat_r; assumption.
Qed.



(** X12.  For a raster of non-negative width and height, given in pixels,
    and a positive grid size, [transformToPixels] keeps every vertex of the
    grid rectangle [[0, gridWidth] x [0, gridHeight]] at or after the left
    and top sides of the raster and within a pixel of its right and lower
    sides; the grid corner [(0, gridHeight)] lands on [(left, top)]; and
    over the grid rectangle the pixel abscissa never decreases when the
    grid abscissa grows. *)
Theorem pixels_inside_raster (cfg : Config) (pixelBounds : PixelBounds) (l t pw ph : Q) :
  left pixelBounds = Fin l -> top pixelBounds = Fin t ->
  width pixelBounds = Fin pw -> height pixelBounds = Fin ph ->
  raster pixelBounds -> (0 <= pw)%Q -> (0 <= ph)%Q ->
  0 < gridWidth cfg -> 0 < gridHeight cfg ->
  let inGrid (x y : Q) :=
    (0 <= x <= inject_Z (gridWidth cfg))%Q /\ (0 <= y <= inject_Z (gridHeight cfg))%Q in
  (forall x y : Q,
      inGrid x y ->
      exists px py, pixelVertex cfg pixelBounds (Fin x, Fin y) = (Fin px, Fin py) /\
                    (l <= px <= l + pw + 1)%Q /\ (t <= py <= t + ph + 1)%Q) /\
  (exists px py, pixelVertex cfg pixelBounds (Fin 0, num_of_Z (gridHeight cfg))
                   = (Fin px, Fin py) /\ (px == l)%Q /\ (py == t)%Q) /\
  (forall x1 y1 x2 y2 : Q,
      inGrid x1 y1 -> inGrid x2 y2 -> (x1 <= x2)%Q ->
      exists px1 py1 px2 py2,
        pixelVertex cfg pixelBounds (Fin x1, Fin y1) = (Fin px1, Fin py1) /\
        pixelVertex cfg pixelBounds (Fin x2, Fin y2) = (Fin px2, Fin py2) /\
        (px1 <= px2)%Q).
Proof.
  intros Hl Ht Hpw Hph _ Hpw0 Hph0 HW HH inGrid.
  pose proof (inject_Z_pos _ HW) as HWq. pose proof (inject_Z_pos _ HH) as HHq.
  split; [|split].
  - intros x y [Hx Hy].
    eexists _, _. split; [apply (pixelVertex_Fin cfg pixelBounds l t pw ph); assumption|].
    pose proof (scaled_between x _ pw HWq Hpw0 Hx).
    pose proof (scaled_between (inject_Z (gridHeight cfg) - y) _ ph HHq Hph0 ltac:(lra)).
    split; lra.
  - eexists _, _. unfold num_of_Z.
    split; [apply (pixelVertex_Fin cfg pixelBounds l t pw ph); assumption|].
    split; field; lra.
  - intros x1 y1 x2 y2 _ _ Hle. eexists _, _, _, _.
    split; [apply (pixelVertex_Fin cfg pixelBounds l t pw ph); assumption|].
    split; [apply (pixelVertex_Fin cfg pixelBounds l t pw ph); assumption|].
    pose proof (scaled_le x1 x2 _ pw HWq Hpw0 Hle). lra.
Qed.

Lemma pixels_inside_raster_witness :
  exists px py, pixelVertex CONFIG0 screen (Fin 0, num_of_Z (gridHeight CONFIG0))
                  = (Fin px, Fin py) /\ (px == 0)%Q /\ (py == 0)%Q.
Proof.
  destruct (pixels_inside_raster CONFIG0 screen 0 0 800 600
              eq_refl eq_refl eq_refl eq_refl) as (_ & Hcorner & _).
  - repeat split; discriminate.
  - discriminate.
  - discriminate.
  - reflexivity.
  - reflexivity.
  - exact Hcorner.
Defined.

Lemma mapVertices_compose (f g : Vertex -> Vertex) (m : MultiPolygon) :
  mapVertices f (mapVertices g m) = mapVertices (fun v => f (g v)) m.
Proof.
  unfold mapVertices. rewrite map_map. apply map_ext. intros polygon.
  rewrite map_map. apply map_ext. intros ring. apply map_map.
Qed.

(** How the two transforms compose.  [transformToPixels] reads the
    [coordinates] and leaves them as they are, so applying it again replaces
    the pixel coordinates by those of the last raster; [transformToGeo]
    overwrites the [coordinates].  Pixels first and geography second gives
    pixel coordinates of the grid vertices; geography first and pixels
    second applies the pixel formula to longitudes and latitudes. *)
Theorem transforms_compose
    (contours : list Contour) (bounds : Bounds) (pixelBounds pixelBounds' : PixelBounds)
    (w : World) :
  let cfg := CONFIG w in
  run (transformToPixels (run (transformToPixels contours pixelBounds) w) pixelBounds') w
    = run (transformToPixels contours pixelBounds') w /\
  map coordinates (run (transformToPixels contours pixelBounds) w) = map coordinates contours /\
  run (transformToGeo (run (transformToPixels contours pixelBounds) w) bounds) w
    = map (fun contour =>
             mkContour (value contour)
               (mapVertices (geoVertex cfg bounds) (coordinates contour))
               (normalizedValue contour)
               (Some (mapVertices (pixelVertex cfg pixelBounds) (coordinates contour))))
          contours /\
  run (transformToPixels (run (transformToGeo contours bounds) w) pixelBounds) w
    = map (fun contour =>
             mkContour (value contour)
               (mapVertices (geoVertex cfg bounds) (coordinates contour))
               (normalizedValue contour)
               (Some (mapVertices
                        (fun v => pixelVertex cfg pixelBounds (geoVertex cfg bounds v))
                        (coordinates contour))))
          contours.
Proof.
  intros cfg. unfold run, transformToPixels, transformToGeo, bind, getConfig, ret.
  cbn [fst snd]. fold cfg. rewrite !map_map.
  split; [|split; [|split]]; try reflexivity.
  apply map_ext. intros contour. cbn [value coordinates normalizedValue pixelCoordinates].
  now rewrite mapVertices_compose.
Qed.

(** ** Changing the configuration *)

Lemma default_overlay {A} (c : A) (p q : option A) :
  default (default c p) q = default c (q ∪ p).
Proof. destruct p, q; reflexivity. Qed.

(** X13.  [updateConfig] changes [CONFIG] and nothing else; an object
    without properties changes nothing; two updates in a row are the update
    by the merged object, the later one winning, so that an update repeated
    is the update done once.  The new grid size is the size of the next
    field.  The merge is shallow: a new [typeParams] replaces the old one as
    a whole, and a type it does not list falls back to the default
    profile. *)
Theorem updateConfig_laws (p q : PartialConfig) (w : World) :
  let w' := after (updateConfig p) w in
  (timer w' = timer w /\ reads w' = reads w /\ console w' = console w) /\
  run getConfig w' = assign (CONFIG w) p /\
  after (updateConfig emptyConfig) w = w /\
  after (updateConfig q) w' = after (updateConfig (overlay p q)) w /\
  after (updateConfig p) w' = w' /\
  (forall (Mexp : Q -> Q) (resources : list Resource) (bounds : Bounds),
      length (run (generateScalarField Mexp resources bounds) w') =
      Z.to_nat (default (gridWidth (CONFIG w)) (p_gridWidth p)
                * default (gridHeight (CONFIG w)) (p_gridHeight p))) /\
  (forall (tp : gmap string Profile) (r : Resource),
      p_typeParams p = Some tp -> tp !! r_type r = None ->
      r_type r ∉ Object_prototype_names ->
      paramsOf (CONFIG w') r = default (defaultParams (CONFIG w)) (p_defaultParams p)).
Proof.
  intros w'. split; [repeat split|]. split; [reflexivity|].
  split; [destruct w as [[] ? ? ?]; reflexivity|].
  split.
  { unfold w', after, updateConfig, assign, overlay. cbn.
    rewrite !default_overlay. reflexivity. }
  split.
  { unfold w', after, updateConfig, assign. cbn.
    destruct p as [[] [] [] [] [] []]; reflexivity. }
  split.
  { intros Mexp resources bounds. rewrite length_generateScalarField. reflexivity. }
  intros tp r Htp Hnone Hnames.
  unfold paramsOf, w', after, updateConfig, assign. cbn. rewrite Htp. cbn.
  rewrite Hnone. rewrite decide_False by assumption. reflexivity.
Qed.

Lemma updateConfig_laws_witness :
  paramsOf (CONFIG (after (updateConfig onlyHospital) world0))
           (mkResource 9 "library" (Fin 1) (Fin 1)) = defaultParams CONFIG0 /\
  paramsOf (CONFIG world0) (mkResource 9 "library" (Fin 1) (Fin 1))
    = mkProfile (Qmil 5) (Fin (7 # 10)).
Proof.
  split; [|reflexivity].
  destruct (updateConfig_laws onlyHospital emptyConfig world0) as (_ & _ & _ & _ & _ & _ & H).
  refine (H _ (mkResource 9 "library" (Fin 1) (Fin 1)) eq_refl _ _).
  - reflexivity.
  - apply not_elem_of_names. reflexivity.
Defined.

(** ** A point inside the window is seen *)

Lemma point_in_own_range (p c o cw : Q) (n : Z) :
  (0 < cw)%Q -> (0 <= c)%Q -> 0 <= Qfloor ((p - o) / cw) <= n ->
  in_range
    (Math_max (Fin 0)
       (Math_floor (ndiv (nsub (nsub (Fin p) (Fin c)) (Fin o)) (Fin cw))))
    (Math_min (num_of_Z n)
       (Math_ceil (ndiv (nsub (nadd (Fin p) (Fin c)) (Fin o)) (Fin cw))))
    (Qfloor ((p - o) / cw)) = true.
Proof.
  intros Hcw Hc Hx.
  unfold nsub; simpl nadd; simpl nneg. rewrite !ndiv_Fin_pos by assumption.
  rewrite Math_floor_Fin, Math_ceil_Fin. unfold num_of_Z.
  set (q := ((p - o) / cw)%Q) in *.
  set (q1 := ((p + - c + - o) / cw)%Q).
  set (q2 := ((p + c + - o) / cw)%Q).
  assert (Hinv : (0 < / cw)%Q) by now apply Qinv_lt_0_compat.
  assert (H1 : (q1 <= q)%Q).
  { unfold q1, q, Qdiv. apply Qmult_le_compat_r; lra. }
  assert (H2 : (q <= q2)%Q).
  { unfold q2, q, Qdiv. apply Qmult_le_compat_r; lra. }
  destruct (Math_max_0_Fin (inject_Z (Qfloor q1))) as (lo & -> & Hlo).
  destruct (Math_min_Fin (inject_Z n) (inject_Z (Qceiling q2))) as (hi & -> & Hhi).
  apply in_range_Fin.
  - destruct Hlo as [[-> _]|[-> _]].
    + change (Qfloor 0) with 0. lia.
    + rewrite Qfloor_inject_Z. now apply Qfloor_resp_le.
  - destruct Hhi as [[-> _]|[-> _]]; rewrite Qfloor_inject_Z.
    + lia.
    + apply Qceiling_above. pose proof (Qfloor_le q). lra.
Qed.

Lemma floor_in_grid (p o hi : Q) (n : Z) :
  0 < n -> (o <= p < hi)%Q ->
  0 <= Qfloor ((p - o) / ((hi - o) / inject_Z n)) <= n - 1.
Proof.
  intros Hn [H1 H2].
  pose proof (inject_Z_pos n Hn) as Hnq.
  assert (Hcw : (0 < (hi - o) / inject_Z n)%Q) by (apply Qlt_shift_div_l; lra).
  split.
  - change 0 with (Qfloor 0). apply Qfloor_resp_le.
    apply Qle_shift_div_l; [assumption|]. lra.
  - apply Qfloor_below. replace (n - 1 + 1) with n by lia.
    apply Qlt_shift_div_r; [assumption|].
    assert (E : (inject_Z n * ((hi - o) / inject_Z n) == hi - o)%Q) by (field; lra).
    rewrite E. lra.
Qed.

Lemma paramsOf_configured (r : Resource) :
  r_type r ∉ Object_prototype_names -> good_profile (paramsOf CONFIG0 r).
Proof.
  intros Hname. destruct good_config_CONFIG0 as (Hall & Hdef & _).
  unfold paramsOf. destruct (typeParams CONFIG0 !! r_type r) as [p|] eqn:E.
  - exact (Hall _ _ E).
  - rewrite decide_False by assumption. exact Hdef.
Qed.

Lemma covers_own_cell (cfg : Config) (bounds : Bounds) (r : Resource)
    (w0 e0 s0 n0 lo la c : Q) :
  west bounds = Fin w0 -> east bounds = Fin e0 ->
  south bounds = Fin s0 -> north bounds = Fin n0 ->
  0 < gridWidth cfg -> 0 < gridHeight cfg ->
  lng r = Fin lo -> lat r = Fin la ->
  cutoffOf cfg r = Fin c -> (0 <= c)%Q ->
  (w0 <= lo < e0)%Q -> (s0 <= la < n0)%Q ->
  let x := Qfloor ((lo - w0) / ((e0 - w0) / inject_Z (gridWidth cfg))) in
  let y := Qfloor ((la - s0) / ((n0 - s0) / inject_Z (gridHeight cfg))) in
  0 <= x < gridWidth cfg /\ 0 <= y < gridHeight cfg /\
  covers cfg bounds r x y = true.
Proof.
  intros Hw He Hs Hn HW HH Hlng Hlat Hc Hcpos Hlo Hla x y.
  pose proof (inject_Z_pos _ HW) as HWq. pose proof (inject_Z_pos _ HH) as HHq.
  pose proof (floor_in_grid lo w0 e0 (gridWidth cfg) HW Hlo) as Hx. fold x in Hx.
  pose proof (floor_in_grid la s0 n0 (gridHeight cfg) HH Hla) as Hy. fold y in Hy.
  split; [lia|]. split; [lia|].
  assert (Hcw : cellWidth cfg bounds = Fin ((e0 - w0) / inject_Z (gridWidth cfg))).
  { unfold cellWidth, num_of_Z. rewrite He, Hw. autorewrite with fin.
    now rewrite ndiv_Fin_pos. }
  assert (Hch : cellHeight cfg bounds = Fin ((n0 - s0) / inject_Z (gridHeight cfg))).
  { unfold cellHeight, num_of_Z. rewrite Hn, Hs. autorewrite with fin.
    now rewrite ndiv_Fin_pos. }
  assert (Hcwpos : (0 < (e0 - w0) / inject_Z (gridWidth cfg))%Q)
    by (apply Qlt_shift_div_l; lra).
  assert (Hchpos : (0 < (n0 - s0) / inject_Z (gridHeight cfg))%Q)
    by (apply Qlt_shift_div_l; lra).
  unfold covers, minX, maxX, minY, maxY.
  rewrite Hcw, Hch, Hc, Hw, Hs, Hlng, Hlat. apply andb_true_iff. split.
  - apply point_in_own_range; solve [assumption | fold x; lia].
  - apply point_in_own_range; solve [assumption | fold y; lia].
Qed.

Lemma counted_in_own_cell (Mexp : Q -> Q) (resources : list Resource) (bounds : Bounds)
    (w : World) (r : Resource) (w0 e0 s0 n0 lo la : Q) :
  CONFIG w = CONFIG0 -> r_type r ∉ Object_prototype_names -> r ∈ resources ->
  west bounds = Fin w0 -> east bounds = Fin e0 ->
  south bounds = Fin s0 -> north bounds = Fin n0 ->
  lng r = Fin lo -> lat r = Fin la ->
  (w0 <= lo < e0)%Q -> (s0 <= la < n0)%Q ->
  let x := Qfloor ((lo - w0) / ((e0 - w0) / 150)) in
  let y := Qfloor ((la - s0) / ((n0 - s0) / 150)) in
  0 <= x < 150 /\ 0 <= y < 150 /\
  covers CONFIG0 bounds r x y = true /\
  r ∈ filter (fun r' => covers CONFIG0 bounds r' x y = true) resources /\
  run (generateScalarField Mexp resources bounds) w !! cellIndex CONFIG0 x y =
  Some (fieldSum Mexp CONFIG0 bounds resources x y).
Proof.
  intros Hcfg Hname Hin Hw He Hs Hn Hlng Hlat Hlo Hla x y.
  destruct (cutoffOf_good CONFIG0 r good_config_CONFIG0 (paramsOf_configured r Hname))
    as (c & Hc & Hcpos).
  destruct (covers_own_cell CONFIG0 bounds r w0 e0 s0 n0 lo la c
              Hw He Hs Hn eq_refl eq_refl Hlng Hlat Hc Hcpos Hlo Hla)
    as (Hx & Hy & Hcov).
  change (inject_Z (gridWidth CONFIG0)) with 150%Q in Hx, Hy, Hcov.
  change (gridWidth CONFIG0) with 150 in Hx. change (gridHeight CONFIG0) with 150 in Hy.
  fold x in Hx, Hcov. fold y in Hy, Hcov.
  split; [exact Hx|]. split; [exact Hy|]. split; [exact Hcov|]. split.
  - apply list_elem_of_filter. split; assumption.
  - rewrite <- Hcfg. apply generateScalarField_superposition; rewrite Hcfg; assumption.
Qed.



(** * Properties of the Overpass parser *)

(** ** Resource types *)

Lemma getResourceType_in (tags : option Tags) (t : string) :
  getResourceType tags = Some t -> t ∈ resourceTypes.
Proof.
  unfold getResourceType, resourceTypes. destruct tags as [tags|]; [|discriminate].
  repeat (match goal with |- context [if ?c then _ else _] => destruct c end);
    intros [= <-]; set_solver.
Qed.

Lemma resourceTypes_configured (t : string) :
  t ∈ resourceTypes ->
  (t ∉ Object_prototype_names) /\
  exists p, typeParams CONFIG0 !! t = Some p /\ good_profile p.
Proof.
  intros Hin. split.
  - unfold resourceTypes in Hin. apply not_elem_of_names.
    repeat (apply elem_of_cons in Hin as [->|Hin]; [reflexivity|]).
    inversion Hin.
  - destruct good_config_CONFIG0 as (Hall & _).
    assert (Hsome : is_Some (typeParams CONFIG0 !! t)).
    { unfold resourceTypes in Hin.
      repeat (apply elem_of_cons in Hin as [->|Hin]; [eexists; reflexivity|]).
      inversion Hin. }
    destruct Hsome as [p Hp]. exists p. split; [exact Hp|]. exact (Hall t p Hp).
Qed.

(** X15.  [getResourceType] answers with one of seven names, and each of
    them is a property of the engine's own [typeParams]: a resource of that
    type gets the profile configured for it, never the default one and
    never an inherited property. *)
Theorem getResourceType_known (tags : option Tags) (t : string) :
  getResourceType tags = Some t ->
  t ∈ resourceTypes /\
  (t ∉ Object_prototype_names) /\
  exists p, typeParams CONFIG0 !! t = Some p /\ good_profile p /\
            forall r : Resource, r_type r = t -> paramsOf CONFIG0 r = p.
Proof.
  intros Ht. apply getResourceType_in in Ht.
  destruct (resourceTypes_configured t Ht) as (Hnames & p & Hp & Hgood).
  split; [exact Ht|]. split; [exact Hnames|].
  exists p. split; [exact Hp|]. split; [exact Hgood|].
  intros r <-. unfold paramsOf. now rewrite Hp.
Qed.

Lemma getResourceType_known_witness :
  "social"%string ∈ resourceTypes /\
  ("social"%string ∉ Object_prototype_names) /\
  exists p, typeParams CONFIG0 !! "social"%string = Some p /\ good_profile p /\
            forall r : Resource, r_type r = "social"%string -> paramsOf CONFIG0 r = p.
Proof.
  apply (getResourceType_known (Some socialPharmacy)). reflexivity.
Defined.

(** X16.  The order of the tests in [getResourceType]: an amenity of
    hospital, clinic or library decides whatever else is tagged; otherwise a
    non-empty [social_facility] tag decides, also against an amenity of
    pharmacy, community_centre or kindergarten; these three count only
    without it.  The answer is null exactly when there are no tags or
    neither tag qualifies. *)
Theorem getResourceType_precedence (tags : Tags) :
  (forall a : string,
      a ∈ [ "hospital"; "clinic"; "library" ]%string ->
      tags !! "amenity"%string = Some a ->
      getResourceType (Some tags) = Some a) /\
  ((forall a : string,
       tags !! "amenity"%string = Some a -> a ∉ [ "hospital"; "clinic"; "library" ]%string) ->
   tagSet tags "social_facility" = true ->
   getResourceType (Some tags) = Some "social"%string) /\
  (tagSet tags "social_facility" = false ->
   (tags !! "amenity"%string = Some "pharmacy"%string ->
    getResourceType (Some tags) = Some "pharmacy"%string) /\
   (tags !! "amenity"%string = Some "community_centre"%string ->
    getResourceType (Some tags) = Some "community"%string) /\
   (tags !! "amenity"%string = Some "kindergarten"%string ->
    getResourceType (Some tags) = Some "kindergarten"%string)) /\
  (getResourceType (Some tags) = None <->
   tagSet tags "social_facility" = false /\
   forall a : string,
     tags !! "amenity"%string = Some a ->
     a ∉ [ "hospital"; "clinic"; "library"; "pharmacy"; "community_centre";
           "kindergarten" ]%string) /\
  getResourceType None = None.
Proof.
  unfold getResourceType, amenityIs.
  split; [|split; [|split; [|split; [|reflexivity]]]].
  - intros a Ha Hlook. rewrite Hlook.
    repeat (apply elem_of_cons in Ha as [->|Ha]; [reflexivity|]). inversion Ha.
  - intros Hnot Hsoc. rewrite Hsoc.
    destruct (tags !! "amenity"%string) as [a|] eqn:E; [|reflexivity].
    specialize (Hnot a eq_refl).
    repeat case_bool_decide; try reflexivity;
      match goal with H : Some _ = Some _ |- _ => injection H as -> end;
      exfalso; apply Hnot; set_solver.
  - intros Hsoc. rewrite Hsoc. repeat split; intros ->; reflexivity.
  - split.
    + intros Hnone. destruct (tagSet tags "social_facility") eqn:Hsoc.
      * repeat case_bool_decide; discriminate.
      * split; [reflexivity|]. intros a Ha. rewrite Ha in Hnone.
        intros Hin.
        repeat (apply elem_of_cons in Hin as [->|Hin]; [discriminate Hnone|]).
        inversion Hin.
    + intros [Hsoc Hnot]. rewrite Hsoc.
      destruct (tags !! "amenity"%string) as [a|] eqn:E; [|reflexivity].
      specialize (Hnot a eq_refl).
      repeat case_bool_decide; try reflexivity;
        match goal with H : Some _ = Some _ |- _ => injection H as -> end;
        exfalso; apply Hnot; set_solver.
Qed.

Lemma getResourceType_precedence_witness :
  getResourceType (Some socialPharmacy) = Some "social"%string.
Proof.
  destruct (getResourceType_precedence socialPharmacy) as (_ & Hsoc & _).
  apply Hsoc.
  - intros a Ha. vm_compute in Ha. injection Ha as <-.
    apply not_elem_of_cons. split; [discriminate|].
    apply not_elem_of_cons. split; [discriminate|].
    apply not_elem_of_cons. split; [discriminate|]. apply not_elem_of_nil.
  - reflexivity.
Defined.

(** ** Coordinates *)

Lemma nle_Fin (x y : Q) : nle (Fin x) (Fin y) = true <-> (x <= y)%Q.
Proof. apply Qle_bool_iff. Qed.

Lemma isValidCoordinate_coords (lat lng : JsVal) :
  isValidCoordinate lat lng = true ->
  exists a b : Q,
    lat = JNum (Fin a) /\ lng = JNum (Fin b) /\
    (21 <= a <= 53 # 2)%Q /\ (119 <= b <= 245 # 2)%Q.
Proof.
  unfold isValidCoordinate, minLat, maxLat, minLng, maxLng.
  destruct lat as [| |b1|[a| | |]|s1|], lng as [| |b2|[b| | |]|s2|]; try discriminate.
  cbn [isFinite negb orb]. rewrite !andb_true_iff, !nle_Fin.
  intros [[[H1 H2] H3] H4]. exists a, b. repeat split; assumption.
Qed.

(** X17.  [isValidCoordinate] accepts exactly the pairs of finite numbers
    with 21 <= lat <= 26.5 and 119 <= lng <= 122.5; a string, a boolean,
    null, undefined, an object, NaN and the infinities are all refused. *)
Theorem isValidCoordinate_iff (lat lng : JsVal) :
  isValidCoordinate lat lng = true <->
  exists a b : Q,
    lat = JNum (Fin a) /\ lng = JNum (Fin b) /\
    (21 <= a <= 53 # 2)%Q /\ (119 <= b <= 245 # 2)%Q.
Proof.
  split; [apply isValidCoordinate_coords|].
  unfold isValidCoordinate, minLat, maxLat, minLng, maxLng.
  - intros (a & b & -> & -> & [H1 H2] & [H3 H4]).
    cbn [isFinite negb orb]. rewrite !andb_true_iff, !nle_Fin. repeat split; assumption.
Qed.

Lemma toFixed6_nonneg (q : Q) :
  (0 <= q)%Q -> toFixed6 q = (inject_Z (Qfloor (q * 1000000 + (1 # 2))) / 1000000)%Q.
Proof. intros H. unfold toFixed6. apply Qle_bool_iff in H. now rewrite H. Qed.

Lemma toFixed6_neg (q : Q) :
  (q < 0)%Q ->
  toFixed6 q = (- (inject_Z (Qfloor (- q * 1000000 + (1 # 2))) / 1000000))%Q.
Proof.
  intros H. unfold toFixed6. destruct (Qle_bool 0 q) eqn:E; [|reflexivity].
  apply Qle_bool_iff in E. lra.
Qed.

Lemma floor_half_bounds (s : Q) :
  (s - (1 # 2) < inject_Z (Qfloor (s + (1 # 2))) <= s + (1 # 2))%Q.
Proof.
  pose proof (Qfloor_le (s + (1 # 2))) as H1.
  pose proof (Qlt_floor (s + (1 # 2))) as H2.
  rewrite inject_Z_plus in H2. change (inject_Z 1) with 1%Q in H2. split; lra.
Qed.

Lemma floor_half_between (s : Q) (k1 k2 : Z) :
  (inject_Z k1 <= s <= inject_Z k2)%Q -> k1 <= Qfloor (s + (1 # 2)) <= k2.
Proof.
  intros [H1 H2]. split.
  - rewrite <- (Qfloor_Z k1). apply Qfloor_resp_le. lra.
  - apply Qfloor_below. rewrite inject_Z_plus. change (inject_Z 1) with 1%Q. lra.
Qed.

Lemma toFixed6_close (q : Q) : (Qabs (toFixed6 q - q) <= 1 # 2000000)%Q.
Proof.
  apply Qabs_Qle_condition.
  destruct (Qlt_le_dec q 0) as [Hneg|Hpos].
  - rewrite toFixed6_neg by assumption.
    pose proof (floor_half_bounds (- q * 1000000)) as [H1 H2].
    revert H1 H2. generalize (inject_Z (Qfloor (- q * 1000000 + (1 # 2)))). intros n H1 H2.
    assert (E : (- (n / 1000000) - q == (- n - q * 1000000) * (1 # 1000000))%Q) by field.
    rewrite E. split; lra.
  - rewrite toFixed6_nonneg by assumption.
    pose proof (floor_half_bounds (q * 1000000)) as [H1 H2].
    revert H1 H2. generalize (inject_Z (Qfloor (q * 1000000 + (1 # 2)))). intros n H1 H2.
    assert (E : (n / 1000000 - q == (n - q * 1000000) * (1 # 1000000))%Q) by field.
    rewrite E. split; lra.
Qed.

Lemma toFixed6_grid (q : Q) : exists n : Z, (toFixed6 q == inject_Z n / 1000000)%Q.
Proof.
  destruct (Qlt_le_dec q 0) as [Hneg|Hpos].
  - rewrite toFixed6_neg by assumption.
    exists (- Qfloor (- q * 1000000 + (1 # 2))). rewrite inject_Z_opp. field.
  - rewrite toFixed6_nonneg by assumption. eexists. reflexivity.
Qed.

Lemma toFixed6_between (q : Q) (k1 k2 : Z) :
  (inject_Z k1 / 1000000 <= q <= inject_Z k2 / 1000000)%Q ->
  (inject_Z k1 / 1000000 <= toFixed6 q <= inject_Z k2 / 1000000)%Q.
Proof.
  intros [H1 H2].
  assert (S1 : (inject_Z k1 <= q * 1000000)%Q).
  { assert (E : (inject_Z k1 == inject_Z k1 / 1000000 * 1000000)%Q) by field.
    rewrite E. apply Qmult_le_compat_r; [assumption|discriminate]. }
  assert (S2 : (q * 1000000 <= inject_Z k2)%Q).
  { assert (E : (inject_Z k2 == inject_Z k2 / 1000000 * 1000000)%Q) by field.
    rewrite E. apply Qmult_le_compat_r; [assumption|discriminate]. }
  assert (Hdiv : forall a b : Z, a <= b -> (inject_Z a / 1000000 <= inject_Z b / 1000000)%Q).
  { intros a b Hab. apply Qmult_le_compat_r; [now rewrite <- Zle_Qle|discriminate]. }
  destruct (Qlt_le_dec q 0) as [Hneg|Hpos].
  - rewrite toFixed6_neg by assumption.
    destruct (floor_half_between (- q * 1000000) (- k2) (- k1)) as [F1 F2].
    { rewrite !inject_Z_opp. split; lra. }
    assert (E : forall n : Z, (- (inject_Z n / 1000000) == inject_Z (- n) / 1000000)%Q)
      by (intros n; rewrite inject_Z_opp; field).
    rewrite E. split; apply Hdiv; lia.
  - rewrite toFixed6_nonneg by assumption.
    destruct (floor_half_between (q * 1000000) k1 k2) as [F1 F2]; [split; assumption|].
    split; apply Hdiv; assumption.
Qed.

Lemma toFixed6_proper (p q : Q) : (p == q)%Q -> (toFixed6 p == toFixed6 q)%Q.
Proof.
  intros E. destruct (Qlt_le_dec p 0) as [Hneg|Hpos].
  - rewrite (toFixed6_neg p), (toFixed6_neg q) by lra.
    assert (F : Qfloor (- p * 1000000 + (1 # 2)) = Qfloor (- q * 1000000 + (1 # 2)))
      by (apply Qfloor_comp; rewrite E; reflexivity).
    rewrite F. reflexivity.
  - rewrite (toFixed6_nonneg p), (toFixed6_nonneg q) by lra.
    assert (F : Qfloor (p * 1000000 + (1 # 2)) = Qfloor (q * 1000000 + (1 # 2)))
      by (apply Qfloor_comp; rewrite E; reflexivity).
    rewrite F. reflexivity.
Qed.

Lemma toFixed6_fixes_grid (n : Z) :
  (toFixed6 (inject_Z n / 1000000) == inject_Z n / 1000000)%Q.
Proof.
  pose proof (toFixed6_between (inject_Z n / 1000000) n n) as H.
  destruct H as [H1 H2]; [split; apply Qle_refl|]. apply Qle_antisym; assumption.
Qed.

(** X18.  Below 10^21 in magnitude, [parseFloat(x.toFixed(6))] is a
    multiple of 10^-6 at most half of 10^-6 away from [x]; it lies between
    any two multiples of 10^-6 that [x] lies between, which makes it
    monotone on such bounds; and doing it again changes nothing.  NaN and
    the infinities pass through. *)
Theorem limitPrecision_rounds (q : Q) :
  (Qabs q < inject_Z (10 ^ 21))%Q ->
  exists r : Q,
    limitPrecision (Fin q) = Fin r /\
    (exists n : Z, r == inject_Z n / 1000000)%Q /\
    (Qabs (r - q) <= 1 # 2000000)%Q /\
    (forall k1 k2 : Z,
        (inject_Z k1 / 1000000 <= q <= inject_Z k2 / 1000000)%Q ->
        (inject_Z k1 / 1000000 <= r <= inject_Z k2 / 1000000)%Q) /\
    num_eq (limitPrecision (Fin r)) (Fin r) /\
    limitPrecision NaN = NaN /\ limitPrecision PInf = PInf /\ limitPrecision NInf = NInf.
Proof.
  intros Hsmall. exists (toFixed6 q).
  assert (Hbranch : Qle_bool (inject_Z (10 ^ 21)) (Qabs q) = false).
  { destruct (Qle_bool _ _) eqn:E; [|reflexivity]. apply Qle_bool_iff in E. lra. }
  split; [unfold limitPrecision; now rewrite Hbranch|].
  split; [apply toFixed6_grid|]. split; [apply toFixed6_close|].
  split; [apply toFixed6_between|]. split; [|repeat split].
  unfold limitPrecision.
  destruct (Qle_bool (inject_Z (10 ^ 21)) (Qabs (toFixed6 q))); cbn [num_eq].
  - reflexivity.
  - destruct (toFixed6_grid q) as [n Hn].
    assert (E : (toFixed6 (toFixed6 q) == toFixed6 (inject_Z n / 1000000))%Q)
      by (apply toFixed6_proper; exact Hn).
    rewrite E, toFixed6_fixes_grid. symmetry. exact Hn.
Qed.

Lemma limitPrecision_rounds_witness :
  exists r : Q,
    limitPrecision (Fin (250330001 # 10000000)) = Fin r /\
    (exists n : Z, r == inject_Z n / 1000000)%Q /\
    (Qabs (r - (250330001 # 10000000)) <= 1 # 2000000)%Q /\
    (forall k1 k2 : Z,
        (inject_Z k1 / 1000000 <= 250330001 # 10000000 <= inject_Z k2 / 1000000)%Q ->
        (inject_Z k1 / 1000000 <= r <= inject_Z k2 / 1000000)%Q) /\
    num_eq (limitPrecision (Fin r)) (Fin r) /\
    limitPrecision NaN = NaN /\ limitPrecision PInf = PInf /\ limitPrecision NInf = NInf.
Proof.
  apply (limitPrecision_rounds (250330001 # 10000000)). reflexivity.
Defined.

(** ** Names and addresses *)

Lemma length_append (s1 s2 : string) :
  String.length (String.append s1 s2) = (String.length s1 + String.length s2)%nat.
Proof.
  induction s1 as [|c s1 IH]; [reflexivity|].
  change (S (String.length (String.append s1 s2))
          = S (String.length s1 + String.length s2)).
  now rewrite IH.
Qed.

Lemma length_substring_0 (n : nat) (s : string) :
  String.length (String.substring 0 n s) = Nat.min n (String.length s).
Proof.
  revert s. induction n as [|n IH]; intros [|c s]; cbn; try reflexivity.
  now rewrite IH.
Qed.

Lemma substring_0_append (n : nat) (s t : string) :
  (n <= String.length s)%nat ->
  String.substring 0 n (String.append s t) = String.substring 0 n s.
Proof.
  revert s. induction n as [|n IH]; intros [|c s] Hn.
  - now destruct t.
  - reflexivity.
  - cbn in Hn. lia.
  - change (String c (String.substring 0 n (String.append s t))
            = String c (String.substring 0 n s)).
    rewrite IH; [reflexivity|]. cbn in Hn. lia.
Qed.

Lemma truthyTag_nonempty (tags : Tags) (k s : string) :
  truthyTag tags k = Some s -> s <> ""%string.
Proof.
  unfold truthyTag. destruct (tags !! k) as [v|]; [|discriminate].
  destruct (String.eqb v "") eqn:E; [discriminate|].
  intros [= <-]. now apply String.eqb_neq.
Qed.

Lemma concat_nonempty (parts : list string) :
  parts <> [] -> Forall (fun s => s <> ""%string) parts ->
  String.concat "" parts <> ""%string.
Proof.
  intros Hne Hall. destruct Hall as [|s l Hs Hl]; [congruence|].
  destruct s as [|c s]; [congruence|]. destruct l; cbn; discriminate.
Qed.

Lemma nameOf_nonempty (tags : option Tags) (s : string) :
  nameOf tags = Some s -> s <> ""%string.
Proof.
  unfold nameOf. destruct tags as [tags|]; [|discriminate].
  destruct (truthyTag tags "name") eqn:E1.
  { intros [= <-]. eapply truthyTag_nonempty; eassumption. }
  destruct (truthyTag tags "name:zh") eqn:E2.
  { intros [= <-]. eapply truthyTag_nonempty; eassumption. }
  apply truthyTag_nonempty.
Qed.

Lemma truncateName_bound (name : option string) (s : string) :
  (forall s0, name = Some s0 -> s0 <> ""%string) ->
  truncateName name = Some s ->
  s <> ""%string /\ (String.length s <= maxNameLength + 3)%nat.
Proof.
  intros Hne. unfold truncateName. destruct name as [s0|]; [|discriminate].
  specialize (Hne s0 eq_refl).
  destruct (maxNameLength <? String.length s0)%nat eqn:E.
  - intros [= <-]. apply Nat.ltb_lt in E. split.
    + intros Habs. apply (f_equal String.length) in Habs.
      rewrite length_append in Habs. change (String.length "...") with 3%nat in Habs.
      change (String.length "") with 0%nat in Habs. lia.
    + rewrite length_append, length_substring_0. change (String.length "...") with 3%nat.
      lia.
  - intros [= <-]. apply Nat.ltb_ge in E. split; [assumption|lia].
Qed.

Lemma formatAddress_nonempty (tags : option Tags) (s : string) :
  formatAddress tags = Some s -> s <> ""%string.
Proof.
  unfold formatAddress. destruct tags as [tags|]; [|discriminate].
  destruct (truthyTag tags "addr:full") eqn:E1.
  { intros [= <-]. eapply truthyTag_nonempty; eassumption. }
  cbv zeta. remember (omap (truthyTag tags) _) as parts eqn:Hparts.
  destruct parts as [|p l]; [discriminate|].
  cbn [length Nat.ltb Nat.leb].
  assert (Hc : String.concat "" (p :: l) <> ""%string).
  { apply concat_nonempty; [discriminate|].
    rewrite Hparts. apply Forall_forall. intros s0 Hs. apply list_elem_of_omap in Hs.
    destruct Hs as (k & _ & Hk). eapply truthyTag_nonempty; eassumption. }
  intros [= <-]. exact Hc.
Qed.

(** X19.  The name of a facility is the first non-empty one of the tags
    [name], [name:zh] and [name:en], in this order, and null exactly when
    all three are missing or empty; it is never the empty string.  A name
    of ASCII characters is kept as it is up to 200 characters; a longer
    one becomes its first 200 characters followed by three dots, 203
    characters in all; null stays null.  The address is [addr:full] when
    that is not empty, whatever the other tags; otherwise the non-empty
    ones of city, district, street and house number, in this order and
    without a separator; it is null exactly when all five are missing or
    empty, and never the empty string. *)
Theorem name_and_address (tags : Tags) :
  (forall s : string,
      truthyTag tags "name" = Some s -> nameOf (Some tags) = Some s) /\
  (forall s : string,
      truthyTag tags "name" = None -> truthyTag tags "name:zh" = Some s ->
      nameOf (Some tags) = Some s) /\
  (truthyTag tags "name" = None -> truthyTag tags "name:zh" = None ->
   nameOf (Some tags) = truthyTag tags "name:en") /\
  (nameOf (Some tags) = None <->
   Forall (fun k => truthyTag tags k = None) [ "name"; "name:zh"; "name:en" ]%string) /\
  (forall s : string, nameOf (Some tags) = Some s -> s <> ""%string) /\
  (forall s : string,
      isAsciiText s = true ->
      ((String.length s <= maxNameLength)%nat -> truncateName (Some s) = Some s) /\
      ((maxNameLength < String.length s)%nat ->
       truncateName (Some s) =
         Some (String.append (String.substring 0 maxNameLength s) "...") /\
       String.length (String.append (String.substring 0 maxNameLength s) "...")
         = 203%nat)) /\
  truncateName None = None /\
  (forall s : string,
      truthyTag tags "addr:full" = Some s -> formatAddress (Some tags) = Some s) /\
  (truthyTag tags "addr:full" = None ->
   formatAddress (Some tags) =
   match omap (truthyTag tags)
           [ "addr:city"; "addr:district"; "addr:street"; "addr:housenumber" ]%string with
   | [] => None
   | parts => Some (String.concat "" parts)
   end) /\
  (formatAddress (Some tags) = None <->
   Forall (fun k => truthyTag tags k = None)
     [ "addr:full"; "addr:city"; "addr:district"; "addr:street"; "addr:housenumber" ]%string) /\
  (forall s : string, formatAddress (Some tags) = Some s -> s <> ""%string).
Proof.
  split; [|split; [|split; [|split; [|split; [|split; [|split; [|split; [|split; [|split]]]]]]]]].
  - intros s Hs. unfold nameOf. now rewrite Hs.
  - intros s H1 H2. unfold nameOf. now rewrite H1, H2.
  - intros H1 H2. unfold nameOf. now rewrite H1, H2.
  - unfold nameOf. rewrite !Forall_cons. split.
    + destruct (truthyTag tags "name"); [discriminate|].
      destruct (truthyTag tags "name:zh"); [discriminate|].
      intros ->. repeat split. constructor.
    + intros (H1 & H2 & H3 & _). now rewrite H1, H2.
  - intros s Hs. eapply nameOf_nonempty; eassumption.
  - intros s _. split.
    + intros Hle. unfold truncateName.
      destruct (maxNameLength <? String.length s)%nat eqn:E; [|reflexivity].
      apply Nat.ltb_lt in E. lia.
    + intros Hlt. unfold truncateName.
      destruct (maxNameLength <? String.length s)%nat eqn:E.
      * split; [reflexivity|].
        rewrite length_append, length_substring_0.
        change (String.length "...") with 3%nat. unfold maxNameLength in *. lia.
      * apply Nat.ltb_ge in E. lia.
  - reflexivity.
  - intros s Hs. unfold formatAddress. now rewrite Hs.
  - intros Hfull. unfold formatAddress. rewrite Hfull. cbv zeta.
    destruct (omap _ _); reflexivity.
  - unfold formatAddress. rewrite Forall_cons. split.
    + destruct (truthyTag tags "addr:full") eqn:E1; [discriminate|].
      cbv zeta. intros H. split; [reflexivity|].
      destruct (omap (truthyTag tags) _) as [|p l] eqn:E; [|discriminate].
      apply Forall_forall. intros k Hk.
      destruct (truthyTag tags k) as [v|] eqn:Ek; [|reflexivity].
      assert (Hv : v ∈ @nil string).
      { rewrite <- E. apply list_elem_of_omap. exists k. split; assumption. }
      inversion Hv.
    + intros [Hfull Hrest]. rewrite Hfull. cbv zeta.
      assert (E : omap (truthyTag tags)
                    [ "addr:city"; "addr:district"; "addr:street"; "addr:housenumber" ]%string
                  = []).
      { apply Forall_cons in Hrest as [H1 Hrest]. apply Forall_cons in Hrest as [H2 Hrest].
        apply Forall_cons in Hrest as [H3 Hrest]. apply Forall_cons in Hrest as [H4 _].
        cbn. rewrite H1, H2, H3, H4. reflexivity. }
      rewrite E. reflexivity.
  - apply formatAddress_nonempty.
Qed.

(** ** Elements *)

Lemma js_or_falsy_invalid (v : JsVal) (other : JsVal) :
  truthy v = false -> isValidCoordinate v other = false /\ isValidCoordinate other v = false.
Proof.
  intros Hv. unfold isValidCoordinate, minLat, minLng, maxLat, maxLng.
  destruct v as [| |b1|[a| | |]|s1|]; cbn in Hv; try discriminate;
    destruct other as [| |b2|[b| | |]|s2|]; try (split; reflexivity).
  apply negb_false_iff, Qeq_bool_iff in Hv.
  cbn [isFinite negb orb]. split.
  - assert (H : nle (Fin 21) (Fin a) = false).
    { destruct (nle (Fin 21) (Fin a)) eqn:E; [|reflexivity]. apply nle_Fin in E. lra. }
    now rewrite H.
  - assert (H : nle (Fin 119) (Fin a) = false).
    { destruct (nle (Fin 119) (Fin a)) eqn:E; [|reflexivity]. apply nle_Fin in E. lra. }
    rewrite H. now rewrite !andb_false_r.
Qed.

Lemma valid_is_truthy (lat lng : JsVal) :
  isValidCoordinate lat lng = true -> truthy lat = true /\ truthy lng = true.
Proof.
  intros H. split.
  - destruct (truthy lat) eqn:E; [reflexivity|].
    destruct (js_or_falsy_invalid lat lng E) as [H1 _]. congruence.
  - destruct (truthy lng) eqn:E; [reflexivity|].
    destruct (js_or_falsy_invalid lng lat E) as [_ H2]. congruence.
Qed.

Section ParserFacts.

Variable parseInt : JsVal -> num.

Lemma parseElement_Some (entry : option Element) (f : Facility) :
  parseElement parseInt entry = Some f ->
  exists el,
    entry = Some el /\
    isValidCoordinate (latOf el) (lonOf el) = true /\
    getResourceType (el_tags el) = Some (f_type f) /\
    f_id f = parseInt (el_id el) /\
    isFinite (f_id f) = true /\ nle (f_id f) (Fin 0) = false /\
    f_lat f = limitPrecision (numberOf (latOf el)) /\
    f_lng f = limitPrecision (numberOf (lonOf el)) /\
    f_name f = truncateName (nameOf (el_tags el)) /\
    f_address f = formatAddress (el_tags el) /\
    f_tags f = default ∅ (el_tags el).
Proof.
  unfold parseElement. destruct entry as [el|]; [|discriminate]. cbv zeta.
  destruct (isValidCoordinate (latOf el) (lonOf el)) eqn:Hv; [|discriminate].
  destruct (getResourceType (el_tags el)) as [type|] eqn:Ht; [|discriminate].
  cbn [negb].
  destruct (isFinite (parseInt (el_id el))) eqn:Hf; [|discriminate].
  destruct (nle (parseInt (el_id el)) (Fin 0)) eqn:Hz; [discriminate|].
  cbn [negb orb]. intros [= <-]. exists el. cbn. repeat split; assumption.
Qed.

Lemma limitPrecision_in_bounds (a : Q) (k1 k2 : Z) :
  (inject_Z k1 / 1000000 <= a <= inject_Z k2 / 1000000)%Q ->
  (- inject_Z (10 ^ 21) < inject_Z k1 / 1000000)%Q ->
  (inject_Z k2 / 1000000 < inject_Z (10 ^ 21))%Q ->
  exists r,
    limitPrecision (Fin a) = Fin r /\
    (inject_Z k1 / 1000000 <= r <= inject_Z k2 / 1000000)%Q /\
    (Qabs (r - a) <= 1 # 2000000)%Q /\
    exists n : Z, (r == inject_Z n / 1000000)%Q.
Proof.
  intros Hab Hlo Hhi. exists (toFixed6 a).
  assert (Hbranch : Qle_bool (inject_Z (10 ^ 21)) (Qabs a) = false).
  { destruct (Qle_bool _ _) eqn:E; [|reflexivity]. apply Qle_bool_iff in E.
    revert E. apply Qabs_case; intros; lra. }
  split; [unfold limitPrecision; now rewrite Hbranch|].
  split; [apply toFixed6_between; exact Hab|].
  split; [apply toFixed6_close|apply toFixed6_grid].
Qed.

(** X20.  Every facility [parseElements] returns comes from an object of
    the array; its coordinates are those of the element rounded to six
    decimals, at most half of 10^-6 away, and still inside the Taiwan
    box; its id is finite and positive; its type is one of the seven
    names; its name, if any, is not empty and at most 203 characters
    long; its address, if any, is not empty. *)
Theorem parseElements_valid (entries : list (option Element)) (f : Facility) :
  f ∈ fst (parseElements parseInt (ElementArray entries)) ->
  exists (el : Element) (a b la lo i : Q),
    Some el ∈ entries /\
    latOf el = JNum (Fin a) /\ lonOf el = JNum (Fin b) /\
    f_lat f = Fin la /\ f_lng f = Fin lo /\
    (21 <= la <= 53 # 2)%Q /\ (119 <= lo <= 245 # 2)%Q /\
    (Qabs (la - a) <= 1 # 2000000)%Q /\ (Qabs (lo - b) <= 1 # 2000000)%Q /\
    (exists n m : Z, la == inject_Z n / 1000000 /\ lo == inject_Z m / 1000000)%Q /\
    parseInt (el_id el) = Fin i /\ f_id f = Fin i /\ (0 < i)%Q /\
    getResourceType (el_tags el) = Some (f_type f) /\ f_type f ∈ resourceTypes /\
    f_tags f = default ∅ (el_tags el) /\
    (forall s, f_name f = Some s ->
               s <> ""%string /\ (String.length s <= maxNameLength + 3)%nat) /\
    (forall s, f_address f = Some s -> s <> ""%string).
Proof.
  cbn [parseElements fst]. intros Hin. apply list_elem_of_omap in Hin.
  destruct Hin as (entry & Hentry & Hparse).
  apply parseElement_Some in Hparse.
  destruct Hparse as (el & -> & Hv & Ht & Hid & Hfin & Hpos & Hlat & Hlng & Hname & Haddr
                      & Htags).
  apply isValidCoordinate_coords in Hv.
  destruct Hv as (a & b & Ha & Hb & Hra & Hrb).
  rewrite Ha in Hlat. rewrite Hb in Hlng. cbn [numberOf] in Hlat, Hlng.
  destruct (limitPrecision_in_bounds a 21000000 26500000) as (la & Hla & Hla1 & Hla2 & n & Hn).
  { assert (E1 : (inject_Z 21000000 / 1000000 == 21)%Q) by reflexivity.
    assert (E2 : (inject_Z 26500000 / 1000000 == 53 # 2)%Q) by reflexivity.
    rewrite E1, E2. exact Hra. }
  { reflexivity. } { reflexivity. }
  destruct (limitPrecision_in_bounds b 119000000 122500000) as (lo & Hlo & Hlo1 & Hlo2 & m & Hm).
  { assert (E1 : (inject_Z 119000000 / 1000000 == 119)%Q) by reflexivity.
    assert (E2 : (inject_Z 122500000 / 1000000 == 245 # 2)%Q) by reflexivity.
    rewrite E1, E2. exact Hrb. }
  { reflexivity. } { reflexivity. }
  destruct (f_id f) as [i| | |] eqn:Hi; try discriminate.
  exists el, a, b, la, lo, i.
  split; [exact Hentry|]. split; [exact Ha|]. split; [exact Hb|].
  split; [now rewrite Hlat|]. split; [now rewrite Hlng|].
  split.
  { assert (E1 : (inject_Z 21000000 / 1000000 == 21)%Q) by reflexivity.
    assert (E2 : (inject_Z 26500000 / 1000000 == 53 # 2)%Q) by reflexivity.
    rewrite <- E1, <- E2. exact Hla1. }
  split.
  { assert (E1 : (inject_Z 119000000 / 1000000 == 119)%Q) by reflexivity.
    assert (E2 : (inject_Z 122500000 / 1000000 == 245 # 2)%Q) by reflexivity.
    rewrite <- E1, <- E2. exact Hlo1. }
  split; [exact Hla2|]. split; [exact Hlo2|].
  split; [exists n, m; split; assumption|].
  split; [now rewrite <- Hid|]. split; [reflexivity|].
  split.
  { destruct (Qlt_le_dec 0 i) as [H|H]; [exact H|].
    apply nle_Fin in H. congruence. }
  split; [exact Ht|]. split; [eapply getResourceType_in; exact Ht|].
  split; [exact Htags|]. split.
  - intros s Hs. rewrite Hname in Hs.
    eapply truncateName_bound; [|exact Hs]. intros s0. apply nameOf_nonempty.
  - intros s Hs. rewrite Haddr in Hs. eapply formatAddress_nonempty; exact Hs.
Qed.

(** X21.  An element is kept exactly when its coordinates are valid, its
    tags name a resource type and its id parses to a finite positive
    number.  The [||] fallback to [center] never overrules valid
    coordinates of the element itself, and without a [center] the verdict
    is the one on the element's own coordinates. *)
Theorem parseElement_kept (el : Element) :
  (is_Some (parseElement parseInt (Some el)) <->
   isValidCoordinate (latOf el) (lonOf el) = true /\
   is_Some (getResourceType (el_tags el)) /\
   exists i : Q, parseInt (el_id el) = Fin i /\ (0 < i)%Q) /\
  (isValidCoordinate (el_lat el) (el_lon el) = true ->
   latOf el = el_lat el /\ lonOf el = el_lon el) /\
  (el_center el = None ->
   isValidCoordinate (latOf el) (lonOf el) = isValidCoordinate (el_lat el) (el_lon el)) /\
  parseElement parseInt None = None.
Proof.
  split; [|split; [|split; [|reflexivity]]].
  - split.
    + intros [f Hf]. apply parseElement_Some in Hf.
      destruct Hf as (el' & [= <-] & Hv & Ht & Hid & Hfin & Hpos & _).
      split; [exact Hv|]. split; [eexists; exact Ht|].
      rewrite Hid in Hfin, Hpos. destruct (parseInt (el_id el)) as [i| | |]; try discriminate.
      exists i. split; [reflexivity|].
      destruct (Qlt_le_dec 0 i) as [H|H]; [exact H|]. apply nle_Fin in H. congruence.
    + intros (Hv & [t Ht] & i & Hi & Hpos).
      unfold parseElement. cbv zeta. rewrite Hv, Ht, Hi. cbn [negb isFinite orb].
      assert (Hz : nle (Fin i) (Fin 0) = false).
      { destruct (nle (Fin i) (Fin 0)) eqn:E; [|reflexivity]. apply nle_Fin in E. lra. }
      rewrite Hz. eexists. reflexivity.
  - intros Hv. apply valid_is_truthy in Hv. destruct Hv as [H1 H2].
    unfold latOf, lonOf, js_or. now rewrite H1, H2.
  - intros Hc. unfold latOf, lonOf, js_or. rewrite Hc.
    destruct (truthy (el_lat el)) eqn:E1, (truthy (el_lon el)) eqn:E2; try reflexivity.
    + destruct (js_or_falsy_invalid (el_lon el) (el_lat el) E2) as [_ ->].
      now destruct (el_lat el) as [| |?|[]|?|].
    + destruct (js_or_falsy_invalid (el_lat el) (el_lon el) E1) as [-> _]. reflexivity.
    + destruct (js_or_falsy_invalid (el_lat el) (el_lon el) E1) as [-> _]. reflexivity.
Qed.

(** [parseElements] is a filter that keeps the order: a value that is
    no array gives no facility and one error line; an array gives no error
    line; entries that are no objects are passed over; the facilities of a
    concatenation are those of the parts, one after the other; and the
    tags of the facilities are a sublist of the tags of the elements. *)
Theorem parseElements_filter (entries more : list (option Element)) :
  parseElements parseInt NotAnArray = ([], [ErrorInvalidElements]) /\
  snd (parseElements parseInt (ElementArray entries)) = [] /\
  fst (parseElements parseInt (ElementArray (None :: entries)))
    = fst (parseElements parseInt (ElementArray entries)) /\
  fst (parseElements parseInt (ElementArray (entries ++ more)))
    = fst (parseElements parseInt (ElementArray entries))
      ++ fst (parseElements parseInt (ElementArray more)) /\
  (length (fst (parseElements parseInt (ElementArray entries))) <= length entries)%nat /\
  map f_tags (fst (parseElements parseInt (ElementArray entries)))
    `sublist_of` map (fun el => default ∅ (el_tags el)) (omap id entries).
Proof.
  cbn [parseElements fst snd].
  split; [reflexivity|]. split; [reflexivity|]. split; [reflexivity|].
  split; [apply omap_app|]. split.
  - induction entries as [|entry l IH]; [reflexivity|]. cbn [omap list_omap].
    destruct (parseElement parseInt entry); cbn [length]; lia.
  - induction entries as [|entry l IH]; [constructor|]. cbn [omap list_omap].
    destruct (parseElement parseInt entry) as [f|] eqn:E.
    + apply parseElement_Some in E.
      destruct E as (el & -> & _ & _ & _ & _ & _ & _ & _ & _ & _ & Htags).
      cbn. rewrite Htags. now constructor.
    + destruct entry as [el|]; cbn; [constructor|]; exact IH.
Qed.

End ParserFacts.

Lemma parseElements_valid_witness :
  exists (f : Facility) (el : Element) (a b la lo i : Q),
    f ∈ fst (parseElements parseIntOnIntegers (ElementArray aFewElements)) /\
    Some el ∈ aFewElements /\
    latOf el = JNum (Fin a) /\ lonOf el = JNum (Fin b) /\
    f_lat f = Fin la /\ f_lng f = Fin lo /\
    (21 <= la <= 53 # 2)%Q /\ (119 <= lo <= 245 # 2)%Q /\
    (Qabs (la - a) <= 1 # 2000000)%Q /\ (Qabs (lo - b) <= 1 # 2000000)%Q /\
    (exists n m : Z, la == inject_Z n / 1000000 /\ lo == inject_Z m / 1000000)%Q /\
    parseIntOnIntegers (el_id el) = Fin i /\ f_id f = Fin i /\ (0 < i)%Q /\
    getResourceType (el_tags el) = Some (f_type f) /\ f_type f ∈ resourceTypes /\
    f_tags f = default ∅ (el_tags el) /\
    (forall s, f_name f = Some s ->
               s <> ""%string /\ (String.length s <= maxNameLength + 3)%nat) /\
    (forall s, f_address f = Some s -> s <> ""%string).
Proof.
  remember (parseElement parseIntOnIntegers (Some hospitalWay)) as pf eqn:E.
  destruct pf as [f|]; [|vm_compute in E; discriminate].
  assert (Hin : f ∈ fst (parseElements parseIntOnIntegers (ElementArray aFewElements))).
  { apply list_elem_of_omap. exists (Some hospitalWay).
    split; [right; right; left|now symmetry]. }
  destruct (parseElements_valid parseIntOnIntegers aFewElements f Hin)
    as (el & a & b & la & lo & i & H).
  exists f, el, a, b, la, lo, i. split; [exact Hin|exact H].
Defined.

(** ** From the parser to the engine *)

(** X22.  Under the initial configuration, a facility that
    [parseElements] returned and that lies inside a geographic window is
    counted in the cell that contains it, whatever else is in the list
    handed to the engine: its type has a profile of its own, its
    coordinates are finite, so the cell is in its update range and the
    value of the cell is the sum of the contributions of a sub-list of the
    points to which the facility belongs. *)
Theorem parsed_facility_is_seen (parseInt : JsVal -> num) (Mexp : Q -> Q)
    (entries : list (option Element)) (resources : list Resource)
    (bounds : Bounds) (w : World) (f : Facility) (w0 e0 s0 n0 lo la : Q) :
  CONFIG w = CONFIG0 ->
  f ∈ fst (parseElements parseInt (ElementArray entries)) ->
  resourceOf f ∈ resources ->
  geographic bounds ->
  west bounds = Fin w0 -> east bounds = Fin e0 ->
  south bounds = Fin s0 -> north bounds = Fin n0 ->
  f_lng f = Fin lo -> f_lat f = Fin la ->
  (w0 <= lo < e0)%Q -> (s0 <= la < n0)%Q ->
  let x := Qfloor ((lo - w0) / ((e0 - w0) / 150)) in
  let y := Qfloor ((la - s0) / ((n0 - s0) / 150)) in
  0 <= x < 150 /\ 0 <= y < 150 /\
  (exists p, typeParams CONFIG0 !! f_type f = Some p) /\
  covers CONFIG0 bounds (resourceOf f) x y = true /\
  resourceOf f ∈ filter (fun r' => covers CONFIG0 bounds r' x y = true) resources /\
  run (generateScalarField Mexp resources bounds) w !! cellIndex CONFIG0 x y =
  Some (fieldSum Mexp CONFIG0 bounds resources x y).
Proof.
  intros Hcfg Hin Hres _ Hw He Hs Hn Hlng Hlat Hlo Hla x y.
  cbn [parseElements fst] in Hin. apply list_elem_of_omap in Hin.
  destruct Hin as (entry & _ & Hparse). apply parseElement_Some in Hparse.
  destruct Hparse as (el & _ & _ & Ht & _).
  apply getResourceType_in in Ht.
  destruct (resourceTypes_configured (f_type f) Ht) as (Hname & p & Hp & _).
  destruct (counted_in_own_cell Mexp resources bounds w (resourceOf f)
              w0 e0 s0 n0 lo la Hcfg Hname Hres Hw He Hs Hn Hlng Hlat Hlo Hla)
    as (Hx & Hy & Hcov & Hmem & Hval).
  split; [exact Hx|]. split; [exact Hy|]. split; [now exists p|].
  split; [exact Hcov|]. split; [exact Hmem|exact Hval].
Qed.

Lemma parsed_facility_is_seen_witness :
  exists f : Facility,
    f ∈ fst (parseElements parseIntOnIntegers (ElementArray aFewElements)) /\
    covers CONFIG0 windowTaipei (resourceOf f) 98 49 = true.
Proof.
  remember (parseElement parseIntOnIntegers (Some kindergartenNode)) as pf eqn:E.
  destruct pf as [f|]; [|vm_compute in E; discriminate].
  assert (Hin : f ∈ fst (parseElements parseIntOnIntegers (ElementArray aFewElements))).
  { apply list_elem_of_omap. exists (Some kindergartenNode). split; [left|now symmetry]. }
  assert (Hlng : f_lng f = Fin (121565432 # 1000000))
    by (apply (f_equal (fmap f_lng)) in E; vm_compute in E; now injection E as <-).
  assert (Hlat : f_lat f = Fin (25033000 # 1000000))
    by (apply (f_equal (fmap f_lat)) in E; vm_compute in E; now injection E as <-).
  destruct (parsed_facility_is_seen parseIntOnIntegers exp_pade aFewElements
              (map resourceOf
                 (fst (parseElements parseIntOnIntegers (ElementArray aFewElements))))
              windowTaipei world0 f (1215 # 10) (1216 # 10) 25 (251 # 10)
              (121565432 # 1000000) (25033000 # 1000000))
    as (_ & _ & _ & Hcov & _).
  - reflexivity.
  - exact Hin.
  - apply list_elem_of_fmap. exists f. split; [reflexivity|exact Hin].
  - repeat split; discriminate.
  - reflexivity.
  - reflexivity.
  - reflexivity.
  - reflexivity.
  - exact Hlng.
  - exact Hlat.
  - split; [discriminate|reflexivity].
  - split; [discriminate|reflexivity].
  - exists f. split; [exact Hin|exact Hcov].
Defined.

(** * Properties of the renderer *)

(** ** Colours *)

Lemma nle_Fin_false (x y : Q) : nle (Fin x) (Fin y) = false <-> (y < x)%Q.
Proof.
  cbn [nle]. split.
  - intros H. apply Qnot_le_lt. intros Hle. apply Qle_bool_iff in Hle. congruence.
  - intros H. destruct (Qle_bool x y) eqn:E; [|reflexivity].
    apply Qle_bool_iff in E. lra.
Qed.

Lemma findStops_found (t : num) (stops : list ColorStop) (lower upper : ColorStop) :
  findStops t stops = Some (lower, upper) ->
  lower ∈ stops /\ upper ∈ stops /\
  nle (pos lower) t = true /\ nle t (pos upper) = true.
Proof.
  induction stops as [|s0 rest IH]; [discriminate|].
  destruct rest as [|s1 rest']; [discriminate|].
  cbn [findStops]. destruct (nle (pos s0) t && nle t (pos s1)) eqn:E.
  - intros [= <- <-]. apply andb_true_iff in E. destruct E as [E1 E2].
    split; [left|]. split; [right; left|]. split; assumption.
  - intros H. destruct (IH H) as (H1 & H2 & H3).
    split; [now right|]. split; [now right|]. exact H3.
Qed.

Lemma last_cons_default {A} (x d d' : A) (l : list A) :
  List.last (x :: l) d = List.last (x :: l) d'.
Proof.
  revert x. induction l as [|y l IH]; intros x; [reflexivity|].
  change (List.last (y :: l) d = List.last (y :: l) d'). apply IH.
Qed.

Lemma findStops_exists (q : Q) (first : ColorStop) (rest : list ColorStop) :
  Forall (fun s => is_finite (pos s)) (first :: rest) ->
  nle (pos first) (Fin q) = true ->
  nle (Fin q) (pos (List.last (first :: rest) first)) = true ->
  rest <> [] ->
  is_Some (findStops (Fin q) (first :: rest)).
Proof.
  revert first. induction rest as [|s1 rest IH]; intros first Hfin Hlo Hhi Hne;
    [congruence|].
  cbn [findStops]. rewrite Hlo. cbn [andb].
  destruct (nle (Fin q) (pos s1)) eqn:E; [eexists; reflexivity|].
  apply Forall_cons in Hfin as [_ Hfin].
  destruct rest as [|s2 rest'].
  - change (nle (Fin q) (pos s1) = true) in Hhi. congruence.
  - apply IH; [assumption| | |discriminate].
    + pose proof Hfin as Hfin'. apply Forall_cons in Hfin' as [H1 _].
      destruct (pos s1) as [p1| | |]; try contradiction.
      apply nle_Fin_false in E. apply nle_Fin. lra.
    + change (List.last (first :: s1 :: s2 :: rest') first)
        with (List.last (s1 :: s2 :: rest') first) in Hhi.
      now rewrite (last_cons_default s1 s1 first).
Qed.

Lemma mix_between (a b lt lo hi : Q) :
  (0 <= lt <= 1)%Q -> (lo <= a <= hi)%Q -> (lo <= b <= hi)%Q ->
  (lo <= a + (b - a) * lt <= hi)%Q.
Proof.
  intros [H0 H1] [Ha1 Ha2] [Hb1 Hb2].
  assert (E : (a + (b - a) * lt == (1 - lt) * a + lt * b)%Q) by ring.
  rewrite E.
  assert (L1 : ((1 - lt) * lo <= (1 - lt) * a)%Q) by (apply Qmult_le_l'; lra).
  assert (L2 : (lt * lo <= lt * b)%Q) by (apply Qmult_le_l'; lra).
  assert (U1 : ((1 - lt) * a <= (1 - lt) * hi)%Q) by (apply Qmult_le_l'; lra).
  assert (U2 : (lt * b <= lt * hi)%Q) by (apply Qmult_le_l'; lra).
  assert (E1 : ((1 - lt) * lo + lt * lo == lo)%Q) by ring.
  assert (E2 : ((1 - lt) * hi + lt * hi == hi)%Q) by ring.
  split; lra.
Qed.

Lemma localT_unit (q pl pu : Q) :
  (pl <= q <= pu)%Q ->
  exists lt,
    (if nlt (Fin 0) (nsub (Fin pu) (Fin pl))
     then ndiv (nsub (Fin q) (Fin pl)) (nsub (Fin pu) (Fin pl)) else Fin 0) = Fin lt /\
    (0 <= lt <= 1)%Q.
Proof.
  intros [H1 H2]. autorewrite with fin.
  destruct (nlt (Fin 0) (Fin (pu - pl))) eqn:E.
  - apply nlt_Fin in E. rewrite ndiv_Fin_pos by assumption.
    eexists. split; [reflexivity|]. split.
    + apply Qle_shift_div_l; [assumption|]. lra.
    + apply Qle_shift_div_r; [assumption|]. lra.
  - exists 0%Q. split; [reflexivity|]. lra.
Qed.

Lemma round_between (x : Q) (k1 k2 : Z) :
  (inject_Z k1 <= x <= inject_Z k2)%Q ->
  exists z : Z, Math_round (Fin x) = Fin (inject_Z z) /\ k1 <= z <= k2.
Proof.
  intros H. exists (Qfloor (x + (1 # 2))). split; [reflexivity|].
  now apply floor_half_between.
Qed.

Lemma chosen_stops (cfg : RendererConfig) (q : Q) (first : ColorStop)
    (rest : list ColorStop) :
  colorStops cfg = first :: rest ->
  Forall (fun s => is_finite (pos s)) (colorStops cfg) ->
  nle (pos first) (Fin q) = true ->
  nle (Fin q) (pos (List.last (colorStops cfg) first)) = true ->
  exists lower upper pl pu,
    default (first, List.last (colorStops cfg) first) (findStops (Fin q) (colorStops cfg))
      = (lower, upper) /\
    lower ∈ colorStops cfg /\ upper ∈ colorStops cfg /\
    pos lower = Fin pl /\ pos upper = Fin pu /\ (pl <= q <= pu)%Q.
Proof.
  intros Hstops Hfin Hlo Hhi. rewrite Hstops in *.
  assert (Hpos : forall s, s ∈ first :: rest -> exists p, pos s = Fin p).
  { intros s Hs. rewrite Forall_forall in Hfin. specialize (Hfin s Hs).
    destruct (pos s) as [p| | |]; try contradiction. now exists p. }
  destruct rest as [|s1 rest'].
  - cbn in Hhi |- *. destruct (Hpos first) as [p Hp]; [left|].
    rewrite Hp in Hlo, Hhi. apply nle_Fin in Hlo. apply nle_Fin in Hhi.
    exists first, first, p, p. repeat split; try assumption; left.
  - destruct (findStops_exists q first (s1 :: rest') Hfin Hlo Hhi) as [[lower upper] Hf];
      [discriminate|].
    rewrite Hf. cbn [default].
    destruct (findStops_found _ _ _ _ Hf) as (Hl & Hu & H1 & H2).
    destruct (Hpos lower Hl) as [pl Hpl]. destruct (Hpos upper Hu) as [pu Hpu].
    rewrite Hpl in H1. rewrite Hpu in H2. apply nle_Fin in H1. apply nle_Fin in H2.
    exists lower, upper, pl, pu. repeat split; assumption.
Qed.

(** With exact sums and products the colour stays in the box of the
    stops, whatever the list of colour stops (at least one, with finite
    positions), for a finite [t] from the position of the first stop up to
    that of the last. *)
Lemma interpolateColor_box (cfg : RendererConfig) (q : Q) (first : ColorStop)
    (rest : list ColorStop) :
  colorStops cfg = first :: rest ->
  Forall (fun s => is_finite (pos s)) (colorStops cfg) ->
  nle (pos first) (Fin q) = true ->
  nle (Fin q) (pos (List.last (colorStops cfg) first)) = true ->
  exists c,
    interpolateColor cfg (Fin q) = Some c /\
    (forall (channel : Color -> num) (lo hi : Z),
        channel = c_r \/ channel = c_g \/ channel = c_b ->
        Forall (fun s => exists v, channel (color s) = Fin v /\
                                   (inject_Z lo <= v <= inject_Z hi)%Q) (colorStops cfg) ->
        exists z : Z, channel c = Fin (inject_Z z) /\ lo <= z <= hi) /\
    (forall lo hi : Q,
        Forall (fun s => exists v, c_a (color s) = Fin v /\ (lo <= v <= hi)%Q)
               (colorStops cfg) ->
        exists v, c_a c = Fin v /\ (lo <= v <= hi)%Q).
Proof.
  intros Hstops Hfin Hlo Hhi.
  destruct (chosen_stops cfg q first rest Hstops Hfin Hlo Hhi)
    as (lower & upper & pl & pu & Hchosen & Hl & Hu & Hpl & Hpu & Hq).
  destruct (localT_unit q pl pu Hq) as (lt & Hlt & Hunit).
  unfold interpolateColor. rewrite Hstops. rewrite <- Hstops. rewrite Hchosen.
  rewrite Hpl, Hpu, Hlt.
  eexists. split; [reflexivity|]. split.
  - intros channel lo hi Hch Hbox. rewrite Forall_forall in Hbox.
    destruct (Hbox lower Hl) as (a & Ha & Ha'). destruct (Hbox upper Hu) as (b & Hb & Hb').
    pose proof (mix_between a b lt _ _ Hunit Ha' Hb') as Hmix.
    destruct (round_between _ lo hi Hmix) as (z & Hz & Hz').
    exists z. split; [|exact Hz'].
    destruct Hch as [->|[->| ->]]; cbn [c_r c_g c_b];
      rewrite Ha, Hb; unfold mix; autorewrite with fin; exact Hz.
  - intros lo hi Hbox. rewrite Forall_forall in Hbox.
    destruct (Hbox lower Hl) as (a & Ha & Ha'). destruct (Hbox upper Hu) as (b & Hb & Hb').
    cbn [c_a]. rewrite Ha, Hb. unfold mix. autorewrite with fin.
    eexists. split; [reflexivity|]. now apply mix_between.
Qed.

(** X23.  Under the initial colour stops, for a finite [t] from 0 to 1,
    [interpolateColor] returns a colour inside the box of the five stops:
    its red is an integer from 132 to 251, its green an integer from 68 to
    204, its blue an integer from 11 to 68, and its alpha lies between 0.3
    and 0.8. *)
Theorem interpolateColor_within (q : Q) :
  (0 <= q <= 1)%Q ->
  exists (c : Color) (r g b : Z) (a : Q),
    interpolateColor RCONFIG0 (Fin q) = Some c /\
    c_r c = Fin (inject_Z r) /\ 132 <= r <= 251 /\
    c_g c = Fin (inject_Z g) /\ 68 <= g <= 204 /\
    c_b c = Fin (inject_Z b) /\ 11 <= b <= 68 /\
    c_a c = Fin a /\ (3 # 10 <= a <= 8 # 10)%Q.
Proof.
  intros [Hq0 Hq1].
  destruct (interpolateColor_box RCONFIG0 q _ _ eq_refl) as (c & Hc & Hrgb & Ha).
  - repeat constructor.
  - apply nle_Fin. exact Hq0.
  - apply nle_Fin. exact Hq1.
  - destruct (Hrgb c_r 132 251) as (r & Hr & Hr'); [now left| |].
    { repeat (constructor; [eexists; split; [reflexivity|split; discriminate]|]).
      constructor. }
    destruct (Hrgb c_g 68 204) as (g & Hg & Hg'); [right; now left| |].
    { repeat (constructor; [eexists; split; [reflexivity|split; discriminate]|]).
      constructor. }
    destruct (Hrgb c_b 11 68) as (b & Hb & Hb'); [right; now right| |].
    { repeat (constructor; [eexists; split; [reflexivity|split; discriminate]|]).
      constructor. }
    destruct (Ha (3 # 10) (8 # 10)) as (a & Ha1 & Ha2).
    { repeat (constructor; [eexists; split; [reflexivity|split; discriminate]|]).
      constructor. }
    exists c, r, g, b, a. repeat split; solve [assumption | lia | lra].
Qed.

Lemma interpolateColor_within_witness :
  exists (c : Color) (r g b : Z) (a : Q),
    interpolateColor RCONFIG0 (Fin (6 # 13)) = Some c /\
    c_r c = Fin (inject_Z r) /\ 132 <= r <= 251 /\
    c_g c = Fin (inject_Z g) /\ 68 <= g <= 204 /\
    c_b c = Fin (inject_Z b) /\ 11 <= b <= 68 /\
    c_a c = Fin a /\ (3 # 10 <= a <= 8 # 10)%Q.
Proof.
  apply (interpolateColor_within (6 # 13)). split; discriminate.
Defined.







(** ** Paths *)

Lemma countOps_app (p : CanvasOp -> bool) (l1 l2 : list CanvasOp) :
  countOps p (l1 ++ l2) = (countOps p l1 + countOps p l2)%nat.
Proof. unfold countOps. now rewrite List.filter_app, length_app. Qed.

Lemma countOps_LineTo (ring : Ring) :
  countOps isLineTo (map (fun v => LineTo (fst v) (snd v)) ring) = length ring.
Proof.
  unfold countOps. induction ring as [|v ring IH]; [reflexivity|].
  cbn [map List.filter isLineTo length]. now rewrite IH.
Qed.

Lemma countOps_not_LineTo (p : CanvasOp -> bool) (ring : Ring) :
  (forall x y, p (LineTo x y) = false) ->
  countOps p (map (fun v => LineTo (fst v) (snd v)) ring) = 0%nat.
Proof.
  intros Hp. unfold countOps. induction ring as [|v ring IH]; [reflexivity|].
  cbn [map List.filter]. now rewrite Hp.
Qed.

Lemma drawRing_short (ring : Ring) :
  (2 <=? length ring)%nat = false -> drawRing ring = [].
Proof. destruct ring as [|v [|v' ring]]; [reflexivity..|discriminate]. Qed.

Lemma drawRing_long (ring : Ring) :
  (2 <=? length ring)%nat = true ->
  exists first rest,
    ring = first :: rest /\ rest <> [] /\
    drawRing ring =
    BeginPath :: MoveTo (fst first) (snd first)
      :: map (fun v => LineTo (fst v) (snd v)) rest ++ [Stroke].
Proof.
  destruct ring as [|v [|v' ring]]; [discriminate..|]. intros _.
  exists v, (v' :: ring). split; [reflexivity|]. split; [discriminate|reflexivity].
Qed.

Lemma drawRing_counts (ring : Ring) :
  (2 <=? length ring)%nat = true ->
  countOps isBeginPath (drawRing ring) = 1%nat /\
  countOps isMoveTo (drawRing ring) = 1%nat /\
  countOps isStroke (drawRing ring) = 1%nat /\
  countOps isLineTo (drawRing ring) = (length ring - 1)%nat.
Proof.
  intros Hlong. destruct (drawRing_long ring Hlong) as (first & rest & -> & _ & ->).
  change (BeginPath :: MoveTo (fst first) (snd first)
            :: map (fun v => LineTo (fst v) (snd v)) rest ++ [Stroke])
    with ([BeginPath; MoveTo (fst first) (snd first)]
            ++ map (fun v => LineTo (fst v) (snd v)) rest ++ [Stroke]).
  rewrite !countOps_app, countOps_LineTo, !countOps_not_LineTo by reflexivity.
  cbn. repeat split; lia.
Qed.

Lemma concat_drawRing_filter (rings : list Ring) :
  concat (map drawRing rings)
  = concat (map drawRing (List.filter (fun ring => (2 <=? length ring)%nat) rings)).
Proof.
  induction rings as [|ring rings IH]; [reflexivity|]. cbn [map concat List.filter].
  destruct (2 <=? length ring)%nat eqn:E.
  - cbn [map concat]. now rewrite IH.
  - now rewrite drawRing_short.
Qed.

Lemma concat_concat_map {A B} (f : A -> list B) (ls : list (list A)) :
  concat (map (fun l => concat (map f l)) ls) = concat (map f (concat ls)).
Proof.
  induction ls as [|l ls IH]; [reflexivity|]. cbn [map concat].
  now rewrite map_app, concat_app, IH.
Qed.

Lemma counts_of_rings (rings : list Ring) :
  Forall (fun ring => (2 <=? length ring)%nat = true) rings ->
  countOps isBeginPath (concat (map drawRing rings)) = length rings /\
  countOps isMoveTo (concat (map drawRing rings)) = length rings /\
  countOps isStroke (concat (map drawRing rings)) = length rings /\
  countOps isLineTo (concat (map drawRing rings))
    = sum_list (map (fun ring => (length ring - 1)%nat) rings).
Proof.
  induction 1 as [|ring rings Hring _ IH]; [repeat split|].
  destruct IH as (I1 & I2 & I3 & I4).
  destruct (drawRing_counts ring Hring) as (C1 & C2 & C3 & C4).
  cbn [map concat length sum_list]. rewrite !countOps_app.
  rewrite I1, I2, I3, I4, C1, C2, C3, C4. repeat split.
Qed.

(** X25.  What [drawContourPath] sends to the context: the stroke style,
    the line width and the round caps and joins, then, for every ring of
    at least two vertices and in the order of the polygons and rings, one
    path: [beginPath], [moveTo] the first vertex, [lineTo] each further
    vertex, [stroke].  Rings of fewer than two vertices leave no trace.
    So there are as many [beginPath], [moveTo] and [stroke] as such rings,
    and one [lineTo] less than their vertices. *)
Theorem drawContourPath_trace (coordinates : MultiPolygon) (color : Color)
    (lineWidth alpha : num) :
  let ops := drawContourPath coordinates color lineWidth alpha in
  let rings := drawnRings coordinates in
  ops = [ SetStrokeStyle (c_r color) (c_g color) (c_b color) alpha;
          SetLineWidth lineWidth; SetLineCapRound; SetLineJoinRound ]
        ++ concat (map drawRing rings) /\
  (forall ring, ring ∈ rings ->
     exists first rest,
       ring = first :: rest /\ rest <> [] /\
       drawRing ring =
       BeginPath :: MoveTo (fst first) (snd first)
         :: map (fun v => LineTo (fst v) (snd v)) rest ++ [Stroke]) /\
  countOps isBeginPath ops = length rings /\
  countOps isMoveTo ops = length rings /\
  countOps isStroke ops = length rings /\
  countOps isLineTo ops = sum_list (map (fun ring => (length ring - 1)%nat) rings).
Proof.
  intros ops rings.
  assert (Hlong : Forall (fun ring => (2 <=? length ring)%nat = true) rings).
  { apply Forall_forall. intros ring Hin. unfold rings, drawnRings in Hin.
    apply list_elem_of_In, List.filter_In in Hin. tauto. }
  assert (Hops : ops =
            [ SetStrokeStyle (c_r color) (c_g color) (c_b color) alpha;
              SetLineWidth lineWidth; SetLineCapRound; SetLineJoinRound ]
            ++ concat (map drawRing rings)).
  { unfold ops, drawContourPath, rings, drawnRings.
    now rewrite concat_concat_map, concat_drawRing_filter. }
  split; [exact Hops|]. split.
  - intros ring Hin. rewrite Forall_forall in Hlong. apply drawRing_long, Hlong, Hin.
  - destruct (counts_of_rings rings Hlong) as (C1 & C2 & C3 & C4).
    rewrite Hops, !countOps_app, C1, C2, C3, C4. repeat split.
Qed.

Lemma drawContourPath_trace_witness :
  countOps isStroke (drawContourPath threeRings (mkColor (Fin 1) (Fin 2) (Fin 3) (Fin 1))
                       (Fin 2) (Fin 1)) = 1%nat /\
  countOps isLineTo (drawContourPath threeRings (mkColor (Fin 1) (Fin 2) (Fin 3) (Fin 1))
                       (Fin 2) (Fin 1)) = 2%nat.
Proof.
  destruct (drawContourPath_trace threeRings (mkColor (Fin 1) (Fin 2) (Fin 3) (Fin 1))
              (Fin 2) (Fin 1)) as (_ & _ & _ & _ & H1 & H2).
  split; [exact H1|exact H2].
Defined.

(** ** One contour *)

Lemma interpolateColor_default_some (t : num) :
  is_Some (interpolateColor RCONFIG0 t).
Proof.
  unfold interpolateColor. cbn [colorStops RCONFIG0].
  destruct (default _ _) as [lower upper]. eexists. reflexivity.
Qed.

(** X26.  Under the initial renderer configuration a contour that has its
    [pixelCoordinates] is drawn without an exception, so every contour
    [process] returns is.  When its [normalizedValue] is a finite [q] in
    [0, 1], the line width is [1.5 + 1.5 q], between 1.5 and 3; the glow
    layer, with its [save] and [restore] and a stroke one and a half times
    as wide, comes first exactly when [q > 0.3]; the main path follows.
    When the [normalizedValue] is NaN or missing there is no glow, and the
    only path is stroked with NaN for the colour, the alpha and the line
    width. *)
Theorem renderContour_cases :
  (forall (contour : Contour) (pixels : MultiPolygon),
      pixelCoordinates contour = Some pixels ->
      is_Some (renderContour RCONFIG0 contour)) /\
  (forall (Mexp : Q -> Q) (isorings : Z -> Z -> list num -> num -> MultiPolygon)
          (resources : list Resource) (bounds : Bounds) (pixelBounds : PixelBounds)
          (w : World) (contour : Contour),
      contour ∈ res_contours (run (process Mexp isorings resources bounds pixelBounds) w) ->
      is_Some (renderContour RCONFIG0 contour)) /\
  (forall (contour : Contour) (pixels : MultiPolygon) (q : Q),
      pixelCoordinates contour = Some pixels ->
      normalizedValue contour = Some (Fin q) -> (0 <= q <= 1)%Q ->
      exists color l,
        interpolateColor RCONFIG0 (Fin q) = Some color /\
        (l == (3 # 2) + (3 # 2) * q)%Q /\ (3 # 2 <= l <= 3)%Q /\
        renderContour RCONFIG0 contour =
        Some ((if nlt (Fin (3 # 10)) (Fin q)
               then glowLayer RCONFIG0 pixels color (Fin q) (Fin l)
               else [])
              ++ drawContourPath pixels color (Fin l) (c_a color))) /\
  (forall (contour : Contour) (pixels : MultiPolygon),
      pixelCoordinates contour = Some pixels ->
      normalizedValue contour = Some NaN \/ normalizedValue contour = None ->
      renderContour RCONFIG0 contour =
      Some (drawContourPath pixels (mkColor NaN NaN NaN NaN) NaN NaN)).
Proof.
  assert (Hsome : forall (contour : Contour) (pixels : MultiPolygon),
             pixelCoordinates contour = Some pixels ->
             is_Some (renderContour RCONFIG0 contour)).
  { intros contour pixels Hpix. unfold renderContour. cbv zeta.
    destruct (interpolateColor_default_some (default NaN (normalizedValue contour)))
      as [color ->].
    rewrite Hpix. eexists. reflexivity. }
  split; [exact Hsome|]. split; [|split].
  - intros Mexp isorings resources bounds pixelBounds w contour Hin.
    rewrite process_run in Hin. cbn [res_contours] in Hin.
    unfold run, transformToPixels, bind, getConfig, ret in Hin. cbn [fst] in Hin.
    apply list_elem_of_fmap in Hin. destruct Hin as (c0 & -> & _).
    eapply Hsome. reflexivity.
  - intros contour pixels q Hpix Hnv Hq. unfold renderContour. cbv zeta.
    rewrite Hnv, Hpix. change (default NaN (Some (Fin q))) with (Fin q).
    destruct (interpolateColor_default_some (Fin q)) as [color Hcolor]. rewrite Hcolor.
    cbn [baseLineWidth maxLineWidth glowEnabled RCONFIG0 andb]. autorewrite with fin.
    exists color. eexists. split; [reflexivity|]. split; [|split; [|reflexivity]].
    + ring.
    + split; lra.
  - intros contour pixels Hpix Hnv. unfold renderContour. cbv zeta. rewrite Hpix.
    assert (E : default NaN (normalizedValue contour) = NaN)
      by (destruct Hnv as [-> | ->]; reflexivity).
    rewrite E. reflexivity.
Qed.

Lemma renderContour_cases_witness :
  renderContour RCONFIG0 (mkContour (Fin 1) [] (Some NaN) (Some threeRings)) =
  Some (drawContourPath threeRings (mkColor NaN NaN NaN NaN) NaN NaN).
Proof.
  destruct renderContour_cases as (_ & _ & _ & H).
  apply (H (mkContour (Fin 1) [] (Some NaN) (Some threeRings)) threeRings); [reflexivity|].
  now left.
Defined.

(** * Properties of the application *)

(** ** Filters and counters *)

Lemma filterOn_known (t : string) : t ∈ resourceTypes -> filterOn filters0 t = true.
Proof.
  intros Hin. unfold resourceTypes in Hin.
  repeat (apply elem_of_cons in Hin as [->|Hin]; [reflexivity|]). inversion Hin.
Qed.

Lemma filterOn_setFilter (filters : Filters) (t t' : string) (checked : bool) :
  t <> "__proto__"%string ->
  filterOn (setFilter filters t checked) t'
  = if String.eqb t' t then checked else filterOn filters t'.
Proof.
  intros Hproto. unfold setFilter, filterOn, Filters in *.
  apply String.eqb_neq in Hproto. rewrite Hproto.
  destruct (String.eqb t' t) eqn:E.
  - apply String.eqb_eq in E. subst t'. now rewrite lookup_insert_eq.
  - apply String.eqb_neq in E. rewrite lookup_insert_ne by congruence. reflexivity.
Qed.

Lemma counts_step (resources : list Facility) (counts : gmap string nat) (t : string) :
  fold_left
    (fun counts r =>
       match counts !! f_type r with
       | Some n => <[f_type r := S n]> counts
       | None => counts
       end)
    resources counts !! t
  = (fun n => (n + length (List.filter (fun r => String.eqb (f_type r) t) resources))%nat)
      <$> counts !! t.
Proof.
  revert counts. induction resources as [|r rs IH]; intros counts.
  - cbn. destruct (counts !! t); cbn; [f_equal; lia|reflexivity].
  - cbn [fold_left List.filter]. rewrite IH.
    destruct (String.eqb (f_type r) t) eqn:E.
    + apply String.eqb_eq in E. rewrite E.
      destruct (counts !! t) as [n|] eqn:Hn.
      * rewrite lookup_insert_eq. cbn. f_equal. lia.
      * rewrite Hn. reflexivity.
    + apply String.eqb_neq in E.
      destruct (counts !! f_type r) as [n|]; [|reflexivity].
      now rewrite lookup_insert_ne.
Qed.

Lemma counts0_lookup (t : string) :
  counts0 !! t = if bool_decide (t ∈ resourceTypes) then Some 0%nat else None.
Proof.
  case_bool_decide as Hin.
  - unfold resourceTypes in Hin.
    repeat (apply elem_of_cons in Hin as [->|Hin]; [reflexivity|]). inversion Hin.
  - apply not_elem_of_list_to_map_1. intros Hk. apply Hin.
    rewrite <- list_fmap_compose in Hk. now rewrite list_fmap_id in Hk.
Qed.

Lemma one_type_each (r : Facility) :
  f_type r ∈ resourceTypes ->
  sum_list (map (fun t => if String.eqb (f_type r) t then 1%nat else 0%nat) resourceTypes)
  = 1%nat.
Proof.
  intros Hin. unfold resourceTypes in *.
  repeat (apply elem_of_cons in Hin as [->|Hin]; [reflexivity|]). inversion Hin.
Qed.

Lemma sum_list_map_plus {A} (f g : A -> nat) (l : list A) :
  sum_list (map (fun x => (f x + g x)%nat) l)
  = (sum_list (map f l) + sum_list (map g l))%nat.
Proof.
  induction l as [|x l IH]; [reflexivity|].
  change (f x + g x + sum_list (map (fun x => f x + g x) l)
          = f x + sum_list (map f l) + (g x + sum_list (map g l)))%nat.
  rewrite IH. lia.
Qed.

Lemma sum_of_counts (resources : list Facility) :
  Forall (fun r => f_type r ∈ resourceTypes) resources ->
  sum_list (map (fun t => length (List.filter (fun r => String.eqb (f_type r) t) resources))
                resourceTypes)
  = length resources.
Proof.
  induction 1 as [|r rs Hr _ IH]; [reflexivity|].
  transitivity
    (sum_list
       (map (fun t => ((if String.eqb (f_type r) t then 1 else 0)
                       + length (List.filter (fun r => String.eqb (f_type r) t) rs))%nat)
            resourceTypes)).
  - f_equal. apply map_ext. intros t. cbn [List.filter].
    destruct (String.eqb (f_type r) t); reflexivity.
  - rewrite sum_list_map_plus, (one_type_each r Hr), IH. reflexivity.
Qed.

Lemma Qfloor_tenth (n : nat) (z : Z) :
  Qfloor (inject_Z (Z.of_nat n) / 10 + (1 # 2)) = z ->
  10 * z - 5 <= Z.of_nat n <= 10 * z + 4.
Proof.
  intros <-.
  pose proof (Qfloor_le (inject_Z (Z.of_nat n) / 10 + (1 # 2))) as H1.
  pose proof (Qlt_floor (inject_Z (Z.of_nat n) / 10 + (1 # 2))) as H2.
  set (z := Qfloor _) in *. rewrite inject_Z_plus in H2. change (inject_Z 1) with 1%Q in H2.
  assert (E : (inject_Z (Z.of_nat n) == 10 * (inject_Z (Z.of_nat n) / 10))%Q) by field.
  assert (A : (inject_Z (10 * z) <= inject_Z (Z.of_nat n + 5))%Q).
  { rewrite inject_Z_plus, inject_Z_mult.
    change (inject_Z 10) with 10%Q. change (inject_Z 5) with 5%Q.
    rewrite E. lra. }
  assert (B : (inject_Z (Z.of_nat n + 5) < inject_Z (10 * z + 10))%Q).
  { rewrite !inject_Z_plus, inject_Z_mult.
    change (inject_Z 10) with 10%Q. change (inject_Z 5) with 5%Q.
    rewrite E. lra. }
  rewrite <- Zle_Qle in A. rewrite <- Zlt_Qlt in B. lia.
Qed.

Lemma applyFilters_all_on (resources : list Facility) :
  Forall (fun r => f_type r ∈ resourceTypes) resources ->
  applyFilters filters0 resources = resources.
Proof.
  unfold applyFilters. induction 1 as [|r rs Hr _ IH]; [reflexivity|].
  cbn [List.filter]. rewrite (filterOn_known _ Hr). now rewrite IH.
Qed.

Lemma applyFilters_switch_off (filters : Filters) (resources : list Facility) (t : string) :
  t <> "__proto__"%string ->
  applyFilters (setFilter filters t false) resources
  = List.filter (fun r => negb (String.eqb (f_type r) t)) (applyFilters filters resources).
Proof.
  intros Hproto. unfold applyFilters.
  induction resources as [|r rs IH]; [reflexivity|]. cbn [List.filter].
  rewrite filterOn_setFilter by assumption. rewrite IH.
  destruct (String.eqb (f_type r) t) eqn:E;
    (destruct (filterOn filters (f_type r)); [cbn [List.filter]; rewrite E|]; reflexivity).
Qed.

Lemma updateResourceCounts_lookup (resources : list Facility) (t : string) :
  updateResourceCounts resources !! t
  = if bool_decide (t ∈ resourceTypes)
    then Some (length (List.filter (fun r => String.eqb (f_type r) t) resources))
    else None.
Proof.
  unfold updateResourceCounts. rewrite counts_step, counts0_lookup.
  case_bool_decide; reflexivity.
Qed.

(** X27.  The sidebar.  With every filter on, resources of the seven types
    all pass [applyFilters]; switching a type off removes exactly the
    resources of that type; a type named like an inherited property passes
    any filter object that does not set it, yet is counted nowhere.
    [updateResourceCounts] counts, for each of the seven types, the
    resources of that type, and has no other counter; over resources of
    the seven types the counters add up to the number of resources.  The
    density figure is that number divided by ten and rounded, capped at
    100: it is 0 below five resources and 100 from 995 on. *)
Theorem sidebar_numbers (filters : Filters) (resources : list Facility) :
  (Forall (fun r => f_type r ∈ resourceTypes) resources ->
   applyFilters filters0 resources = resources /\
   sum_list (map (fun t => default 0%nat (updateResourceCounts resources !! t)) resourceTypes)
   = length resources) /\
  (forall t : string,
      t <> "__proto__"%string ->
      applyFilters (setFilter filters t false) resources
      = List.filter (fun r => negb (String.eqb (f_type r) t))
                    (applyFilters filters resources)) /\
  (forall t : string,
      t ∈ Object_prototype_names -> filters !! t = None ->
      filterOn filters t = true /\ updateResourceCounts resources !! t = None) /\
  (forall t : string,
      updateResourceCounts resources !! t
      = if bool_decide (t ∈ resourceTypes)
        then Some (length (List.filter (fun r => String.eqb (f_type r) t) resources))
        else None) /\
  (exists z : Z,
      density (length resources) = Fin (inject_Z z) /\ 0 <= z <= 100 /\
      ((length resources < 5)%nat -> z = 0) /\
      ((995 <= length resources)%nat -> z = 100) /\
      (z < 100 -> 10 * z - 5 <= Z.of_nat (length resources) <= 10 * z + 4)).
Proof.
  pose proof (updateResourceCounts_lookup resources) as Hcounts.
  split; [|split; [|split; [|split]]].
  - intros Hknown. split; [now apply applyFilters_all_on|].
    etransitivity; [|exact (sum_of_counts resources Hknown)]. f_equal.
    apply map_ext_in. intros t Ht. rewrite Hcounts.
    rewrite bool_decide_eq_true_2 by (now apply list_elem_of_In). reflexivity.
  - intros t Hproto. now apply applyFilters_switch_off.
  - intros t Hin Hnone. split.
    + unfold filterOn. rewrite Hnone. now apply bool_decide_eq_true_2.
    + rewrite Hcounts. rewrite bool_decide_eq_false_2; [reflexivity|].
      intros Hknown. destruct (resourceTypes_configured t Hknown) as [Hnot _]. tauto.
  - exact Hcounts.
  - unfold density. destruct (0 <? length resources)%nat eqn:Hpos.
    + unfold num_of_Z. rewrite ndiv_Fin_pos by reflexivity.
      unfold Math_round, num_of_Z.
      remember (Qfloor (inject_Z (Z.of_nat (length resources)) / 10 + (1 # 2))) as z eqn:Hz.
      symmetry in Hz. apply Qfloor_tenth in Hz.
      destruct (Math_min_Fin 100 (inject_Z z)) as (m & -> & [[-> Hm]|[-> Hm]]).
      * change 100%Q with (inject_Z 100) in Hm. rewrite <- Zle_Qle in Hm.
        exists 100. split; [reflexivity|]. repeat split; lia.
      * change 100%Q with (inject_Z 100) in Hm. rewrite <- Zlt_Qlt in Hm.
        apply Nat.ltb_lt in Hpos.
        exists z. split; [reflexivity|]. repeat split; lia.
    + apply Nat.ltb_ge in Hpos. exists 0. split; [reflexivity|]. repeat split; lia.
Qed.

(** ** Has the map moved enough? *)

Lemma nlt_Math_max_Fin (t a b : Q) :
  nlt (Fin t) (Math_max (Fin a) (Fin b)) = nlt (Fin t) (Fin a) || nlt (Fin t) (Fin b).
Proof.
  unfold Math_max. destruct (nlt (Fin a) (Fin b)) eqn:E.
  - apply nlt_Fin in E.
    destruct (nlt (Fin t) (Fin a)) eqn:E1; [|reflexivity].
    apply nlt_Fin in E1. cbn [orb]. apply nlt_Fin. lra.
  - apply nlt_Fin_false in E.
    destruct (nlt (Fin t) (Fin b)) eqn:E1; [|now rewrite orb_false_r].
    apply nlt_Fin in E1. rewrite orb_true_r. apply nlt_Fin. lra.
Qed.

Lemma Qlt_div_iff (a b c : Q) : (0 < c)%Q -> (a < b / c <-> a * c < b)%Q.
Proof.
  intros Hc. split; intros H.
  - assert (E : (b == b / c * c)%Q) by (field; lra).
    rewrite E. apply Qmult_lt_compat_r; assumption.
  - now apply Qlt_shift_div_l.
Qed.

Lemma or_one_pos (h : Q) : (0 < h)%Q -> or_one (Fin h) = Fin h.
Proof.
  intros Hh. unfold or_one. destruct (Qeq_bool h 0) eqn:E; [|reflexivity].
  apply Qeq_bool_iff in E. lra.
Qed.

Lemma same_center (a b : num) (t : Q) :
  (0 <= t)%Q ->
  nlt (Fin t) (Math_abs (nsub (ndiv (nadd a b) (Fin 2)) (ndiv (nadd a b) (Fin 2)))) = false.
Proof.
  intros Ht. destruct (ndiv (nadd a b) (Fin 2)) as [c| | |]; try reflexivity.
  autorewrite with fin. cbn [Math_abs]. apply nlt_Fin_false.
  assert (E : (c - c == 0)%Q) by ring. rewrite E. change (Qabs 0) with 0%Q. exact Ht.
Qed.

Lemma same_size (a b : num) :
  let h := nsub a b in
  ndiv (Math_abs (nsub h h)) (or_one h) = NaN \/
  exists q, ndiv (Math_abs (nsub h h)) (or_one h) = Fin q /\ (q == 0)%Q.
Proof.
  intros h. destruct h as [x| | |]; try (left; reflexivity).
  right. autorewrite with fin. cbn [Math_abs or_one].
  assert (E : (Qabs (x - x) == 0)%Q).
  { assert (E0 : (x - x == 0)%Q) by ring. rewrite E0. reflexivity. }
  destruct (Qeq_bool x 0) eqn:Hx.
  - rewrite ndiv_Fin_pos by reflexivity. eexists. split; [reflexivity|].
    rewrite E. reflexivity.
  - apply Qeq_bool_neq in Hx. unfold ndiv.
    destruct (Qsign x) eqn:Hs.
    + unfold Qsign in Hs. apply Qeq_alt in Hs. contradiction.
    + eexists. split; [reflexivity|]. rewrite E. field. exact Hx.
    + eexists. split; [reflexivity|]. rewrite E. field. exact Hx.
Qed.

Lemma lat_NaN_center (b1 b2 : BBox) :
  b_south b1 = NaN \/ b_north b1 = NaN \/ b_south b2 = NaN \/ b_north b2 = NaN ->
  Math_abs (nsub (ndiv (nadd (b_south b1) (b_north b1)) (Fin 2))
                 (ndiv (nadd (b_south b2) (b_north b2)) (Fin 2))) = NaN /\
  Math_abs (nsub (nsub (b_north b1) (b_south b1)) (nsub (b_north b2) (b_south b2))) = NaN.
Proof.
  intros [H|[H|[H|H]]]; rewrite H;
    destruct (b_south b1), (b_north b1), (b_south b2), (b_north b2);
    try discriminate; split; try reflexivity;
    cbn; repeat (match goal with |- context [Qsign ?x] => destruct (Qsign x) end);
    reflexivity.
Qed.

(** X28.  [isBboxSignificantlyDifferent] answers true when either string is
    missing and false when both are the same box, whatever its numbers.
    For boxes given in degrees, the first at least 10^-9 degree high and
    wide, it answers true when a center moved by 0.006 degree or more in
    latitude or longitude, or the height or width changed by 16% or more
    of the first box, and false when both centers moved by at most 0.004
    degree and both sizes changed by at most 14%.  As the change is
    measured against the first box only, the answer depends on the order
    of the two.  A latitude that is NaN switches off the latitude test and
    the size test together. *)
Theorem isBboxSignificantlyDifferent_cases :
  (forall b : option BBox,
      isBboxSignificantlyDifferent None b = true /\
      isBboxSignificantlyDifferent b None = true) /\
  (forall b : BBox, isBboxSignificantlyDifferent (Some b) (Some b) = false) /\
  (forall s1 w1 n1 e1 s2 w2 n2 e2 : Q,
      Forall degrees [Fin s1; Fin w1; Fin n1; Fin e1; Fin s2; Fin w2; Fin n2; Fin e2] ->
      (s1 + smallestCell <= n1)%Q -> (w1 + smallestCell <= e1)%Q ->
      let answer :=
        isBboxSignificantlyDifferent
          (Some (mkBBox (Fin s1) (Fin w1) (Fin n1) (Fin e1)))
          (Some (mkBBox (Fin s2) (Fin w2) (Fin n2) (Fin e2))) in
      let latMove := Qabs ((s1 + n1) / 2 - (s2 + n2) / 2) in
      let lngMove := Qabs ((w1 + e1) / 2 - (w2 + e2) / 2) in
      let heightChange := Qabs (n1 - s1 - (n2 - s2)) in
      let widthChange := Qabs (e1 - w1 - (e2 - w2)) in
      ((6 # 1000 <= latMove)%Q \/ (6 # 1000 <= lngMove)%Q \/
       ((16 # 100) * (n1 - s1) <= heightChange)%Q \/
       ((16 # 100) * (e1 - w1) <= widthChange)%Q -> answer = true) /\
      ((latMove <= 4 # 1000)%Q -> (lngMove <= 4 # 1000)%Q ->
       (heightChange <= (14 # 100) * (n1 - s1))%Q ->
       (widthChange <= (14 # 100) * (e1 - w1))%Q -> answer = false)) /\
  (isBboxSignificantlyDifferent (Some unitBox) (Some grownBox) = true /\
   isBboxSignificantlyDifferent (Some grownBox) (Some unitBox) = false) /\
  (forall b1 b2 : BBox,
      b_south b1 = NaN \/ b_north b1 = NaN \/ b_south b2 = NaN \/ b_north b2 = NaN ->
      isBboxSignificantlyDifferent (Some b1) (Some b2)
      = nlt MIN_BBOX_MOVE_THRESHOLD
            (Math_abs (nsub (ndiv (nadd (b_west b1) (b_east b1)) (Fin 2))
                            (ndiv (nadd (b_west b2) (b_east b2)) (Fin 2))))).
Proof.
  split; [|split; [|split; [|split]]].
  - intros b. split; [reflexivity|now destruct b].
  - intros b. unfold isBboxSignificantlyDifferent. cbv zeta.
    unfold MIN_BBOX_MOVE_THRESHOLD, BBOX_SIZE_CHANGE_THRESHOLD.
    rewrite !same_center by discriminate. cbn [orb].
    destruct (same_size (b_north b) (b_south b)) as [-> |(q1 & -> & H1)];
      destruct (same_size (b_east b) (b_west b)) as [-> |(q2 & -> & H2)];
      try reflexivity.
    rewrite nlt_Math_max_Fin.
    assert (F1 : nlt (Fin (15 # 100)) (Fin q1) = false) by (apply nlt_Fin_false; lra).
    assert (F2 : nlt (Fin (15 # 100)) (Fin q2) = false) by (apply nlt_Fin_false; lra).
    now rewrite F1, F2.
  - intros s1 w1 n1 e1 s2 w2 n2 e2 _ Hh Hw answer latMove lngMove heightChange widthChange.
    unfold smallestCell in Hh, Hw.
    assert (Hiff : answer = true <->
                   (5 # 1000 < latMove)%Q \/ (5 # 1000 < lngMove)%Q \/
                   ((15 # 100) * (n1 - s1) < heightChange)%Q \/
                   ((15 # 100) * (e1 - w1) < widthChange)%Q).
    { unfold answer, latMove, lngMove, heightChange, widthChange.
      unfold isBboxSignificantlyDifferent. cbv zeta.
      cbn [b_south b_west b_north b_east].
      unfold MIN_BBOX_MOVE_THRESHOLD, BBOX_SIZE_CHANGE_THRESHOLD.
      autorewrite with fin. rewrite !(ndiv_Fin_pos _ 2) by reflexivity.
      autorewrite with fin. cbn [Math_abs].
      rewrite !or_one_pos by lra. rewrite !ndiv_Fin_pos by lra.
      rewrite nlt_Math_max_Fin, !orb_true_iff, !nlt_Fin.
      rewrite !Qlt_div_iff by lra.
      tauto. }
    split.
    + intros H. apply Hiff.
      destruct H as [H|[H|[H|H]]].
      * left. lra.
      * right. left. lra.
      * right. right. left. nra.
      * right. right. right. nra.
    + intros H1 H2 H3 H4. destruct answer; [|reflexivity].
      destruct Hiff as [Hiff _]. destruct (Hiff eq_refl) as [H|[H|[H|H]]].
      * lra.
      * lra.
      * nra.
      * nra.
  - split; reflexivity.
  - intros b1 b2 Hnan. unfold isBboxSignificantlyDifferent. cbv zeta.
    destruct (lat_NaN_center b1 b2 Hnan) as [-> ->].
    unfold MIN_BBOX_MOVE_THRESHOLD, BBOX_SIZE_CHANGE_THRESHOLD.
    replace (ndiv NaN (or_one (nsub (b_north b1) (b_south b1)))) with NaN
      by (now destruct (or_one _)).
    cbn [nlt orb Math_max]. now rewrite orb_false_r.
Qed.

Lemma isBboxSignificantlyDifferent_cases_witness :
  isBboxSignificantlyDifferent
    (Some (mkBBox (Fin 25) (Fin 121) (Fin (251 # 10)) (Fin (1211 # 10))))
    (Some (mkBBox (Fin (2501 # 100)) (Fin 121) (Fin (2511 # 100)) (Fin (1211 # 10)))) = true.
Proof.
  destruct isBboxSignificantlyDifferent_cases as (_ & _ & H & _).
  apply (H 25 121 (251 # 10) (1211 # 10) (2501 # 100) 121 (2511 # 100) (1211 # 10))%Q.
  - repeat (constructor; [split; discriminate|]). constructor.
  - discriminate.
  - discriminate.
  - left. discriminate.
Defined.

(** * Properties of the Overpass client *)

Lemma countEvents_app (p : ClientEvent -> bool) (l1 l2 : list ClientEvent) :
  countEvents p (l1 ++ l2) = (countEvents p l1 + countEvents p l2)%nat.
Proof. unfold countEvents. now rewrite List.filter_app, length_app. Qed.

Lemma countEvents_ParserError (p : ClientEvent -> bool) (errors : list OverpassLog) :
  p ParserError = false ->
  countEvents p (map (fun _ => ParserError) errors) = 0%nat.
Proof.
  intros Hp. unfold countEvents. induction errors as [|e l IH]; [reflexivity|].
  cbn [map List.filter]. now rewrite Hp.
Qed.

Section ClientFacts.

Variable parseInt : JsVal -> num.
Variable dateNow : nat -> Z.
Variable fetch : nat -> nat -> Raw.

Lemma fetchWithTimeout_ok (call endpoint : nat) (status : Z) (retryAfter : option string)
    (body : Body) :
  fetchWithTimeout fetch call endpoint = inr (status, retryAfter, body) ->
  200 <= status <= 299.
Proof.
  unfold fetchWithTimeout. destruct (fetch call endpoint) as [|st ra b]; [discriminate|].
  destruct (response_ok st) eqn:E; [|discriminate].
  intros [= <- <- <-]. unfold response_ok in E. lia.
Qed.

Lemma attempt_never_rate_limited (call endpoint : nat) (waitTime : num) :
  attempt parseInt fetch call endpoint <> inr (RateLimited waitTime).
Proof.
  unfold attempt.
  destruct (fetchWithTimeout fetch call endpoint) as [failure|[[status ra] body]] eqn:E;
    [discriminate|].
  apply fetchWithTimeout_ok in E.
  destruct (status =? 429) eqn:E429; [lia|].
  destruct body as [| |[elements|]]; discriminate.
Qed.

Lemma attempt_429 (call endpoint : nat) (retryAfter : option string) (body : Body) :
  fetch call endpoint = HttpResponse 429 retryAfter body ->
  attempt parseInt fetch call endpoint = inl (HttpFailure 429).
Proof. intros H. unfold attempt, fetchWithTimeout. now rewrite H. Qed.

(** What one run of the retry loop does to the client. *)
Lemma retryLoop_spec (remaining : nat) (cacheKey : string) (lastError : option Failure)
    (c : Client) :
  let out := retryLoop parseInt dateNow fetch remaining cacheKey lastError c in
  let c' := snd out in
  (exists new,
      events c' = events c ++ new /\
      (countEvents isRequest new <= remaining)%nat /\
      requests c' = (requests c + countEvents isRequest new)%nat /\
      countEvents isTooManyRequests new = 0%nat /\
      (countEvents isSleep new <= remaining - 1)%nat) /\
  ((endpointIndex c < 2)%nat -> (endpointIndex c' < 2)%nat) /\
  lastRequestTime c' = lastRequestTime c /\
  match fst (fst out) with
  | Some resources =>
      cache c' = <[cacheKey := mkCacheEntry resources (dateNow (clockReads c))]> (cache c) /\
      clockReads c' = S (clockReads c) /\
      exists call endpoint elements,
        attempt parseInt fetch call endpoint = inr (GotElements elements) /\
        resources = fst (parseElements parseInt elements)
  | None =>
      cache c' = cache c /\ clockReads c' = clockReads c /\
      (forall failure : Failure,
          snd (fst out) = Some failure ->
          lastError = Some failure \/
          exists call endpoint, attempt parseInt fetch call endpoint = inl failure)
  end.
Proof.
  revert lastError c. induction remaining as [|remaining IH]; intros lastError c.
  - cbn. split; [|repeat split; tauto].
    exists []. rewrite app_nil_r. cbn [countEvents List.filter length]. repeat split; lia.
  - cbn [retryLoop]. cbv zeta.
    cbn [cache endpointIndex lastRequestTime clockReads requests events].
    destruct (attempt parseInt fetch (requests c) (endpointIndex c))
      as [failure|[waitTime| |elements]] eqn:E.
    + (* an exception was caught *)
      set (c1 := mkClient (cache c) ((endpointIndex c + 1) mod endpointCount)
                   (lastRequestTime c) (clockReads c) (S (requests c))
                   ((events c ++ [Request (endpointIndex c)])
                      ++ [WarnEndpointFailed (endpointIndex c)])).
      set (c2 := if (0 <? remaining)%nat then record [Sleep (num_of_Z retryDelay)] c1 else c1).
      specialize (IH (Some failure) c2).
      cbv zeta in IH. destruct IH as ((new & Hev & Hreq & Hcnt & H429 & Hsleep) & Hidx & Hlast & Hres).
      assert (Hc2 : exists pause,
                 events c2 = events c1 ++ pause /\ cache c2 = cache c1 /\
                 endpointIndex c2 = endpointIndex c1 /\ requests c2 = requests c1 /\
                 clockReads c2 = clockReads c1 /\ lastRequestTime c2 = lastRequestTime c1 /\
                 countEvents isRequest pause = 0%nat /\
                 countEvents isTooManyRequests pause = 0%nat /\
                 (countEvents isSleep pause + (remaining - 1) <= remaining)%nat).
      { unfold c2. destruct (0 <? remaining)%nat eqn:Hr.
        - apply Nat.ltb_lt in Hr. exists [Sleep (num_of_Z retryDelay)].
          cbn [record events cache endpointIndex requests clockReads lastRequestTime
               countEvents List.filter isRequest isTooManyRequests isSleep length].
          repeat split; lia.
        - exists []. rewrite app_nil_r. cbn [countEvents List.filter length].
          repeat split; lia. }
      destruct Hc2 as (pause & Hp1 & Hp2 & Hp3 & Hp4 & Hp5 & Hp6 & Hp7 & Hp8 & Hp9).
      split; [|split; [|split]].
      * exists ([Request (endpointIndex c); WarnEndpointFailed (endpointIndex c)]
                  ++ pause ++ new).
        rewrite Hev, Hp1. unfold c1. cbn [events].
        split; [now rewrite <- !app_assoc|].
        rewrite !countEvents_app, Hp7, Hp8. cbn [countEvents List.filter isRequest
          isTooManyRequests isSleep length].
        rewrite Hcnt, Hp4. unfold c1. cbn [requests]. repeat split; lia.
      * intros _. apply Hidx. rewrite Hp3. unfold c1. cbn [endpointIndex].
        apply Nat.mod_upper_bound. discriminate.
      * rewrite Hlast, Hp6. reflexivity.
      * destruct (fst (fst (retryLoop parseInt dateNow fetch remaining cacheKey
                              (Some failure) c2))) as [resources|].
        -- destruct Hres as (Hcache & Hclock & Hfrom).
           rewrite Hcache, Hclock, Hp2, Hp5. unfold c1. cbn [cache clockReads].
           repeat split. exact Hfrom.
        -- destruct Hres as (Hcache & Hclock & Horigin).
           rewrite Hcache, Hclock, Hp2, Hp5. unfold c1. cbn [cache clockReads].
           repeat split. intros f Hf. right.
           destruct (Horigin f Hf) as [[= <-]|Hfrom]; [|exact Hfrom].
           exists (requests c), (endpointIndex c). exact E.
    + exfalso. exact (attempt_never_rate_limited _ _ _ E).
    + (* an answer without elements *)
      set (c1 := mkClient (cache c) (endpointIndex c) (lastRequestTime c) (clockReads c)
                   (S (requests c)) (events c ++ [Request (endpointIndex c)])).
      specialize (IH lastError c1).
      cbv zeta in IH. destruct IH as ((new & Hev & Hreq & Hcnt & H429 & Hsleep) & Hidx & Hlast & Hres).
      split; [|split; [|split]].
      * exists ([Request (endpointIndex c)] ++ new).
        rewrite Hev, Hcnt. unfold c1. cbn [events requests].
        split; [now rewrite <- !app_assoc|].
        rewrite !countEvents_app. cbn [countEvents List.filter isRequest
          isTooManyRequests isSleep length].
        repeat split; lia.
      * exact Hidx.
      * exact Hlast.
      * exact Hres.
    + (* elements *)
      destruct (parseElements parseInt elements) as [resources errors] eqn:Hparse.
      cbn [readClock record fst snd cache endpointIndex lastRequestTime clockReads
           requests events].
      split; [|split; [|split]].
      * exists ([Request (endpointIndex c)] ++ map (fun _ => ParserError) errors
                  ++ [LogFetched (length resources)]).
        split; [now rewrite <- !app_assoc|].
        rewrite !countEvents_app, !countEvents_ParserError by reflexivity.
        cbn [countEvents List.filter isRequest isTooManyRequests isSleep length].
        repeat split; lia.
      * tauto.
      * reflexivity.
      * split; [reflexivity|]. split; [reflexivity|].
        exists (requests c), (endpointIndex c), elements. split; [exact E|].
        now rewrite Hparse.
Qed.

End ClientFacts.

Section ClientTheorems.

Variable parseInt : JsVal -> num.
Variable dateNow : nat -> Z.
Variable fetch : nat -> nat -> Raw.

(** The end of [fetchResources]: the retry loop and what follows it. *)
Lemma finish_spec (cacheKey : string) (cached : option CacheEntry) (c : Client) :
  let out :=
    match retryLoop parseInt dateNow fetch (S maxRetries) cacheKey None c with
    | (Some resources, _, c) => (inr resources, c)
    | (None, lastError, c) =>
        match cached with
        | Some entry => (inr (ce_data entry), record [WarnExpiredCache] c)
        | None => (inl (default FailedToFetch lastError), c)
        end
    end in
  (exists new,
      events (snd out) = events c ++ new /\
      (countEvents isRequest new <= 3)%nat /\
      requests (snd out) = (requests c + countEvents isRequest new)%nat /\
      countEvents isTooManyRequests new = 0%nat /\
      (countEvents isSleep new <= 2)%nat) /\
  ((endpointIndex c < 2)%nat -> (endpointIndex (snd out) < 2)%nat) /\
  lastRequestTime (snd out) = lastRequestTime c /\
  (clockReads c <= clockReads (snd out) <= S (clockReads c))%nat /\
  (forall failure : Failure,
      fst out = inl failure ->
      cached = None /\ cache (snd out) = cache c /\
      (failure = FailedToFetch \/
       exists call endpoint, attempt parseInt fetch call endpoint = inl failure)) /\
  (forall data : list Facility,
      fst out = inr data ->
      (exists entry, cached = Some entry /\ ce_data entry = data /\
                     cache (snd out) = cache c) \/
      (exists t call endpoint elements,
          cache (snd out) = <[cacheKey := mkCacheEntry data t]> (cache c) /\
          attempt parseInt fetch call endpoint = inr (GotElements elements) /\
          data = fst (parseElements parseInt elements))).
Proof.
  pose proof (retryLoop_spec parseInt dateNow fetch (S maxRetries) cacheKey None c) as H.
  cbv zeta in H.
  destruct (retryLoop parseInt dateNow fetch (S maxRetries) cacheKey None c)
    as [[[resources|] lastError] c'].
  - cbn [fst snd] in *. destruct H as (Hev & Hidx & Hlast & Hcache & Hclock & Hfrom).
    split; [exact Hev|]. split; [exact Hidx|]. split; [exact Hlast|].
    split; [lia|]. split; [discriminate|].
    intros data [= <-]. right. destruct Hfrom as (call & endpoint & elements & H1 & H2).
    eexists _, call, endpoint, elements. repeat split; eassumption.
  - cbn [fst snd] in H. destruct H as ((new & Hev & Hreq & Hcnt & H429 & Hsleep) & Hidx & Hlast
                                       & Hcache & Hclock & Horigin).
    destruct cached as [entry|]; cbn [fst snd record events endpointIndex lastRequestTime
                                     clockReads cache requests].
    + split.
      { exists (new ++ [WarnExpiredCache]). rewrite Hev.
        split; [now rewrite app_assoc|].
        rewrite !countEvents_app. cbn [countEvents List.filter isRequest isTooManyRequests
          isSleep length]. unfold maxRetries in *. repeat split; lia. }
      split; [exact Hidx|]. split; [exact Hlast|]. split; [lia|].
      split; [discriminate|].
      intros data [= <-]. left. exists entry. repeat split. exact Hcache.
    + split.
      { exists new. unfold maxRetries in *. repeat split; try assumption; lia. }
      split; [exact Hidx|]. split; [exact Hlast|]. split; [lia|].
      split; [|discriminate].
      intros failure [= <-]. split; [reflexivity|]. split; [exact Hcache|].
      destruct lastError as [f|]; [right|now left].
      destruct (Horigin f eq_refl) as [Habs|Hfrom]; [discriminate|exact Hfrom].
Qed.

End ClientTheorems.

Lemma retryLoop_no_elements (parseInt : JsVal -> num) (dateNow : nat -> Z)
    (fetch : nat -> nat -> Raw) (remaining : nat) (cacheKey : string)
    (lastError : option Failure) (c : Client) :
  (forall call endpoint, attempt parseInt fetch call endpoint = inr NoElements) ->
  retryLoop parseInt dateNow fetch remaining cacheKey lastError c
  = (None, lastError,
     mkClient (cache c) (endpointIndex c) (lastRequestTime c) (clockReads c)
              (remaining + requests c)
              (events c ++ replicate remaining (Request (endpointIndex c)))).
Proof.
  intros Hnone. revert c. induction remaining as [|remaining IH]; intros c.
  - cbn. rewrite app_nil_r. now destruct c.
  - cbn [retryLoop]. cbv zeta. rewrite Hnone, IH.
    cbn [cache endpointIndex lastRequestTime clockReads requests events replicate].
    rewrite <- app_assoc.
    replace (remaining + S (requests c))%nat with (S remaining + requests c)%nat by lia.
    reflexivity.
Qed.

(** X29.  One call of [fetchResources] sends at most three requests and
    sleeps at most three times, whatever the answers; it reads the clock at
    most four times; and the endpoint index stays below two.  The branch
    for status 429 is never taken: [fetchWithTimeout] throws for every
    response that is not [ok], so a 429 is caught like any failure, the
    other endpoint is tried after the retry delay and the [Retry-After]
    header is not read. *)
Theorem fetchResources_attempts (parseInt : JsVal -> num) (getCacheKey : string -> string)
    (dateNow : nat -> Z) (fetch : nat -> nat -> Raw) (bbox : string) (c : Client) :
  let c' := snd (fetchResources parseInt getCacheKey dateNow fetch bbox c) in
  (forall (call endpoint : nat) (waitTime : num),
      attempt parseInt fetch call endpoint <> inr (RateLimited waitTime)) /\
  (forall (call endpoint : nat) (retryAfter : option string) (body : Body),
      fetch call endpoint = HttpResponse 429 retryAfter body ->
      attempt parseInt fetch call endpoint = inl (HttpFailure 429)) /\
  (exists new,
      events c' = events c ++ new /\
      (countEvents isRequest new <= 3)%nat /\
      requests c' = (requests c + countEvents isRequest new)%nat /\
      countEvents isTooManyRequests new = 0%nat /\
      (countEvents isSleep new <= 3)%nat) /\
  ((endpointIndex c < 2)%nat -> (endpointIndex c' < 2)%nat) /\
  (clockReads c <= clockReads c' <= clockReads c + 4)%nat.
Proof.
  intros c'.
  split; [apply attempt_never_rate_limited|]. split; [apply attempt_429|].
  unfold c', fetchResources. cbv zeta.
  assert (Hpath : forall (cached : option CacheEntry) (c0 : Client) (pre : list ClientEvent),
             events c0 = events c ++ pre -> requests c0 = requests c ->
             endpointIndex c0 = endpointIndex c ->
             (clockReads c <= clockReads c0 <= S (clockReads c))%nat ->
             pre = [] ->
             let c1 := snd (readClock dateNow c0) in
             let now := fst (readClock dateNow c0) in
             let c2 :=
               if now - lastRequestTime c1 <? minRequestInterval
               then record [LogRateLimiting (minRequestInterval - (now - lastRequestTime c1));
                            Sleep (num_of_Z (minRequestInterval - (now - lastRequestTime c1)))]
                           c1
               else c1 in
             let c3 := snd (readClock dateNow c2) in
             let c4 := mkClient (cache c3) (endpointIndex c3) (fst (readClock dateNow c2))
                                (clockReads c3) (requests c3) (events c3 ++ [LogFetching]) in
             let out :=
               match retryLoop parseInt dateNow fetch (S maxRetries) (getCacheKey bbox) None c4
               with
               | (Some resources, _, c) => (inr resources, c)
               | (None, lastError, c) =>
                   match cached with
                   | Some entry => (inr (ce_data entry), record [WarnExpiredCache] c)
                   | None => (inl (default FailedToFetch lastError), c)
                   end
               end in
             (exists new,
                 events (snd out) = events c ++ new /\
                 (countEvents isRequest new <= 3)%nat /\
                 requests (snd out) = (requests c + countEvents isRequest new)%nat /\
                 countEvents isTooManyRequests new = 0%nat /\
                 (countEvents isSleep new <= 3)%nat) /\
             ((endpointIndex c < 2)%nat -> (endpointIndex (snd out) < 2)%nat) /\
             (clockReads c <= clockReads (snd out) <= clockReads c + 4)%nat).
  { intros cached c0 pre Hev Hreq Hidx Hclock -> c1 now c2 c3 c4 out.
    rewrite app_nil_r in Hev.
    destruct (finish_spec parseInt dateNow fetch (getCacheKey bbox) cached c4)
      as ((new & Hev' & Hreq' & Hcnt' & H429 & Hsleep) & Hidx' & _ & Hclock' & _).
    fold out in Hev', Hcnt', Hidx', Hclock'.
    assert (Hc2 : exists wait,
               events c2 = events c ++ wait /\ requests c2 = requests c /\
               endpointIndex c2 = endpointIndex c /\ clockReads c2 = S (clockReads c0) /\
               countEvents isRequest wait = 0%nat /\
               countEvents isTooManyRequests wait = 0%nat /\
               (countEvents isSleep wait <= 1)%nat).
    { unfold c2. destruct (now - lastRequestTime c1 <? minRequestInterval).
      - eexists [_; _]. unfold c1. cbn [record readClock snd events requests endpointIndex
                                        clockReads]. rewrite Hev, Hreq, Hidx.
        repeat split. cbn. lia.
      - exists []. unfold c1. cbn [readClock snd events requests endpointIndex clockReads].
        rewrite Hev, Hreq, Hidx, app_nil_r. repeat split. cbn. lia. }
    destruct Hc2 as (wait & W1 & W2 & W3 & W4 & W5 & W6 & W7).
    assert (E4 : events c4 = events c ++ wait ++ [LogFetching])
      by (unfold c4, c3; cbn [readClock snd events]; now rewrite W1, <- app_assoc).
    assert (R4 : requests c4 = requests c)
      by (unfold c4, c3; cbn [readClock snd requests]; exact W2).
    assert (I4 : endpointIndex c4 = endpointIndex c)
      by (unfold c4, c3; cbn [readClock snd endpointIndex]; exact W3).
    assert (C4 : clockReads c4 = S (S (clockReads c0)))
      by (unfold c4, c3; cbn [readClock snd clockReads]; now rewrite W4).
    split; [|split].
    - exists (wait ++ [LogFetching] ++ new). rewrite Hev', E4.
      split; [now rewrite <- !app_assoc|].
      rewrite !countEvents_app, W5, W6. cbn [countEvents List.filter isRequest
        isTooManyRequests isSleep length]. rewrite Hcnt', R4. repeat split; lia.
    - rewrite <- I4. exact Hidx'.
    - lia. }
  destruct (cache c !! getCacheKey bbox) as [entry|] eqn:Hcached.
  - cbn [readClock]. destruct (dateNow (clockReads c) - ce_timestamp entry <? cacheExpiry).
    + cbn [snd record events requests endpointIndex clockReads].
      split; [|split; [tauto|lia]].
      exists [LogCacheHit]. cbn. repeat split; lia.
    + apply (Hpath (Some entry)
               (mkClient (cache c) (endpointIndex c) (lastRequestTime c) (S (clockReads c))
                         (requests c) (events c)) []);
        cbn [events requests endpointIndex clockReads]; try reflexivity;
        [now rewrite app_nil_r|lia].
  - apply (Hpath None c []); try reflexivity; [now rewrite app_nil_r|lia].
Qed.

Lemma fetchResources_attempts_witness :
  fst (fetchResources parseIntOnIntegers (fun bbox => bbox) secondsClock alwaysTooMany
         "25,121.5,25.1,121.6" client0) = inl (HttpFailure 429) /\
  requests (snd (fetchResources parseIntOnIntegers (fun bbox => bbox) secondsClock
                   alwaysTooMany "25,121.5,25.1,121.6" client0)) = 3%nat /\
  countEvents isTooManyRequests
    (events (snd (fetchResources parseIntOnIntegers (fun bbox => bbox) secondsClock
                    alwaysTooMany "25,121.5,25.1,121.6" client0))) = 0%nat.
Proof.
  destruct (fetchResources_attempts parseIntOnIntegers (fun bbox => bbox) secondsClock
              alwaysTooMany "25,121.5,25.1,121.6" client0) as (_ & _ & _).
  repeat split; reflexivity.
Defined.

(** X30.  What [fetchResources] answers.  A cache entry for the key that is
    younger than five minutes is returned at once: one clock reading, one
    log line, no request, no sleep, nothing else changed.  When the call
    throws, the cache had no entry for the key and is left as it was, and
    the exception is the one of an attempt or, when none threw, the
    generic failure.  When it returns resources, they are either those of
    the (expired) cache entry, the cache being left as it was, or the
    parsed elements of an answer, stored in the cache under the key.
    Answers without [elements] are asked for again at once: three requests
    to the same endpoint with no pause in between. *)
Theorem fetchResources_outcomes (parseInt : JsVal -> num) (getCacheKey : string -> string)
    (dateNow : nat -> Z) (fetch : nat -> nat -> Raw) (bbox : string) (c : Client) :
  let cacheKey := getCacheKey bbox in
  let out := fetchResources parseInt getCacheKey dateNow fetch bbox c in
  (forall entry : CacheEntry,
      cache c !! cacheKey = Some entry ->
      dateNow (clockReads c) - ce_timestamp entry < cacheExpiry ->
      out = (inr (ce_data entry),
             mkClient (cache c) (endpointIndex c) (lastRequestTime c) (S (clockReads c))
                      (requests c) (events c ++ [LogCacheHit]))) /\
  (forall failure : Failure,
      fst out = inl failure ->
      cache c !! cacheKey = None /\ cache (snd out) = cache c /\
      (failure = FailedToFetch \/
       exists call endpoint, attempt parseInt fetch call endpoint = inl failure)) /\
  (forall data : list Facility,
      fst out = inr data ->
      (exists entry, cache c !! cacheKey = Some entry /\ ce_data entry = data /\
                     cache (snd out) = cache c) \/
      (exists t call endpoint elements,
          cache (snd out) = <[cacheKey := mkCacheEntry data t]> (cache c) /\
          attempt parseInt fetch call endpoint = inr (GotElements elements) /\
          data = fst (parseElements parseInt elements))) /\
  ((forall call endpoint, attempt parseInt fetch call endpoint = inr NoElements) ->
   cache c !! cacheKey = None ->
   fst out = inl FailedToFetch /\
   exists pre,
     events (snd out)
     = events c ++ pre ++ LogFetching :: replicate 3 (Request (endpointIndex c)) /\
     countEvents isRequest pre = 0%nat).
Proof.
  intros cacheKey out.
  assert (Hpath : forall (cached : option CacheEntry) (c0 : Client),
             cache c0 = cache c ->
             let c1 := snd (readClock dateNow c0) in
             let now := fst (readClock dateNow c0) in
             let c2 :=
               if now - lastRequestTime c1 <? minRequestInterval
               then record [LogRateLimiting (minRequestInterval - (now - lastRequestTime c1));
                            Sleep (num_of_Z (minRequestInterval - (now - lastRequestTime c1)))]
                           c1
               else c1 in
             let c3 := snd (readClock dateNow c2) in
             let c4 := mkClient (cache c3) (endpointIndex c3) (fst (readClock dateNow c2))
                                (clockReads c3) (requests c3) (events c3 ++ [LogFetching]) in
             let out :=
               match retryLoop parseInt dateNow fetch (S maxRetries) cacheKey None c4 with
               | (Some resources, _, c) => (inr resources, c)
               | (None, lastError, c) =>
                   match cached with
                   | Some entry => (inr (ce_data entry), record [WarnExpiredCache] c)
                   | None => (inl (default FailedToFetch lastError), c)
                   end
               end in
             (forall failure : Failure,
                 fst out = inl failure ->
                 cached = None /\ cache (snd out) = cache c /\
                 (failure = FailedToFetch \/
                  exists call endpoint, attempt parseInt fetch call endpoint = inl failure)) /\
             (forall data : list Facility,
                 fst out = inr data ->
                 (exists entry, cached = Some entry /\ ce_data entry = data /\
                                cache (snd out) = cache c) \/
                 (exists t call endpoint elements,
                     cache (snd out) = <[cacheKey := mkCacheEntry data t]> (cache c) /\
                     attempt parseInt fetch call endpoint = inr (GotElements elements) /\
                     data = fst (parseElements parseInt elements)))).
  { intros cached c0 Hcache c1 now c2 c3 c4 out0.
    destruct (finish_spec parseInt dateNow fetch cacheKey cached c4)
      as (_ & _ & _ & _ & Hfail & Hdata).
    fold out0 in Hfail, Hdata.
    assert (C4 : cache c4 = cache c).
    { unfold c4, c3, c2. destruct (now - lastRequestTime c1 <? minRequestInterval);
        unfold c1; cbn [readClock record snd cache]; exact Hcache. }
    rewrite C4 in Hfail, Hdata. split; assumption. }
  split; [|split; [|split]].
  - intros entry Hentry Hyoung. unfold out, fetchResources. cbv zeta.
    fold cacheKey. rewrite Hentry. cbn [readClock].
    apply Z.ltb_lt in Hyoung. rewrite Hyoung. reflexivity.
  - intros failure. unfold out, fetchResources. cbv zeta. fold cacheKey.
    destruct (cache c !! cacheKey) as [entry|] eqn:Hcached.
    + cbn [readClock]. destruct (dateNow (clockReads c) - ce_timestamp entry <? cacheExpiry).
      * discriminate.
      * intros Hfail.
        destruct (Hpath (Some entry)
                    (mkClient (cache c) (endpointIndex c) (lastRequestTime c)
                              (S (clockReads c)) (requests c) (events c)) eq_refl)
          as [H _].
        destruct (H failure Hfail) as [Habs _]. discriminate.
    + intros Hfail. destruct (Hpath None c eq_refl) as [H _].
      destruct (H failure Hfail) as (_ & H1 & H2). repeat split; assumption.
  - intros data. unfold out, fetchResources. cbv zeta. fold cacheKey.
    destruct (cache c !! cacheKey) as [entry|] eqn:Hcached.
    + cbn [readClock]. destruct (dateNow (clockReads c) - ce_timestamp entry <? cacheExpiry).
      * intros [= <-]. left. exists entry. repeat split.
      * intros Hdata.
        destruct (Hpath (Some entry)
                    (mkClient (cache c) (endpointIndex c) (lastRequestTime c)
                              (S (clockReads c)) (requests c) (events c)) eq_refl)
          as [_ H].
        destruct (H data Hdata) as [(entry' & [= <-] & H1 & H2)|Hnew];
          [left; exists entry; repeat split; assumption|right; exact Hnew].
    + intros Hdata. destruct (Hpath None c eq_refl) as [_ H].
      destruct (H data Hdata) as [(entry' & Habs & _)|Hnew]; [discriminate|right; exact Hnew].
  - intros Hnone Hcached. unfold out, fetchResources. cbv zeta. fold cacheKey.
    rewrite Hcached. cbn [readClock].
    cbn [cache endpointIndex lastRequestTime clockReads requests events].
    destruct (dateNow (clockReads c) - lastRequestTime c <? minRequestInterval).
    + rewrite retryLoop_no_elements by exact Hnone.
      cbn [fst snd default]. split; [reflexivity|].
      eexists [_; _].
      cbn [record events endpointIndex cache lastRequestTime clockReads requests maxRetries].
      rewrite <- !app_assoc. split; reflexivity.
    + rewrite retryLoop_no_elements by exact Hnone.
      cbn [fst snd default]. split; [reflexivity|].
      exists [].
      cbn [record events endpointIndex cache lastRequestTime clockReads requests maxRetries].
      rewrite <- !app_assoc. split; reflexivity.
Qed.

Lemma fetchResources_outcomes_witness :
  fst (fetchResources parseIntOnIntegers (fun bbox => bbox) secondsClock neverElements
         "25,121.5,25.1,121.6" client0) = inl FailedToFetch /\
  exists pre,
    events (snd (fetchResources parseIntOnIntegers (fun bbox => bbox) secondsClock
                   neverElements "25,121.5,25.1,121.6" client0))
    = events client0 ++ pre ++ LogFetching :: replicate 3 (Request (endpointIndex client0)) /\
    countEvents isRequest pre = 0%nat.
Proof.
  destruct (fetchResources_outcomes parseIntOnIntegers (fun bbox => bbox) secondsClock
              neverElements "25,121.5,25.1,121.6" client0) as (_ & _ & _ & H).
  apply H; reflexivity.
Defined.

(** The first endpoint fails and the second one answers: two requests, one
    pause, both elements parsed and cached, and the next call starts at the
    second endpoint. *)
Example fetchResources_second_endpoint :
  let out := fetchResources parseIntOnIntegers (fun bbox => bbox) secondsClock
               secondEndpointWorks "25,121.5,25.1,121.6" client0 in
  (exists data, fst out = inr data /\ length data = 2%nat /\
                ce_data <$> cache (snd out) !! "25,121.5,25.1,121.6"%string = Some data) /\
  endpointIndex (snd out) = 1%nat /\
  requests (snd out) = 2%nat /\
  countEvents isSleep (events (snd out)) = 1%nat.
Proof.
  cbv zeta. split; [|repeat split; reflexivity].
  eexists. split; [reflexivity|]. split; reflexivity.
Qed.
